(** * Contact book (main.py): fields, records, address book, upcoming
      birthdays and persistence, embedded in Rocq.

    The Python program is embedded shallowly.  Python [str] values are
    lists of Unicode code points, exceptions are values of an error monad,
    methods that mutate [self] are state transformers, and the parts of the
    Python runtime the program calls ([str.strip], [str.isdigit],
    [datetime.date], [datetime.strptime], [date.strftime], [list.sort]) are
    transcribed in module [Py] from CPython 3.11 (pure-Python [datetime.py]
    and [_strptime.py], Unicode 14.0 character tables). *)

From Stdlib Require Import ZArith Lia.
From stdpp Require Import base list strings gmap sorting.

Local Open Scope Z_scope.

(* ===================================================================== *)
(** * The Python runtime used by main.py *)
(* ===================================================================== *)

Module Py.

(** ** Strings *)

(** A character is its Unicode code point; a [str] is a list of them. *)
Abbreviation char := Z (only parsing).
Abbreviation pystr := (list Z) (only parsing).

(** ASCII literal: the code points of a Rocq string of ASCII characters. *)
Fixpoint lit (s : string) : pystr :=
  match s with
  | EmptyString => []
  | String a s' => Z.of_N (Ascii.N_of_ascii a) :: lit s'
  end.

Definition in_ranges (rs : list (Z * Z)) (c : char) : bool :=
  existsb (fun r => (fst r <=? c) && (c <=? snd r)) rs.

(** [str.isspace] per character (bidirectional class WS, B or S, or
    category Zs): the characters removed by [str.strip()]. *)
Definition whitespace_ranges : list (Z * Z) :=
  [ (9, 13); (28, 32); (133, 133); (160, 160); (5760, 5760); (8192, 8202);
    (8232, 8233); (8239, 8239); (8287, 8287); (12288, 12288) ].

Definition isspace_char (c : char) : bool := in_ranges whitespace_ranges c.

(** Unicode category Nd (Numeric_Type = Decimal): what [str.isdecimal],
    the regex class [\d] and [int()] accept.  Every range is a whole number
    of runs zero..nine. *)
Definition decimal_ranges : list (Z * Z) :=
  [ (48, 57); (1632, 1641); (1776, 1785); (1984, 1993); (2406, 2415);
    (2534, 2543); (2662, 2671); (2790, 2799); (2918, 2927); (3046, 3055);
    (3174, 3183); (3302, 3311); (3430, 3439); (3558, 3567); (3664, 3673);
    (3792, 3801); (3872, 3881); (4160, 4169); (4240, 4249); (6112, 6121);
    (6160, 6169); (6470, 6479); (6608, 6617); (6784, 6793); (6800, 6809);
    (6992, 7001); (7088, 7097); (7232, 7241); (7248, 7257); (42528, 42537);
    (43216, 43225); (43264, 43273); (43472, 43481); (43504, 43513);
    (43600, 43609); (44016, 44025); (65296, 65305); (66720, 66729);
    (68912, 68921); (69734, 69743); (69872, 69881); (69942, 69951);
    (70096, 70105); (70384, 70393); (70736, 70745); (70864, 70873);
    (71248, 71257); (71360, 71369); (71472, 71481); (71904, 71913);
    (72016, 72025); (72784, 72793); (73040, 73049); (73120, 73129);
    (92768, 92777); (92864, 92873); (93008, 93017); (120782, 120831);
    (123200, 123209); (123632, 123641); (125264, 125273);
    (130032, 130041) ].

(** Characters with Numeric_Type = Digit that are not decimal: superscripts,
    subscripts, circled and parenthesised digits and the like. *)
Definition other_digit_ranges : list (Z * Z) :=
  [ (178, 179); (185, 185); (4969, 4977); (6618, 6618); (8304, 8304);
    (8308, 8313); (8320, 8329); (9312, 9320); (9332, 9340); (9352, 9360);
    (9450, 9450); (9461, 9469); (9471, 9471); (10102, 10110);
    (10112, 10120); (10122, 10130); (68160, 68163); (69216, 69224);
    (69714, 69722); (127232, 127242) ].

Definition isdecimal_char (c : char) : bool := in_ranges decimal_ranges c.

Definition isdigit_char (c : char) : bool :=
  isdecimal_char c || in_ranges other_digit_ranges c.

(** The ten ASCII characters '0'..'9'. *)
Definition is_ascii_digit (c : char) : bool := (48 <=? c) && (c <=? 57).

(** Value of a decimal character: its offset in its run of ten. *)
Fixpoint decimal_value_in (rs : list (Z * Z)) (c : char) : option Z :=
  match rs with
  | [] => None
  | (lo, hi) :: rs' =>
      if (lo <=? c) && (c <=? hi) then Some ((c - lo) mod 10)
      else decimal_value_in rs' c
  end.

Definition decimal_value (c : char) : option Z :=
  decimal_value_in decimal_ranges c.

(** [str.isdigit()]: at least one character and all of them digits. *)
Definition isdigit (s : pystr) : bool :=
  match s with
  | [] => false
  | _ => forallb isdigit_char s
  end.

Fixpoint lstrip (s : pystr) : pystr :=
  match s with
  | [] => []
  | c :: s' => if isspace_char c then lstrip s' else s
  end.

Definition rstrip (s : pystr) : pystr := rev (lstrip (rev s)).

(** [str.strip()] with no argument. *)
Definition strip (s : pystr) : pystr := rstrip (lstrip s).

Definition len (s : pystr) : Z := Z.of_nat (length s).

(** [sep.join(parts)] *)
Fixpoint join (sep : pystr) (parts : list pystr) : pystr :=
  match parts with
  | [] => []
  | [p] => p
  | p :: ps => p ++ sep ++ join sep ps
  end.

(** ** Exceptions *)

(** The argument of an exception: the literal texts of main.py and the
    conditions under which the runtime raises. *)
Inductive message :=
| MsgNameEmpty                             (* Name: "give a name" *)
| MsgPhoneTenDigits                        (* Phone: "number must contain 10 digits" *)
| MsgBirthdayFormat                        (* Birthday: "wrong date format, must be DD.MM.YYYY" *)
| MsgOldPhoneNotFound (old_phone : pystr)  (* f"Old phone {old_phone} not found" *)
| MsgNothingToRemove                       (* "Nothing to remove" *)
| MsgNameNotFound                          (* "Name not found" *)
| MsgNoMatch                               (* strptime: data does not match format *)
| MsgUnconverted                           (* strptime: unconverted data remains *)
| MsgIntLiteral                            (* int(): invalid literal *)
| MsgYearRange                             (* date: year out of range *)
| MsgMonthRange                            (* date: month must be in 1..12 *)
| MsgDayRange                              (* date: day is out of range for month *)
| MsgDateOverflow                          (* date + timedelta: date value out of range *)
| MsgPickle.                               (* pickle.load: data cannot be decoded *)

Inductive exn :=
| ValueError (m : message)
| KeyError (m : message)
| OverflowError (m : message)
| FileNotFoundError
| OSError (errno : Z)
| UnpicklingError (m : message).

Inductive result (A : Type) :=
| Ok (a : A)
| Raise (e : exn).
Arguments Ok {A} a.
Arguments Raise {A} e.

Definition bind {A B} (r : result A) (k : A -> result B) : result B :=
  match r with
  | Ok a => k a
  | Raise e => Raise e
  end.

Notation "'let!' x ':=' e 'in' k" := (bind e (fun x => k))
  (at level 10, x name, e at level 100, k at level 200, only parsing).

Definition is_ValueError (e : exn) : bool :=
  match e with ValueError _ => true | _ => false end.


(** [try: body  except E: handler], [catches] recognising the class [E]. *)
Definition try_except {A} (catches : exn -> bool)
    (body : result A) (handler : result A) : result A :=
  match body with
  | Ok a => Ok a
  | Raise e => if catches e then handler else Raise e
  end.

(** [int(s)] on the texts [strptime] hands it: decimal characters of any
    script, with whitespace around them ignored.  (Signs and underscores,
    which [int] also reads, do not occur in those texts.) *)
Fixpoint int_digits (acc : Z) (s : pystr) : option Z :=
  match s with
  | [] => Some acc
  | c :: s' =>
      match decimal_value c with
      | Some v => int_digits (acc * 10 + v) s'
      | None => None
      end
  end.

Definition int (s : pystr) : result Z :=
  match strip s with
  | [] => Raise (ValueError MsgIntLiteral)
  | t => match int_digits 0 t with
         | Some n => Ok n
         | None => Raise (ValueError MsgIntLiteral)
         end
  end.

(** ** datetime.date (datetime.py) *)

Definition MINYEAR : Z := 1.
Definition MAXYEAR : Z := 9999.
Definition _MAXORDINAL : Z := 3652059.

Definition _DAYS_IN_MONTH : list Z :=
  [-1; 31; 28; 31; 30; 31; 30; 31; 31; 30; 31; 30; 31].

Definition _DAYS_BEFORE_MONTH : list Z :=
  [-1; 0; 31; 59; 90; 120; 151; 181; 212; 243; 273; 304; 334].

(** [table[i]] for the two month tables (indices 0..12). *)
Definition index (table : list Z) (i : Z) : Z := nth (Z.to_nat i) table 0.

Definition _is_leap (year : Z) : bool :=
  (year mod 4 =? 0) && (negb (year mod 100 =? 0) || (year mod 400 =? 0)).

Definition _days_before_year (year : Z) : Z :=
  let y := year - 1 in
  y * 365 + y / 4 - y / 100 + y / 400.

Definition _days_in_month (year month : Z) : Z :=
  if (month =? 2) && _is_leap year then 29
  else index _DAYS_IN_MONTH month.

Definition _days_before_month (year month : Z) : Z :=
  index _DAYS_BEFORE_MONTH month
  + (if (2 <? month) && _is_leap year then 1 else 0).

Definition _ymd2ord (year month day : Z) : Z :=
  _days_before_year year + _days_before_month year month + day.

Definition _DI400Y : Z := _days_before_year 401.
Definition _DI100Y : Z := _days_before_year 101.
Definition _DI4Y : Z := _days_before_year 5.

Definition _ord2ymd (n : Z) : Z * Z * Z :=
  let n := n - 1 in
  let n400 := n / _DI400Y in
  let n := n mod _DI400Y in
  let year := n400 * 400 + 1 in
  let n100 := n / _DI100Y in
  let n := n mod _DI100Y in
  let n4 := n / _DI4Y in
  let n := n mod _DI4Y in
  let n1 := n / 365 in
  let n := n mod 365 in
  let year := year + (n100 * 100 + n4 * 4 + n1) in
  if (n1 =? 4) || (n100 =? 4) then (year - 1, 12, 31)
  else
    let leapyear := (n1 =? 3) && (negb (n4 =? 24) || (n100 =? 3)) in
    let month := Z.shiftr (n + 50) 5 in
    let preceding :=
      index _DAYS_BEFORE_MONTH month
      + (if (2 <? month) && leapyear then 1 else 0) in
    if n <? preceding then
      let month := month - 1 in
      let preceding :=
        preceding
        - (index _DAYS_IN_MONTH month
           + (if (month =? 2) && leapyear then 1 else 0)) in
      (year, month, n - preceding + 1)
    else (year, month, n - preceding + 1).

(** The last step of [_ord2ymd] on its own: month and day from the offset
    [n] in the year and the leap flag. *)
Definition month_day (n : Z) (leapyear : bool) : Z * Z :=
  let month := Z.shiftr (n + 50) 5 in
  let preceding :=
    index _DAYS_BEFORE_MONTH month
    + (if (2 <? month) && leapyear then 1 else 0) in
  if n <? preceding then
    let month := month - 1 in
    let preceding :=
      preceding
      - (index _DAYS_IN_MONTH month
         + (if (month =? 2) && leapyear then 1 else 0)) in
    (month, n - preceding + 1)
  else (month, n - preceding + 1).

Record date := mkdate { year : Z; month : Z; day : Z }.

(** [_check_date_fields]. *)
Definition _check_date_fields (y m d : Z) : result (Z * Z * Z) :=
  if negb ((MINYEAR <=? y) && (y <=? MAXYEAR)) then
    Raise (ValueError MsgYearRange)
  else if negb ((1 <=? m) && (m <=? 12)) then
    Raise (ValueError MsgMonthRange)
  else
    let dim := _days_in_month y m in
    if negb ((1 <=? d) && (d <=? dim)) then Raise (ValueError MsgDayRange)
    else Ok (y, m, d).

(** The constructor [date(year, month, day)]. *)
Definition date_new (y m d : Z) : result date :=
  let! f := _check_date_fields y m d in
  let '(y, m, d) := f in
  Ok (mkdate y m d).

(** The invariant of every [date] object. *)
Definition valid_date (d : date) : bool :=
  (MINYEAR <=? year d) && (year d <=? MAXYEAR)
  && (1 <=? month d) && (month d <=? 12)
  && (1 <=? day d) && (day d <=? _days_in_month (year d) (month d)).

(** [d.replace(year=y)] *)
Definition replace_year (d : date) (y : Z) : result date :=
  date_new y (month d) (day d).

Definition toordinal (d : date) : Z := _ymd2ord (year d) (month d) (day d).

Definition fromordinal (n : Z) : result date :=
  let '(y, m, d) := _ord2ymd n in date_new y m d.

(** [d.weekday()]: Monday is 0, Sunday is 6. *)
Definition weekday (d : date) : Z := (toordinal d + 6) mod 7.

(** [a < b] on dates: the fields compared as the tuple (year, month, day). *)
Definition date_ltb (a b : date) : bool :=
  (year a <? year b)
  || ((year a =? year b)
      && ((month a <? month b)
          || ((month a =? month b) && (day a <? day b)))).

Definition date_eqb (a b : date) : bool :=
  (year a =? year b) && (month a =? month b) && (day a =? day b).

(** [d + timedelta(days=k)] *)
Definition date_add (d : date) (k : Z) : result date :=
  let o := toordinal d + k in
  if (0 <? o) && (o <=? _MAXORDINAL) then fromordinal o
  else Raise (OverflowError MsgDateOverflow).

(** [(a - b).days] *)
Definition date_sub_days (a b : date) : Z := toordinal a - toordinal b.

Definition succeeds {A} (r : result A) : Prop := exists a, r = Ok a.

Fixpoint mapM {A B} (f : A -> result B) (l : list A) : result (list B) :=
  match l with
  | [] => Ok []
  | x :: l' =>
      bind (f x) (fun y => bind (mapM f l') (fun ys => Ok (y :: ys)))
  end.

(** ** datetime.strptime(s, "%d.%m.%Y") (_strptime.py)

    The format compiles to the regular expression
    [(?P<d>3[0-1]|[1-2]\d|0[1-9]|[1-9]| [1-9])\.(?P<m>1[0-2]|0[1-9]|[1-9])\.(?P<Y>\d\d\d\d)]
    matched at the start of the string.  A group is modelled by the list of
    its candidate matches (text, rest) in the order a backtracking matcher
    tries them. *)

Definition between (lo hi : Z) (c : char) : bool := (lo <=? c) && (c <=? hi).

Definition re_char (p : char -> bool) (s : pystr) : list (pystr * pystr) :=
  match s with
  | c :: r => if p c then [([c], r)] else []
  | _ => []
  end.

Definition re_char2 (p1 p2 : char -> bool) (s : pystr)
  : list (pystr * pystr) :=
  match s with
  | c1 :: c2 :: r => if p1 c1 && p2 c2 then [([c1; c2], r)] else []
  | _ => []
  end.

(** [3[0-1]|[1-2]\d|0[1-9]|[1-9]| [1-9]] *)
Definition re_d (s : pystr) : list (pystr * pystr) :=
  re_char2 (between 51 51) (between 48 49) s
  ++ re_char2 (between 49 50) isdecimal_char s
  ++ re_char2 (between 48 48) (between 49 57) s
  ++ re_char (between 49 57) s
  ++ re_char2 (between 32 32) (between 49 57) s.

(** [1[0-2]|0[1-9]|[1-9]] *)
Definition re_m (s : pystr) : list (pystr * pystr) :=
  re_char2 (between 49 49) (between 48 50) s
  ++ re_char2 (between 48 48) (between 49 57) s
  ++ re_char (between 49 57) s.

(** [\d\d\d\d] *)
Definition re_Y (s : pystr) : list (pystr * pystr) :=
  match s with
  | c1 :: c2 :: c3 :: c4 :: r =>
      if isdecimal_char c1 && isdecimal_char c2
         && isdecimal_char c3 && isdecimal_char c4
      then [([c1; c2; c3; c4], r)] else []
  | _ => []
  end.

(** [\.] *)
Definition re_dot (s : pystr) : list pystr :=
  match s with
  | c :: r => if c =? 46 then [r] else []
  | [] => []
  end.

(** All matches of the whole expression, best first: the groups d, m, Y
    and the unconsumed rest. *)
Definition format_regex_matches (s : pystr)
  : list (pystr * pystr * pystr * pystr) :=
  '(d, r1) ← re_d s;
  r2 ← re_dot r1;
  '(m, r3) ← re_m r2;
  r4 ← re_dot r3;
  '(Y, r5) ← re_Y r4;
  [(d, m, Y, r5)].

(** [datetime.strptime(s, "%d.%m.%Y").date()] *)
Definition strptime (s : pystr) : result date :=
  match format_regex_matches s with
  | [] => Raise (ValueError MsgNoMatch)
  | (d, m, Y, rest) :: _ =>
      match rest with
      | _ :: _ => Raise (ValueError MsgUnconverted)
      | [] =>
          let! day := int d in
          let! month := int m in
          let! year := int Y in
          date_new year month day
      end
  end.

(** ** date.strftime("%d.%m.%Y")

    [%d] and [%m] are two digits, zero-filled.  [%Y] is left to the C
    library: glibc prints the year without filling, other libraries
    zero-fill it to four digits.  [strftime_Y_zero_fill] says which. *)
Class LibC := { strftime_Y_zero_fill : bool }.

Definition digit_char (n : Z) : char := 48 + n.

Definition two_digits (n : Z) : pystr :=
  [digit_char (n / 10 mod 10); digit_char (n mod 10)].

Definition four_digits (n : Z) : pystr :=
  [digit_char (n / 1000 mod 10); digit_char (n / 100 mod 10);
   digit_char (n / 10 mod 10); digit_char (n mod 10)].

(** Decimal numeral of a non-negative number, no filling. *)
Fixpoint decimal_fuel (fuel : nat) (n : Z) (acc : pystr) : pystr :=
  let acc' := digit_char (n mod 10) :: acc in
  match fuel with
  | O => acc'
  | S fuel' => if n <? 10 then acc' else decimal_fuel fuel' (n / 10) acc'
  end.

Definition decimal (n : Z) : pystr :=
  decimal_fuel (Z.to_nat (Z.log2 n)) n [].

Definition strftime `{LibC} (d : date) : pystr :=
  two_digits (day d) ++ [46] ++ two_digits (month d) ++ [46]
  ++ (if strftime_Y_zero_fill then four_digits (year d)
      else decimal (year d)).

(** ** list.sort(key=...)

    The keys are computed first, one per element; the elements are then
    ordered by [<] on the keys, elements with equal keys keeping their
    order (the sort is stable). *)
Fixpoint insert_by {A} (lt : A -> A -> bool) (x : A) (l : list A) : list A :=
  match l with
  | [] => [x]
  | y :: l' => if lt y x then y :: insert_by lt x l' else x :: l
  end.

Definition stable_sort {A} (lt : A -> A -> bool) (l : list A) : list A :=
  foldr (insert_by lt) [] l.

Definition decorate {A K} (key : A -> result K) (l : list A)
  : result (list (K * A)) :=
  mapM (fun x => let! k := key x in Ok (k, x)) l.

Definition sort_by_key {A K} (key : A -> result K) (lt : K -> K -> bool)
    (l : list A) : result (list A) :=
  let! keyed := decorate key l in
  Ok (snd <$> stable_sort (fun a b => lt (fst a) (fst b)) keyed).

(** The character tables and the calendar functions are unfolded on
    request only. *)
#[global] Arguments isspace_char : simpl never.
#[global] Arguments isdecimal_char : simpl never.
#[global] Arguments isdigit_char : simpl never.
#[global] Arguments is_ascii_digit : simpl never.
#[global] Arguments decimal_value : simpl never.
#[global] Arguments between : simpl never.
#[global] Arguments _is_leap : simpl never.
#[global] Arguments _days_in_month : simpl never.
#[global] Arguments _days_before_month : simpl never.
#[global] Arguments _days_before_year : simpl never.
#[global] Arguments _ymd2ord : simpl never.
#[global] Arguments _ord2ymd : simpl never.
#[global] Arguments index : simpl never.
#[global] Arguments toordinal : simpl never.
#[global] Arguments weekday : simpl never.

End Py.

Import Py.

(* ===================================================================== *)
(** * main.py *)
(* ===================================================================== *)

(** The files of the machine: the bytes stored under each path. *)
Abbreviation filesystem := (gmap string (list Byte.byte)).

Section main.

Context `{LibC}.

(** ** Fields *)

(** [class Field]: an object with one attribute, [value]. *)
Record Field := mkField { value : pystr }.

(** [Field.__str__] *)
Definition Field_str (f : Field) : pystr := value f.

(** [Name.__init__] *)
Definition Name (v : pystr) : result Field :=
  let v := strip v in
  if bool_decide (v = []) then Raise (ValueError MsgNameEmpty)
  else Ok (mkField v).

(** [Phone.__init__] *)
Definition Phone (v : pystr) : result Field :=
  let v := strip v in
  if negb (isdigit v) || negb (len v =? 10) then
    Raise (ValueError MsgPhoneTenDigits)
  else Ok (mkField v).

(** [Birthday.__init__] *)
Definition Birthday (v : pystr) : result Field :=
  let v := strip v in
  let! parsed_value :=
    try_except is_ValueError (strptime v)
      (Raise (ValueError MsgBirthdayFormat)) in
  Ok (mkField (strftime parsed_value)).

(** [Birthday.date_value] *)
Definition date_value (b : Field) : result date := strptime (value b).

(** ** Record *)

Record ContactRecord := mkRecord {
  name : Field;
  phones : list Field;
  birthday : option Field
}.

(** [Record.__init__] *)
Definition Record_init (nm : pystr) : result ContactRecord :=
  let! n := Name nm in
  Ok (mkRecord n [] None).

(** A method of [Record]: it returns or raises, and leaves [self] in a
    new state. *)
Definition method (A : Type) : Type :=
  ContactRecord -> result A * ContactRecord.

Definition set_phones (self : ContactRecord) (ps : list Field)
  : ContactRecord :=
  mkRecord (name self) ps (birthday self).

Definition set_birthday (self : ContactRecord) (b : option Field)
  : ContactRecord :=
  mkRecord (name self) (phones self) b.

(** [Record.add_phone] *)
Definition add_phone (phone : pystr) : method unit := fun self =>
  match Phone phone with
  | Raise e => (Raise e, self)
  | Ok p => (Ok tt, set_phones self (phones self ++ [p]))
  end.

(** The loop of [find_phone].  Each [Phone] object sits in exactly one slot
    of [self.phones] ([add_phone] is the only code that stores one, and it
    stores a fresh object), so the object the loop returns is identified
    by the index of its slot. *)
Fixpoint find_phone_slot (ps : list Field) (phone : pystr) : option nat :=
  match ps with
  | [] => None
  | p :: ps' =>
      if bool_decide (value p = phone) then Some O
      else S <$> find_phone_slot ps' phone
  end.

(** [Record.find_phone]: the phone found, or [None]. *)
Definition find_phone (self : ContactRecord) (phone : pystr)
  : option Field :=
  i ← find_phone_slot (phones self) phone; phones self !! i.

(** [Record.edit_phone]: [p.value = Phone(new_phone).value] assigns to the
    object in the slot found. *)
Definition edit_phone (old_phone new_phone : pystr) : method unit :=
  fun self =>
  match find_phone_slot (phones self) old_phone with
  | None => (Raise (ValueError (MsgOldPhoneNotFound old_phone)), self)
  | Some i =>
      match Phone new_phone with
      | Raise e => (Raise e, self)
      | Ok q =>
          (Ok tt,
           set_phones self (<[i := mkField (value q)]> (phones self)))
      end
  end.

(** [Record.remove_phone] *)
Definition remove_phone (phone : pystr) : method unit := fun self =>
  match find_phone_slot (phones self) phone with
  | None => (Raise (ValueError MsgNothingToRemove), self)
  | Some i => (Ok tt, set_phones self (delete i (phones self)))
  end.

(** [Record.add_birthday] *)
Definition add_birthday (b : pystr) : method unit := fun self =>
  match Birthday b with
  | Raise e => (Raise e, self)
  | Ok f => (Ok tt, set_birthday self (Some f))
  end.

(** [Record.__str__] *)
Definition Record_str (self : ContactRecord) : pystr :=
  let phones_str :=
    match phones self with
    | [] => lit "-"
    | _ => join (lit " ; ") (value <$> phones self)
    end in
  let bday_str :=
    match birthday self with
    | Some b => value b
    | None => lit "-"
    end in
  value (name self) ++ lit ", phones: " ++ phones_str
  ++ lit ", birthday: " ++ bday_str.

(** ** AddressBook *)

(** [UserDict.data]: a dict from names to records.  A dict iterates in
    insertion order, so it is the list of its items in that order. *)
Definition AddressBook := list (pystr * ContactRecord).

(** [data[k] = v]: an existing key keeps its place. *)
Fixpoint dict_set (data : AddressBook) (k : pystr) (v : ContactRecord)
  : AddressBook :=
  match data with
  | [] => [(k, v)]
  | (k', v') :: rest =>
      if bool_decide (k' = k) then (k, v) :: rest
      else (k', v') :: dict_set rest k v
  end.

Fixpoint dict_get (data : AddressBook) (k : pystr) : option ContactRecord :=
  match data with
  | [] => None
  | (k', v') :: rest =>
      if bool_decide (k' = k) then Some v' else dict_get rest k
  end.

Fixpoint dict_del (data : AddressBook) (k : pystr) : AddressBook :=
  match data with
  | [] => []
  | (k', v') :: rest =>
      if bool_decide (k' = k) then rest else (k', v') :: dict_del rest k
  end.

Definition values (data : AddressBook) : list ContactRecord := snd <$> data.

(** [AddressBook.add_record] *)
Definition add_record (self : AddressBook) (record : ContactRecord)
  : AddressBook :=
  dict_set self (value (name record)) record.

(** [AddressBook.find] *)
Definition find (self : AddressBook) (nm : pystr) : option ContactRecord :=
  dict_get self nm.

(** [AddressBook.delete]: the record popped and the book left. *)
Definition delete_record (self : AddressBook) (nm : pystr)
  : result (ContactRecord * AddressBook) :=
  match dict_get self nm with
  | None => Raise (KeyError MsgNameNotFound)
  | Some r => Ok (r, dict_del self nm)
  end.

(** [AddressBook.__str__] *)
Definition AddressBook_str (self : AddressBook) : pystr :=
  match self with
  | [] => lit "[]"
  | _ => join [10] (Record_str <$> values self)
  end.

(** [AddressBook._safe_birthday_for_year] *)
Definition _safe_birthday_for_year (bday : date) (y : Z) : result date :=
  try_except is_ValueError (replace_year bday y) (date_new y 2 28).

(** One element of the list [get_upcoming_birthdays] returns: a dict with
    the keys "name" and "congratulation_date". *)
Record entry := mkEntry {
  entry_name : pystr;
  congratulation_date : pystr
}.

(** Lines 114-117: the birthday's next occurrence. *)
Definition birthday_this_year (today bday_date : date) : result date :=
  let! b := _safe_birthday_for_year bday_date (year today) in
  if date_ltb b today then
    _safe_birthday_for_year bday_date (year today + 1)
  else Ok b.

(** Lines 119-124: the weekend shift. *)
Definition congrat_date (b : date) : result date :=
  if weekday b =? 5 then date_add b 2
  else if weekday b =? 6 then date_add b 1
  else Ok b.

(** The body of the loop for one record: the entry appended, if any. *)
Definition upcoming_entry (today : date) (days : Z) (record : ContactRecord)
  : result (option entry) :=
  match birthday record with
  | None => Ok None
  | Some bd =>
      let! bday_date := date_value bd in
      let! b := birthday_this_year today bday_date in
      let! c := congrat_date b in
      let delta := date_sub_days c today in
      if (0 <=? delta) && (delta <=? days) then
        Ok (Some (mkEntry (value (name record)) (strftime c)))
      else Ok None
  end.

(** The loop, with the list [upcoming] built so far. *)
Fixpoint upcoming_loop (today : date) (days : Z)
    (records : list ContactRecord) (upcoming : list entry)
  : result (list entry) :=
  match records with
  | [] => Ok upcoming
  | record :: rest =>
      let! e := upcoming_entry today days record in
      upcoming_loop today days rest
        (match e with
         | Some x => upcoming ++ [x]
         | None => upcoming
         end)
  end.

(** The sort key of line 133. *)
Definition sort_key (x : entry) : result date :=
  strptime (congratulation_date x).

(** [AddressBook.get_upcoming_birthdays]; [today] is what [date.today()]
    returns during the call. *)
Definition get_upcoming_birthdays (today : date) (self : AddressBook)
    (days : Z) : result (list entry) :=
  let! upcoming := upcoming_loop today days (values self) [] in
  sort_by_key sort_key date_ltb upcoming.

(** ** Persistence *)


(** [open(filename, "wb")] can fail: the directory of the path is missing
    (FileNotFoundError), the path is a directory or may not be written
    (another OSError, given by its errno).  Whether it does is decided by
    the operating system, from the state of the files and from what the map
    of the files does not show (directories, permissions): [None] when the
    file is opened, else the exception raised. *)
Class OS := {
  open_wb_raises : filesystem -> string -> option exn
}.

Context `{Pickle} `{OS}.





End main.

(* ===================================================================== *)
(** * main.py: the commands and the command loop *)
(* ===================================================================== *)

Module Shell.

(** ** Built-ins of the interpreter used by the commands *)

(** [str.split()] with no argument: the maximal runs of characters that are
    not whitespace. *)
Fixpoint split_from (word : pystr) (s : pystr) : list pystr :=
  match s with
  | [] => match word with [] => [] | _ => [word] end
  | c :: s' =>
      if isspace_char c then
        match word with
        | [] => split_from [] s'
        | _ => word :: split_from [] s'
        end
      else split_from (word ++ [c]) s'
  end.

Definition split (s : pystr) : list pystr := split_from [] s.

(** [str.lower()] and [int()] are fixed here on ASCII texts; on the others
    they are what the tables of the interpreter make them. *)
Class Builtins := {
  lower_other : pystr -> pystr;
  int_other : pystr -> option Z
}.

Definition is_ascii (c : char) : bool := (0 <=? c) && (c <? 128).

Definition ascii_lower (c : char) : char :=
  if (65 <=? c) && (c <=? 90) then c + 32 else c.

(** [s.lower()] *)
Definition lower `{Builtins} (s : pystr) : pystr :=
  if forallb is_ascii s then ascii_lower <$> s else lower_other s.

(** [int(s)], [None] standing for ValueError: a text of 1 to 4300 ASCII
    digits is worth the number it writes; signs, underscores, whitespace,
    digits of other scripts and longer texts are left to [int_other]. *)
Definition int_str `{Builtins} (s : pystr) : option Z :=
  if negb (bool_decide (s = [])) && forallb is_ascii_digit s
     && (len s <=? 4300)
  then int_digits 0 s
  else int_other s.

(** ** Exceptions and answers *)

(** What the code of the commands raises: the exceptions of the classes
    above and those of the interpreter. *)
Inductive raised :=
| Core (e : exn)
| UnpackError (got : nat)  (* ValueError: not enough values to unpack (expected at least 2, got [got]) *)
| IntError (s : pystr)     (* the ValueError that int(s) raises *)
| IndexError               (* list index out of range *)
| AttributeError           (* attribute of None *)
| EOFError.                (* input() at the end of the input *)

Inductive outcome (A : Type) :=
| Returns (a : A)
| Raises (r : raised).
Arguments Returns {A} a.
Arguments Raises {A} r.

Definition of_result {A} (r : result A) : outcome A :=
  match r with
  | Ok a => Returns a
  | Raise e => Raises (Core e)
  end.

(** What a command answers: a text, or the text f"Error: {e}" for the
    ValueError [e] caught. *)
Inductive reply :=
| Say (text : pystr)
| SayError (e : raised).

(** [input_error]: the wrapper [inner] around the result of [func]. *)
Definition input_error (r : outcome pystr) : outcome reply :=
  match r with
  | Returns s => Returns (Say s)
  | Raises AttributeError => Returns (Say (lit "Name not found."))
  | Raises (Core (ValueError m)) => Returns (SayError (Core (ValueError m)))
  | Raises (UnpackError n) => Returns (SayError (UnpackError n))
  | Raises (IntError s) => Returns (SayError (IntError s))
  | Raises IndexError => Returns (Say (lit "Not enough arguments."))
  | Raises (Core (KeyError _)) => Returns (Say (lit "Name not found."))
  | Raises r' => Raises r'
  end.

(** A command works on the book: it answers or raises, and leaves the
    book in a new state. *)
Definition command : Type :=
  list pystr -> AddressBook -> outcome pystr * AddressBook.

(** [@input_error] on a command. *)
Definition decorated (func : command) (args : list pystr)
    (book : AddressBook) : outcome reply * AddressBook :=
  let '(r, book') := func args book in (input_error r, book').

(** A record object is held by one slot of the dict (the slot
    [add_record] put it in), and [find] returns the object itself: a method
    called on the object found under [key] leaves its new state in that
    slot. *)
Definition call_method {A} (book : AddressBook) (key : pystr)
    (record : ContactRecord) (m : method A) : outcome A * AddressBook :=
  let '(r, record') := m record in (of_result r, dict_set book key record').

(** [if phone:] *)
Definition truthy (s : pystr) : bool := negb (bool_decide (s = [])).

Section commands.

Context `{LibC} `{Builtins} `{Pickle} `{OS}.

(** The function under [@input_error] that becomes [add_contact]. *)
Definition add_contact_func : command := fun args book =>
  match args with
  | nm :: phone :: _ =>
      match find book nm with
      | Some record =>
          if truthy phone then
            match call_method book nm record (add_phone phone) with
            | (Returns _, book') => (Returns (lit "Contact updated."), book')
            | (Raises r, book') => (Raises r, book')
            end
          else (Returns (lit "Contact updated."), book)
      | None =>
          match Record_init nm with
          | Raise e => (Raises (Core e), book)
          | Ok record =>
              let book := add_record book record in
              if truthy phone then
                match call_method book (value (name record)) record
                        (add_phone phone) with
                | (Returns _, book') => (Returns (lit "Contact added."), book')
                | (Raises r, book') => (Raises r, book')
                end
              else (Returns (lit "Contact added."), book)
          end
      end
  | _ => (Raises (UnpackError (length args)), book)
  end.

Definition add_contact := decorated add_contact_func.

Definition change_contact_func : command := fun args book =>
  match args with
  | nm :: old_phone :: new_phone :: _ =>
      match find book nm with
      | None => (Raises AttributeError, book)
      | Some record =>
          match call_method book nm record (edit_phone old_phone new_phone)
          with
          | (Returns _, book') => (Returns (lit "Phone updated."), book')
          | (Raises r, book') => (Raises r, book')
          end
      end
  | _ => (Raises IndexError, book)
  end.

Definition change_contact := decorated change_contact_func.

Definition show_phone_func : command := fun args book =>
  match args with
  | nm :: _ =>
      match find book nm with
      | None => (Raises AttributeError, book)
      | Some record =>
          match phones record with
          | [] => (Returns (lit "No phones found."), book)
          | _ => (Returns (join (lit "; ") (value <$> phones record)), book)
          end
      end
  | [] => (Raises IndexError, book)
  end.

Definition show_phone := decorated show_phone_func.

Definition show_all (book : AddressBook) : pystr := AddressBook_str book.

Definition add_birthday_func : command := fun args book =>
  match args with
  | nm :: bday :: _ =>
      match find book nm with
      | None => (Raises AttributeError, book)
      | Some record =>
          match call_method book nm record (add_birthday bday) with
          | (Returns _, book') => (Returns (lit "Birthday added."), book')
          | (Raises r, book') => (Raises r, book')
          end
      end
  | _ => (Raises IndexError, book)
  end.

Definition add_birthday := decorated add_birthday_func.

Definition show_birthday_func : command := fun args book =>
  match args with
  | nm :: _ =>
      match find book nm with
      | None => (Raises AttributeError, book)
      | Some record =>
          match birthday record with
          | None => (Returns (lit "Birthday not set."), book)
          | Some b => (Returns (value b), book)
          end
      end
  | [] => (Raises IndexError, book)
  end.

Definition show_birthday := decorated show_birthday_func.

(** One line of the answer of [birthdays]: f"{x['name']}: {x['congratulation_date']}" *)
Definition birthday_line (x : entry) : pystr :=
  entry_name x ++ lit ": " ++ congratulation_date x.

(** [today] is what [date.today()] returns during the call. *)
Definition birthdays_func (today : date) : command := fun args book =>
  match (match args with
         | [] => Returns 7
         | a :: _ => match int_str a with
                     | Some n => Returns n
                     | None => Raises (IntError a)
                     end
         end) with
  | Raises r => (Raises r, book)
  | Returns days =>
      match get_upcoming_birthdays today book days with
      | Raise e => (Raises (Core e), book)
      | Ok [] => (Returns (lit "No upcoming birthdays."), book)
      | Ok upcoming => (Returns (join [10] (birthday_line <$> upcoming)), book)
      end
  end.

Definition birthdays (today : date) := decorated (birthdays_func today).

Definition parse_input (user_input : pystr)
  : outcome (option pystr * list pystr) :=
  match strip user_input with
  | [] => Returns (None, [])
  | stripped =>
      match split stripped with
      | [] => Raises IndexError
      | cmd :: args => Returns (Some (lower cmd), args)
      end
  end.

(** ** The command loop *)

(** The branches of the loop that call a command or answer on their own:
    what is printed and the book afterwards. *)
Definition dispatch (today : date) (cmd : pystr) (args : list pystr)
    (book : AddressBook) : outcome reply * AddressBook :=
  if bool_decide (cmd = lit "hello") then
    (Returns (Say (lit "How can I help you?")), book)
  else if bool_decide (cmd = lit "add") then add_contact args book
  else if bool_decide (cmd = lit "change") then change_contact args book
  else if bool_decide (cmd = lit "phone") then show_phone args book
  else if bool_decide (cmd = lit "all") then
    (Returns (Say (show_all book)), book)
  else if bool_decide (cmd = lit "add_birthday") then add_birthday args book
  else if bool_decide (cmd = lit "show_birthday") then
    show_birthday args book
  else if bool_decide (cmd = lit "birthdays") then birthdays today args book
  else (Returns (Say (lit "Invalid command.")), book).

(** The loop of [main] on the lines that [input()] will return, each with
    the date of the day it is typed; [out] is what has been printed.  When
    the lines run out [input()] raises EOFError. *)
Fixpoint main_loop (inputs : list (pystr * date)) (book : AddressBook)
    (out : list reply) : outcome AddressBook * list reply :=
  match inputs with
  | [] => (Raises EOFError, out)
  | (user_input, today) :: rest =>
      match parse_input user_input with
      | Raises r => (Raises r, out)
      | Returns (None, _) => main_loop rest book out
      | Returns (Some cmd, args) =>
          if bool_decide (cmd = lit "close") || bool_decide (cmd = lit "exit")
          then (Returns book, out ++ [Say (lit "Good bye!")])
          else
            match dispatch today cmd args book with
            | (Returns r, book') => main_loop rest book' (out ++ [r])
            | (Raises r, _) => (Raises r, out)
            end
      end
  end.


End commands.

End Shell.

(* ===================================================================== *)
(** * Definitions used in the statements and proofs below *)
(* ===================================================================== *)

(** What [month_day] must satisfy at offset [n]: a month in 1..12, a day
    in that month, and the offset recovered. *)
Definition month_day_check (leap : bool) (n : Z) : bool :=
  let '(m, d) := month_day n leap in
  (1 <=? m) && (m <=? 12) && (1 <=? d)
  && (d <=? (if (m =? 2) && leap then 29 else index _DAYS_IN_MONTH m))
  && (index _DAYS_BEFORE_MONTH m + (if (2 <? m) && leap then 1 else 0) + d
      =? n + 1).

(** The two behaviours of the C library's [%Y]. *)
Definition glibc : LibC := {| strftime_Y_zero_fill := false |}.
Definition zero_filling_libc : LibC := {| strftime_Y_zero_fill := true |}.

(** The occurrence of a birthday in year [y] in the words of the
    specification: the same month and day, but Feb 28 for a Feb 29 birthday
    when [y] is not a leap year. *)
Definition occurrence_in_year (bday : date) (y : Z) : date :=
  if (month bday =? 2) && (day bday =? 29) && negb (_is_leap y)
  then mkdate y 2 28
  else mkdate y (month bday) (day bday).

(** A record as [Record(nm)] followed by [add_birthday] leaves it, with the
    stored birthday text [b]. *)
Definition record_with_birthday (nm b : string) : ContactRecord :=
  mkRecord (mkField (lit nm)) [] (Some (mkField (lit b))).

(** The numerals [strptime] reads, in the words of the regular expression.
    A day: one digit 1-9, or 01-09, or 10-29 (the second character any
    decimal digit of Unicode), or 30-31. *)
Inductive day_numeral : pystr -> Z -> Prop :=
| day_1_9 (c : char) :
    49 <= c <= 57 -> day_numeral [c] (c - 48)
| day_01_09 (c : char) :
    49 <= c <= 57 -> day_numeral [48; c] (c - 48)
| day_10_29 (c1 c2 : char) (v : Z) :
    49 <= c1 <= 50 -> decimal_value c2 = Some v ->
    day_numeral [c1; c2] (10 * (c1 - 48) + v)
| day_30_31 (c : char) :
    48 <= c <= 49 -> day_numeral [51; c] (30 + (c - 48)).

(** The expression also lets a space stand for the leading zero. *)
Definition day_token (t : pystr) (n : Z) : Prop :=
  day_numeral t n \/ exists c, 49 <= c <= 57 /\ t = [32; c] /\ n = c - 48.

(** A month: one digit 1-9, or 01-09, or 10-12. *)
Inductive month_numeral : pystr -> Z -> Prop :=
| month_1_9 (c : char) :
    49 <= c <= 57 -> month_numeral [c] (c - 48)
| month_01_09 (c : char) :
    49 <= c <= 57 -> month_numeral [48; c] (c - 48)
| month_10_12 (c : char) :
    48 <= c <= 50 -> month_numeral [49; c] (10 + (c - 48)).

(** A year: exactly four decimal digits. *)
Inductive year_numeral : pystr -> Z -> Prop :=
| year_4_digits (c1 c2 c3 c4 : char) (v1 v2 v3 v4 : Z) :
    decimal_value c1 = Some v1 -> decimal_value c2 = Some v2 ->
    decimal_value c3 = Some v3 -> decimal_value c4 = Some v4 ->
    year_numeral [c1; c2; c3; c4] (1000 * v1 + 100 * v2 + 10 * v3 + v4).

(** The text DD.MM.YYYY of a date: two digits, two digits, four digits. *)
Definition DD_MM_YYYY (d : date) : pystr :=
  two_digits (day d) ++ [46] ++ two_digits (month d) ++ [46]
  ++ four_digits (year d).

(** ** An instance of [Pickle]

    A byte format for address books: numbers on three bytes, sequences
    preceded by their length.  It serves to instantiate the interface. *)
















Definition no_directory_os : OS := {|
  open_wb_raises _ filename :=
    match String.index 0 "/" filename with
    | Some _ => Some FileNotFoundError
    | None => None
    end
|}.

(** A book of two contacts, used in examples. *)
Definition sample_book : AddressBook :=
  [ (lit "Ann",
     mkRecord (mkField (lit "Ann"))
       [mkField (lit "0501234567"); mkField (lit "0671112233")]
       (Some (mkField (lit "03.01.1990"))));
    (lit "Bob",
     mkRecord (mkField (lit "Bob")) [] (Some (mkField (lit "01.01.1985")))) ].

(** Equality of dates, exceptions and results is decidable. *)
#[global] Instance date_eq_dec : EqDecision date.
Proof. solve_decision. Defined.
#[global] Instance message_eq_dec : EqDecision message.
Proof. solve_decision. Defined.
#[global] Instance exn_eq_dec : EqDecision exn.
Proof. solve_decision. Defined.
#[global] Instance result_eq_dec {A} `{EqDecision A} : EqDecision (result A).
Proof. solve_decision. Defined.

(** [a] does not come after [b] in the order [lt]. *)
Definition not_after {A} (lt : A -> A -> bool) (a b : A) : Prop :=
  lt b a = false.

Section upcoming_statements.

Context `{LibC}.

(** Record [r] is due: it has a birthday, and the congratulation date [c]
    computed from it lies [delta] days after [today] with
    [0 <= delta <= days]; [e] is the entry reported for it. *)
Definition due (today : date) (days : Z) (r : ContactRecord) (e : entry)
  : Prop :=
  exists (bd : Field) (bday b c : date),
    birthday r = Some bd
    /\ date_value bd = Ok bday
    /\ birthday_this_year today bday = Ok b
    /\ congrat_date b = Ok c
    /\ 0 <= date_sub_days c today <= days
    /\ e = mkEntry (value (name r)) (strftime c).

(** Record [r] is due and [c] is its congratulation date: the date the
    loop computes for it, [delta] days after [today] with
    [0 <= delta <= days]. *)
Definition congratulated_on (today : date) (days : Z) (r : ContactRecord)
    (c : date) : Prop :=
  exists (bd : Field) (bday b : date),
    birthday r = Some bd
    /\ date_value bd = Ok bday
    /\ birthday_this_year today bday = Ok b
    /\ congrat_date b = Ok c
    /\ 0 <= date_sub_days c today <= days.

(** The entry reported for a record congratulated on [c]. *)
Definition entry_of (rc : ContactRecord * date) : entry :=
  mkEntry (value (name rc.1)) (strftime rc.2).

End upcoming_statements.

(** Every birthday of the book is stored as the text DD.MM.YYYY of a
    date. *)
Definition stored_as_DD_MM_YYYY (book : AddressBook) : Prop :=
  forall (r : ContactRecord) (bd : Field),
    r ∈ values book -> birthday r = Some bd ->
    exists dt, valid_date dt = true /\ value bd = DD_MM_YYYY dt.

(** A book with one birthday on 4 January (a Saturday in 2025) and one on
    6 January: both are congratulated on Monday 06.01.2025. *)
Definition tie_book : AddressBook :=
  [ (lit "Zed", record_with_birthday "Zed" "04.01.1990");
    (lit "Amy", record_with_birthday "Amy" "06.01.1985") ].

(** ** Tactics *)

(** [lia] after the divisions and remainders are replaced by their
    defining equations. *)
Ltac dlia := Z.div_mod_to_equations; lia.

(** Case analysis on a month number known to lie in 1..12. *)
Ltac month_cases m :=
  let E := fresh "E" in
  assert (E : m = 1 \/ m = 2 \/ m = 3 \/ m = 4 \/ m = 5 \/ m = 6 \/ m = 7
              \/ m = 8 \/ m = 9 \/ m = 10 \/ m = 11 \/ m = 12) by lia;
  repeat (destruct E as [E | E]; [subst m | ]); [.. | subst m].

(** Evaluate the month tables and comparisons at literal months. *)
Ltac eval_tables :=
  repeat match goal with
  | |- context [index ?t ?m] =>
      let v := eval vm_compute in (index t m) in
      progress change (index t m) with v
  | |- context [Z.eqb ?a ?b] =>
      let v := eval vm_compute in (Z.eqb a b) in
      match v with true => idtac | false => idtac end;
      progress change (Z.eqb a b) with v
  | |- context [Z.ltb ?a ?b] =>
      let v := eval vm_compute in (Z.ltb a b) in
      match v with true => idtac | false => idtac end;
      progress change (Z.ltb a b) with v
  | |- context [Z.leb ?a ?b] =>
      let v := eval vm_compute in (Z.leb a b) in
      match v with true => idtac | false => idtac end;
      progress change (Z.leb a b) with v
  end;
  cbn [andb orb negb].

(* ===================================================================== *)
(** * Definitions used in the further properties *)
(* ===================================================================== *)

(** The keys of the dict, in the order of iteration. *)
Definition keys (book : AddressBook) : list pystr := fst <$> book.

(** A field that its own constructor accepts and gives back unchanged. *)
Definition name_ok (n : Field) : Prop := Name (value n) = Ok n.
Definition phone_ok (p : Field) : Prop := Phone (value p) = Ok p.

#[global] Instance Field_eq_dec : EqDecision Field.
Proof. solve_decision. Defined.
#[global] Instance ContactRecord_eq_dec : EqDecision ContactRecord.
Proof. solve_decision. Defined.
#[global] Instance entry_eq_dec : EqDecision entry.
Proof. solve_decision. Defined.

(** A stored birthday is the text [strftime] writes for some date. *)
Definition birthday_ok `{LibC} (b : Field) : Prop :=
  exists dt, valid_date dt = true /\ value b = strftime dt.

(** The state of a record that its methods maintain. *)
Definition record_ok `{LibC} (r : ContactRecord) : Prop :=
  name_ok (name r)
  /\ Forall phone_ok (phones r)
  /\ (forall b, birthday r = Some b -> birthday_ok b).

(** A call of one of the methods of [Record] that change it. *)
Inductive record_call :=
| CallAddPhone (phone : pystr)
| CallEditPhone (old_phone new_phone : pystr)
| CallRemovePhone (phone : pystr)
| CallAddBirthday (b : pystr).

Definition run_call `{LibC} (c : record_call) : method unit :=
  match c with
  | CallAddPhone phone => add_phone phone
  | CallEditPhone old_phone new_phone => edit_phone old_phone new_phone
  | CallRemovePhone phone => remove_phone phone
  | CallAddBirthday b => add_birthday b
  end.

(** The calls made one after the other, whether they raise or not. *)
Definition run_calls `{LibC} (cs : list record_call) (r : ContactRecord)
  : ContactRecord :=
  foldl (fun r c => (run_call c r).2) r cs.

(** The state of the book that the commands maintain: the names are
    distinct, every record is stored under its own name, and every record
    is valid. *)
Definition book_ok `{LibC} (book : AddressBook) : Prop :=
  NoDup (keys book)
  /\ Forall (fun kv => kv.1 = value (name kv.2) /\ record_ok kv.2) book.

(** [int(s)] on any text (longobject.c, [PyLong_FromUnicodeObject] in base
    10).  A text that is not all ASCII is first rewritten: whitespace
    becomes a space and a decimal digit of any script its ASCII digit; the
    first character that is neither ends the text with a question mark. *)
Fixpoint transform_decimal_and_space (s : pystr) : pystr :=
  match s with
  | [] => []
  | c :: s' =>
      if c <? 127 then c :: transform_decimal_and_space s'
      else if isspace_char c then 32 :: transform_decimal_and_space s'
      else match decimal_value c with
           | Some d => (48 + d) :: transform_decimal_and_space s'
           | None => [63]
           end
  end.

(** [Py_ISSPACE]: the whitespace of the C locale. *)
Definition c_isspace (c : char) : bool :=
  ((9 <=? c) && (c <=? 13)) || (c =? 32).

Fixpoint skip_c_space (s : pystr) : pystr :=
  match s with
  | c :: s' => if c_isspace c then skip_c_space s' else s
  | [] => []
  end.

(** The digits of the number, single underscores allowed between them:
    the value, the number of digits and the text left, or [None] for two
    underscores in a row.  [prev] is the character before. *)
Fixpoint scan_digits (prev : char) (acc : Z) (digits : nat) (s : pystr)
  : option (Z * nat * char * pystr) :=
  match s with
  | c :: s' =>
      if c =? 95 then
        if prev =? 95 then None else scan_digits c acc digits s'
      else if is_ascii_digit c then
        scan_digits c (10 * acc + (c - 48)) (S digits) s'
      else Some (acc, digits, prev, s)
  | [] => Some (acc, digits, prev, [])
  end.

(** The limit on the digits of a number read from a text
    ([sys.get_int_max_str_digits()]). *)
Definition int_max_str_digits : nat := 4300.

Definition python_int (s : pystr) : option Z :=
  let a := if forallb Shell.is_ascii s then s
           else transform_decimal_and_space s in
  let a := skip_c_space a in
  let '(negative, a) :=
    match a with
    | 43 :: r => (false, r)
    | 45 :: r => (true, r)
    | _ => (false, a)
    end in
  match a with
  | 95 :: _ => None
  | _ =>
      match scan_digits 0 0 O a with
      | None => None
      | Some (v, digits, prev, rest) =>
          if (prev =? 95) || Nat.eqb digits O
             || Nat.ltb int_max_str_digits digits
             || negb (bool_decide (skip_c_space rest = []))
          then None
          else Some (if negative then - v else v)
      end
  end.

(** An instance of the built-ins for the examples: [int] as above;
    [lower] leaves a text that is not all ASCII as it is (the examples
    lower ASCII texts only, for which the field is not consulted). *)
Definition ascii_builtins : Shell.Builtins := {|
  Shell.lower_other := fun s => s;
  Shell.int_other := python_int
|}.

(** How one command can change the book: not at all, by a method called
    on a record of the book, or by a new record put in, with or without a
    method called on it afterwards. *)
Definition book_step `{LibC} (book book' : AddressBook) : Prop :=
  book' = book
  \/ (exists nm r c,
        find book nm = Some r /\ book' = dict_set book nm (run_call c r).2)
  \/ (exists nm r0,
        Record_init nm = Ok r0
        /\ (book' = add_record book r0
            \/ exists c,
                 book' = dict_set (add_record book r0) (value (name r0))
                           (run_call c r0).2)).


(** The window that [birthdays] asks for: 7 without argument, else the
    number its first argument writes ([None] when [int] refuses it). *)
Definition window_of `{Shell.Builtins} (args : list pystr) : option Z :=
  match args with
  | [] => Some 7
  | a :: _ => Shell.int_str a
  end.
(** * Facts about the calendar *)

Lemma is_leap_cycle (n400 n100 n4 n1 : Z) :
  0 <= n100 <= 3 -> 0 <= n4 <= 24 -> 0 <= n1 <= 3 ->
  _is_leap (n400 * 400 + 1 + (n100 * 100 + n4 * 4 + n1))
  = (n1 =? 3) && (negb (n4 =? 24) || (n100 =? 3)).
Proof.
  intros H100 H4 H1. unfold _is_leap.
  set (y := n400 * 400 + 1 + (n100 * 100 + n4 * 4 + n1)).
  assert (E4 : y mod 4 = (1 + n1) mod 4).
  { unfold y. replace (n400 * 400 + 1 + (n100 * 100 + n4 * 4 + n1))
      with (1 + n1 + (n400 * 100 + n100 * 25 + n4) * 4) by ring.
    apply Z.mod_add. lia. }
  assert (E100 : y mod 100 = (1 + n1 + n4 * 4) mod 100).
  { unfold y. replace (n400 * 400 + 1 + (n100 * 100 + n4 * 4 + n1))
      with (1 + n1 + n4 * 4 + (n400 * 4 + n100) * 100) by ring.
    apply Z.mod_add. lia. }
  assert (E400 : y mod 400 = (1 + n1 + n4 * 4 + n100 * 100) mod 400).
  { unfold y. replace (n400 * 400 + 1 + (n100 * 100 + n4 * 4 + n1))
      with (1 + n1 + n4 * 4 + n100 * 100 + n400 * 400) by ring.
    apply Z.mod_add. lia. }
  rewrite E4, E100, E400.
  destruct (Z.eqb_spec ((1 + n1) mod 4) 0), (Z.eqb_spec n1 3),
    (Z.eqb_spec ((1 + n1 + n4 * 4) mod 100) 0), (Z.eqb_spec n4 24),
    (Z.eqb_spec ((1 + n1 + n4 * 4 + n100 * 100) mod 400) 0),
    (Z.eqb_spec n100 3); simpl; try reflexivity; exfalso; dlia.
Qed.

Lemma days_before_year_cycle (n400 n100 n4 n1 : Z) :
  0 <= n400 -> 0 <= n100 <= 3 -> 0 <= n4 <= 24 -> 0 <= n1 <= 3 ->
  _days_before_year (n400 * 400 + 1 + (n100 * 100 + n4 * 4 + n1))
  = n400 * 146097 + n100 * 36524 + n4 * 1461 + n1 * 365.
Proof. intros. unfold _days_before_year. dlia. Qed.

Lemma days_before_year_succ (y : Z) :
  _days_before_year (y + 1)
  = _days_before_year y + 365 + (if _is_leap y then 1 else 0).
Proof.
  unfold _days_before_year, _is_leap.
  destruct (Z.eqb_spec (y mod 4) 0), (Z.eqb_spec (y mod 100) 0),
    (Z.eqb_spec (y mod 400) 0); simpl; dlia.
Qed.

Lemma days_before_year_mono (y y' : Z) :
  y <= y' -> _days_before_year y <= _days_before_year y'.
Proof. unfold _days_before_year. intros. dlia. Qed.

(** The month and the day of [_ord2ymd], as a function of the offset in
    the year and of the leap flag. *)
Lemma ord2ymd_unfold (n : Z) :
  _ord2ymd n =
  let n0 := n - 1 in
  let n400 := n0 / 146097 in
  let r400 := n0 mod 146097 in
  let n100 := r400 / 36524 in
  let r100 := r400 mod 36524 in
  let n4 := r100 / 1461 in
  let r4 := r100 mod 1461 in
  let n1 := r4 / 365 in
  let r1 := r4 mod 365 in
  let y := n400 * 400 + 1 + (n100 * 100 + n4 * 4 + n1) in
  if (n1 =? 4) || (n100 =? 4) then (y - 1, 12, 31)
  else
    let '(m, d) := month_day r1 ((n1 =? 3) && (negb (n4 =? 24) || (n100 =? 3)))
    in (y, m, d).
Proof.
  unfold _ord2ymd, month_day.
  change _DI400Y with 146097. change _DI100Y with 36524.
  change _DI4Y with 1461. cbv zeta.
  repeat match goal with |- context [if ?b then _ else _] =>
    destruct b; try reflexivity end.
Qed.

Lemma month_day_checked (leap : bool) :
  forallb (month_day_check leap) (seqZ 0 365) = true.
Proof. destruct leap; vm_compute; reflexivity. Qed.

Lemma month_day_ok (leap : bool) (n : Z) :
  0 <= n < 365 ->
  month_day_check leap n = true.
Proof.
  intros Hn. pose proof (month_day_checked leap) as Hall.
  rewrite forallb_forall in Hall. apply Hall.
  apply list_elem_of_In, elem_of_seqZ. lia.
Qed.

Lemma ord2ymd_spec (n : Z) :
  1 <= n <= _MAXORDINAL ->
  let '(y, m, d) := _ord2ymd n in
  (1 <= y <= 9999) /\ (1 <= m <= 12) /\ (1 <= d <= _days_in_month y m)
  /\ _ymd2ord y m d = n.
Proof.
  unfold _MAXORDINAL. intros Hn. rewrite ord2ymd_unfold. cbv zeta.
  set (n0 := n - 1).
  set (n400 := n0 / 146097). set (r400 := n0 mod 146097).
  set (n100 := r400 / 36524). set (r100 := r400 mod 36524).
  set (n4 := r100 / 1461). set (r4 := r100 mod 1461).
  set (n1 := r4 / 365). set (r1 := r4 mod 365).
  assert (H400 : 0 <= n400 <= 24) by (unfold n400, n0; dlia).
  assert (Hr400 : 0 <= r400 < 146097 /\ n0 = n400 * 146097 + r400)
    by (unfold r400, n400; dlia).
  assert (H100 : 0 <= n100 <= 4) by (unfold n100; dlia).
  assert (Hr100 : 0 <= r100 < 36524 /\ r400 = n100 * 36524 + r100)
    by (unfold r100, n100; dlia).
  assert (H4 : 0 <= n4 <= 24) by (unfold n4; dlia).
  assert (Hr4 : 0 <= r4 < 1461 /\ r100 = n4 * 1461 + r4)
    by (unfold r4, n4; dlia).
  assert (H1 : 0 <= n1 <= 4) by (unfold n1; dlia).
  assert (Hr1 : 0 <= r1 < 365 /\ r4 = n1 * 365 + r1)
    by (unfold r1, n1; dlia).
  assert (Hn0 : n = n0 + 1) by (unfold n0; lia).
  clearbody n0 n400 r400 n100 r100 n4 r4 n1 r1.
  assert (Hlast : n400 = 24 -> n100 * 100 + n4 * 4 + n1 <= 399) by lia.
  destruct ((n1 =? 4) || (n100 =? 4)) eqn:Edge.
  - (* the last day of a 4-year or 400-year cycle *)
    assert (Hy : (n100 = 4 /\ n4 = 0 /\ n1 = 0 /\ r1 = 0)
                 \/ (n100 <= 3 /\ n1 = 4 /\ r1 = 0)) by lia.
    replace (n400 * 400 + 1 + (n100 * 100 + n4 * 4 + n1) - 1)
      with (n400 * 400 + 1 + (n100 * 100 + n4 * 4 + n1 - 1)) by ring.
    destruct Hy as [(-> & -> & -> & ->) | (Hle & -> & ->)].
    + replace (n400 * 400 + 1 + (4 * 100 + 0 * 4 + 0 - 1))
        with (n400 * 400 + 1 + (3 * 100 + 24 * 4 + 3)) by ring.
      unfold _days_in_month, _ymd2ord, _days_before_month.
      rewrite is_leap_cycle, days_before_year_cycle by lia.
      eval_tables. lia.
    + replace (n400 * 400 + 1 + (n100 * 100 + n4 * 4 + 4 - 1))
        with (n400 * 400 + 1 + (n100 * 100 + n4 * 4 + 3)) by ring.
      unfold _days_in_month, _ymd2ord, _days_before_month.
      rewrite is_leap_cycle, days_before_year_cycle by lia.
      eval_tables.
      destruct (negb (n4 =? 24) || (n100 =? 3)) eqn:Eleap.
      * lia.
      * exfalso. lia.
  - assert (H100' : 0 <= n100 <= 3) by lia.
    assert (H1' : 0 <= n1 <= 3) by lia.
    set (leap := (n1 =? 3) && (negb (n4 =? 24) || (n100 =? 3))).
    pose proof (month_day_ok leap r1 (proj1 Hr1)) as Hmd.
    unfold month_day_check in Hmd.
    destruct (month_day r1 leap) as [m d].
    unfold _days_in_month, _ymd2ord, _days_before_month.
    rewrite is_leap_cycle, days_before_year_cycle by lia.
    fold leap.
    repeat (apply andb_prop in Hmd; destruct Hmd as [Hmd ?]).
    repeat split; lia.
Qed.

(** ** The [date] constructor and the invariant of its objects *)

Lemma valid_date_iff (dt : date) :
  valid_date dt = true <->
  1 <= year dt <= 9999 /\ 1 <= month dt <= 12
  /\ 1 <= day dt <= _days_in_month (year dt) (month dt).
Proof. unfold valid_date, MINYEAR, MAXYEAR. lia. Qed.

Lemma date_new_valid (y m d : Z) :
  valid_date (mkdate y m d) = true -> date_new y m d = Ok (mkdate y m d).
Proof.
  rewrite valid_date_iff. cbn [year month day]. intros (Hy & Hm & Hd).
  unfold date_new, _check_date_fields, MINYEAR, MAXYEAR.
  replace ((1 <=? y) && (y <=? 9999)) with true by lia.
  replace ((1 <=? m) && (m <=? 12)) with true by lia.
  replace ((1 <=? d) && (d <=? _days_in_month y m)) with true by lia.
  reflexivity.
Qed.

Lemma date_new_inv (y m d : Z) (dt : date) :
  date_new y m d = Ok dt -> dt = mkdate y m d /\ valid_date dt = true.
Proof.
  unfold date_new, _check_date_fields, MINYEAR, MAXYEAR.
  destruct ((1 <=? y) && (y <=? 9999)) eqn:Ey; [ | discriminate].
  destruct ((1 <=? m) && (m <=? 12)) eqn:Em; [ | discriminate].
  destruct ((1 <=? d) && (d <=? _days_in_month y m)) eqn:Ed;
    [ | discriminate].
  cbn. intros [= <-]. split; [reflexivity | ].
  apply valid_date_iff. cbn [year month day]. lia.
Qed.

Lemma date_new_raises (y m d : Z) (e : exn) :
  date_new y m d = Raise e -> is_ValueError e = true.
Proof.
  unfold date_new, _check_date_fields.
  repeat match goal with |- context [if ?b then _ else _] => destruct b end;
    cbn; intros [= <-]; reflexivity.
Qed.

Lemma days_in_month_bounds (y m : Z) :
  1 <= m <= 12 -> 28 <= _days_in_month y m <= 31.
Proof.
  intros Hm. unfold _days_in_month.
  month_cases m; destruct (_is_leap y); eval_tables; lia.
Qed.

(** The day of the year of a date lies within its year. *)
Lemma day_of_year_bounds (y m d : Z) :
  1 <= m <= 12 -> 1 <= d <= _days_in_month y m ->
  1 <= _days_before_month y m + d <= 365 + (if _is_leap y then 1 else 0).
Proof.
  intros Hm. unfold _days_in_month, _days_before_month.
  month_cases m; destruct (_is_leap y); eval_tables; lia.
Qed.

Lemma toordinal_in_year (dt : date) :
  valid_date dt = true ->
  _days_before_year (year dt) < toordinal dt
  <= _days_before_year (year dt + 1).
Proof.
  rewrite valid_date_iff. intros (Hy & Hm & Hd).
  pose proof (day_of_year_bounds _ _ _ Hm Hd).
  rewrite days_before_year_succ. unfold toordinal, _ymd2ord. lia.
Qed.

Lemma toordinal_bounds (dt : date) :
  valid_date dt = true -> 1 <= toordinal dt <= _MAXORDINAL.
Proof.
  intros Hv. pose proof (toordinal_in_year dt Hv) as Hin.
  apply valid_date_iff in Hv. destruct Hv as (Hy & _).
  pose proof (days_before_year_mono 1 (year dt) ltac:(lia)) as Hlo.
  pose proof (days_before_year_mono (year dt + 1) 10000 ltac:(lia)) as Hhi.
  change (_days_before_year 1) with 0 in Hlo.
  change (_days_before_year 10000) with 3652059 in Hhi.
  unfold _MAXORDINAL. lia.
Qed.

(** A date of an earlier year has a smaller ordinal. *)
Lemma toordinal_year_mono (a b : date) :
  valid_date a = true -> valid_date b = true ->
  toordinal a <= toordinal b -> year a <= year b.
Proof.
  intros Ha Hb Hle.
  pose proof (toordinal_in_year a Ha). pose proof (toordinal_in_year b Hb).
  destruct (Z_le_gt_dec (year a) (year b)) as [ | Hgt]; [assumption | ].
  pose proof (days_before_year_mono (year b + 1) (year a) ltac:(lia)). lia.
Qed.

Lemma fromordinal_ok (n : Z) :
  1 <= n <= _MAXORDINAL ->
  exists dt, fromordinal n = Ok dt /\ valid_date dt = true
             /\ toordinal dt = n.
Proof.
  intros Hn. pose proof (ord2ymd_spec n Hn) as Hspec.
  unfold fromordinal. destruct (_ord2ymd n) as [[y m] d].
  destruct Hspec as (Hy & Hm & Hd & Hord).
  assert (Hv : valid_date (mkdate y m d) = true)
    by (apply valid_date_iff; cbn [year month day]; lia).
  exists (mkdate y m d). rewrite (date_new_valid _ _ _ Hv).
  repeat split; assumption.
Qed.

Lemma date_add_ok (dt : date) (k : Z) :
  1 <= toordinal dt + k <= _MAXORDINAL ->
  exists c, date_add dt k = Ok c /\ valid_date c = true
            /\ toordinal c = toordinal dt + k.
Proof.
  intros Hk. unfold date_add.
  replace ((0 <? toordinal dt + k) && (toordinal dt + k <=? _MAXORDINAL))
    with true by lia.
  apply fromordinal_ok, Hk.
Qed.

Lemma weekday_range (dt : date) : 0 <= weekday dt <= 6.
Proof. unfold weekday. dlia. Qed.

(** ** The order of dates is the order of their ordinals *)

Lemma days_before_month_step (y m m' : Z) :
  1 <= m -> m < m' -> m' <= 12 ->
  _days_before_month y m + _days_in_month y m <= _days_before_month y m'.
Proof.
  intros H1 Hlt H12. unfold _days_in_month, _days_before_month.
  assert (Hm : 1 <= m <= 12) by lia.
  month_cases m; (assert (Hm' : 1 <= m' <= 12) by lia);
    month_cases m'; try lia;
    destruct (_is_leap y); eval_tables; lia.
Qed.

Lemma date_ltb_toordinal (a b : date) :
  valid_date a = true -> valid_date b = true ->
  date_ltb a b = true -> toordinal a < toordinal b.
Proof.
  intros Ha Hb Hlt.
  pose proof (toordinal_in_year a Ha) as Hya.
  pose proof (toordinal_in_year b Hb) as Hyb.
  apply valid_date_iff in Ha. apply valid_date_iff in Hb.
  destruct Ha as (_ & Hma & Hda). destruct Hb as (_ & Hmb & Hdb).
  unfold date_ltb in Hlt.
  destruct (Z.ltb_spec (year a) (year b)) as [Hy | Hy].
  - pose proof (days_before_year_mono (year a + 1) (year b) ltac:(lia)).
    lia.
  - assert (Ey : year a = year b) by lia.
    unfold toordinal, _ymd2ord. rewrite Ey in *.
    destruct (Z.ltb_spec (month a) (month b)) as [Hm | Hm].
    + pose proof (days_before_month_step (year b) (month a) (month b)
                    ltac:(lia) Hm ltac:(lia)). lia.
    + assert (Em : month a = month b) by lia. rewrite Em. lia.
Qed.

Lemma date_ltb_total (a b : date) :
  date_ltb a b = false -> a = b \/ date_ltb b a = true.
Proof.
  destruct a as [ya ma da], b as [yb mb db]. unfold date_ltb.
  cbn [year month day]. intros Hnlt.
  destruct (decide (ya = yb /\ ma = mb /\ da = db)) as [(-> & -> & ->) | Hne].
  - left; reflexivity.
  - right. lia.
Qed.

Lemma date_ltb_chronological (a b : date) :
  valid_date a = true -> valid_date b = true ->
  date_ltb a b = true <-> toordinal a < toordinal b.
Proof.
  intros Ha Hb. split; [apply date_ltb_toordinal; assumption | ].
  intros Hlt. destruct (date_ltb a b) eqn:E; [reflexivity | ].
  destruct (date_ltb_total a b E) as [-> | Hba]; [lia | ].
  pose proof (date_ltb_toordinal b a Hb Ha Hba). lia.
Qed.

(* ===================================================================== *)
(** * The occurrence of a birthday and its congratulation date *)
(* ===================================================================== *)

Lemma safe_birthday_in_range (bday : date) (y : Z) :
  valid_date bday = true -> 1 <= y <= 9999 ->
  _safe_birthday_for_year bday y = Ok (occurrence_in_year bday y)
  /\ valid_date (occurrence_in_year bday y) = true.
Proof.
  intros Hb Hy. apply valid_date_iff in Hb. destruct Hb as (_ & Hm & Hd).
  unfold _safe_birthday_for_year, replace_year, occurrence_in_year.
  destruct ((month bday =? 2) && (day bday =? 29) && negb (_is_leap y))
    eqn:Efeb.
  - assert (Em : month bday = 2) by lia.
    assert (Ed : day bday = 29) by lia.
    assert (El : _is_leap y = false) by (destruct (_is_leap y); [ | reflexivity];
      cbn in Efeb; lia).
    rewrite Em, Ed. unfold date_new, _check_date_fields, MINYEAR, MAXYEAR.
    replace ((1 <=? y) && (y <=? 9999)) with true by lia.
    unfold _days_in_month. rewrite El. eval_tables. cbn [try_except bind].
    replace ((1 <=? y) && (y <=? 9999)) with true by lia.
    split; [reflexivity | ].
    apply valid_date_iff. cbn [year month day]. unfold _days_in_month.
    rewrite El. eval_tables. lia.
  - assert (Hv : valid_date (mkdate y (month bday) (day bday)) = true).
    { apply valid_date_iff. cbn [year month day]. split; [lia | ].
      split; [lia | ]. revert Hm Hd Efeb. unfold _days_in_month.
      generalize (month bday) (day bday). intros m d Hm.
      month_cases m; destruct (_is_leap (year bday));
        destruct (_is_leap y); eval_tables; lia. }
    rewrite (date_new_valid _ _ _ Hv). cbn. split; [reflexivity | exact Hv].
Qed.

Lemma safe_birthday_out_of_range (bday : date) (y : Z) :
  ~ (1 <= y <= 9999) ->
  _safe_birthday_for_year bday y = Raise (ValueError MsgYearRange).
Proof.
  intros Hy. unfold _safe_birthday_for_year, replace_year, date_new,
    _check_date_fields, MINYEAR, MAXYEAR.
  replace ((1 <=? y) && (y <=? 9999)) with false by lia. reflexivity.
Qed.

Lemma occurrence_in_year_year (bday : date) (y : Z) :
  year (occurrence_in_year bday y) = y.
Proof. unfold occurrence_in_year. destruct (_ && _); reflexivity. Qed.

(** Whenever the occurrence is computed it is a date of this year or of
    the next. *)
Lemma birthday_this_year_inv (today bday b : date) :
  valid_date today = true -> valid_date bday = true ->
  birthday_this_year today bday = Ok b ->
  valid_date b = true /\ year today <= year b.
Proof.
  intros Ht Hb. assert (Hy : 1 <= year today <= 9999)
    by (apply valid_date_iff in Ht; lia).
  destruct (safe_birthday_in_range bday (year today) Hb Hy) as [Hsafe Hv].
  unfold birthday_this_year. rewrite Hsafe. cbn [bind].
  destruct (date_ltb (occurrence_in_year bday (year today)) today).
  - destruct (Z_lt_le_dec (year today) 9999) as [Hlt | Hge].
    + destruct (safe_birthday_in_range bday (year today + 1) Hb ltac:(lia))
        as [-> Hv'].
      intros [= <-]. split; [exact Hv' | ].
      rewrite occurrence_in_year_year. lia.
    + rewrite safe_birthday_out_of_range by lia. discriminate.
  - intros [= <-]. split; [exact Hv | ].
    rewrite occurrence_in_year_year. lia.
Qed.

Lemma birthday_this_year_ok (today bday : date) :
  valid_date today = true -> valid_date bday = true ->
  year today < 9999 ->
  exists b, birthday_this_year today bday = Ok b.
Proof.
  intros Ht Hb Hlast. assert (Hy : 1 <= year today <= 9999)
    by (apply valid_date_iff in Ht; lia).
  destruct (safe_birthday_in_range bday (year today) Hb Hy) as [Hsafe _].
  unfold birthday_this_year. rewrite Hsafe. cbn [bind].
  destruct (date_ltb _ today); [ | eauto].
  destruct (safe_birthday_in_range bday (year today + 1) Hb ltac:(lia))
    as [-> _]. eauto.
Qed.

(** C1.  A Feb 29 birthday taken to a target year that is not a leap year
    (the year of [today] or the next one) gives Feb 28 of that year and
    does not raise; a record with birthday 29.02.2000 is reported on
    28.02.2023 with a window of 7 days, on 28.02.2023. *)
Theorem leap_day_birthday_falls_back_to_feb_28 :
  (forall (bday today : date) (y : Z),
     valid_date today = true ->
     month bday = 2 -> day bday = 29 ->
     y = year today \/ y = year today + 1 ->
     _is_leap y = false ->
     _safe_birthday_for_year bday y = Ok (mkdate y 2 28))
  /\ (forall (libc : LibC) (k : pystr) (r : ContactRecord),
        birthday r = Some (mkField (lit "29.02.2000")) ->
        get_upcoming_birthdays (mkdate 2023 2 28) [(k, r)] 7
        = Ok [mkEntry (value (name r)) (lit "28.02.2023")]).
Proof.
  split.
  - intros bday today y Hv Hm Hd Hy Hleap.
    apply valid_date_iff in Hv. destruct Hv as (Hyr & _).
    assert (Hrange : 1 <= y <= 9999).
    { destruct (Z.eq_dec y 10000) as [-> | ]; [discriminate Hleap | lia]. }
    unfold _safe_birthday_for_year, replace_year. rewrite Hm, Hd.
    unfold date_new, _check_date_fields, MINYEAR, MAXYEAR.
    replace ((1 <=? y) && (y <=? 9999)) with true by lia.
    unfold _days_in_month. rewrite Hleap. reflexivity.
  - intros [[]] k [nm ps bd]; cbn [birthday name]; intros ->;
      vm_compute; reflexivity.
Qed.

Lemma leap_day_birthday_falls_back_to_feb_28_witness :
  _safe_birthday_for_year (mkdate 2000 2 29) 2023 = Ok (mkdate 2023 2 28).
Proof.
  apply (proj1 leap_day_birthday_falls_back_to_feb_28
           (mkdate 2000 2 29) (mkdate 2023 2 28) 2023).
  - reflexivity.
  - reflexivity.
  - reflexivity.
  - left; reflexivity.
  - reflexivity.
Defined.

(** C2.  The occurrence in the year of [today] always exists; when it lies
    strictly before [today] the occurrence is computed again for the next
    year, by the same function, and otherwise it is kept. *)
Theorem occurrence_moves_to_next_year_only_when_passed
    (today bday : date) :
  valid_date today = true -> valid_date bday = true ->
  let this_year := occurrence_in_year bday (year today) in
  _safe_birthday_for_year bday (year today) = Ok this_year
  /\ (toordinal this_year < toordinal today ->
      birthday_this_year today bday
      = _safe_birthday_for_year bday (year today + 1)
      /\ (year today < 9999 ->
          birthday_this_year today bday
          = Ok (occurrence_in_year bday (year today + 1))))
  /\ (toordinal today <= toordinal this_year ->
      birthday_this_year today bday = Ok this_year).
Proof.
  intros Ht Hb this_year.
  assert (Hy : 1 <= year today <= 9999)
    by (apply valid_date_iff in Ht; lia).
  destruct (safe_birthday_in_range bday (year today) Hb Hy) as [Hsafe Hv].
  fold this_year in Hsafe, Hv.
  split; [exact Hsafe | ].
  unfold birthday_this_year. rewrite Hsafe. cbn [bind].
  split.
  - intros Hlt. apply (date_ltb_chronological _ _ Hv Ht) in Hlt.
    rewrite Hlt. split; [reflexivity | ].
    intros Hlast.
    apply (safe_birthday_in_range bday (year today + 1) Hb). lia.
  - intros Hge. destruct (date_ltb this_year today) eqn:E; [ | reflexivity].
    apply (date_ltb_chronological _ _ Hv Ht) in E. lia.
Qed.

Lemma occurrence_moves_to_next_year_only_when_passed_witness :
  _safe_birthday_for_year (mkdate 2000 2 29) 2023 = Ok (mkdate 2023 2 28)
  /\ birthday_this_year (mkdate 2023 3 1) (mkdate 2000 2 29)
     = Ok (mkdate 2024 2 29)
  /\ birthday_this_year (mkdate 2023 2 28) (mkdate 2000 2 29)
     = Ok (mkdate 2023 2 28).
Proof.
  split; [ | split].
  - exact (proj1 (occurrence_moves_to_next_year_only_when_passed
                    (mkdate 2023 3 1) (mkdate 2000 2 29) eq_refl eq_refl)).
  - apply (occurrence_moves_to_next_year_only_when_passed
             (mkdate 2023 3 1) (mkdate 2000 2 29) eq_refl eq_refl);
      vm_compute; reflexivity.
  - apply (occurrence_moves_to_next_year_only_when_passed
             (mkdate 2023 2 28) (mkdate 2000 2 29) eq_refl eq_refl).
    vm_compute. discriminate.
Defined.

Lemma congrat_date_cases (b : date) :
  valid_date b = true ->
  (weekday b = 5 ->
   exists c, congrat_date b = Ok c /\ valid_date c = true
             /\ toordinal c = toordinal b + 2 /\ weekday c = 0)
  /\ (weekday b = 6 ->
      exists c, congrat_date b = Ok c /\ valid_date c = true
                /\ toordinal c = toordinal b + 1 /\ weekday c = 0)
  /\ (weekday b <> 5 -> weekday b <> 6 -> congrat_date b = Ok b).
Proof.
  intros Hv. pose proof (toordinal_bounds b Hv) as Hb.
  unfold _MAXORDINAL in Hb.
  unfold congrat_date. split; [ | split].
  - intros Hsat. rewrite Hsat. cbn [Z.eqb Pos.eqb].
    destruct (date_add_ok b 2) as (c & Hc & Hvc & Hoc).
    { unfold _MAXORDINAL. unfold weekday in Hsat. dlia. }
    exists c. repeat split; try assumption.
    unfold weekday in *. rewrite Hoc. dlia.
  - intros Hsun. rewrite Hsun. cbn [Z.eqb Pos.eqb].
    destruct (date_add_ok b 1) as (c & Hc & Hvc & Hoc).
    { unfold _MAXORDINAL. unfold weekday in Hsun. dlia. }
    exists c. repeat split; try assumption.
    unfold weekday in *. rewrite Hoc. dlia.
  - intros H5 H6.
    destruct (Z.eqb_spec (weekday b) 5); [contradiction | ].
    destruct (Z.eqb_spec (weekday b) 6); [contradiction | ].
    reflexivity.
Qed.

(** The congratulation date always exists, is a date, and is the
    occurrence or a later day. *)
Lemma congrat_date_ok (b : date) :
  valid_date b = true ->
  exists c, congrat_date b = Ok c /\ valid_date c = true
            /\ toordinal b <= toordinal c.
Proof.
  intros Hv. destruct (congrat_date_cases b Hv) as (Hsat & Hsun & Hweek).
  destruct (Z.eq_dec (weekday b) 5) as [E5 | N5];
    [ | destruct (Z.eq_dec (weekday b) 6) as [E6 | N6]].
  - destruct (Hsat E5) as (c & Hc & Hvc & Ho & _). exists c.
    repeat split; [assumption.. | lia].
  - destruct (Hsun E6) as (c & Hc & Hvc & Ho & _). exists c.
    repeat split; [assumption.. | lia].
  - exists b. rewrite (Hweek N5 N6). repeat split; [assumption | lia].
Qed.

(** C3.  The congratulation date is the occurrence moved two days on when
    the occurrence is a Saturday (weekday 5), one day on when it is a Sunday
    (weekday 6), in both cases to the Monday (weekday 0) that follows, and
    the occurrence itself on the other five days; the shift never leaves the
    range of dates.  A birthday on Saturday 04.01.2025 is congratulated on
    Monday 06.01.2025, five days after 01.01.2025: reported with a window of
    7 days, left out with a window of 4. *)
Theorem congratulation_date_skips_the_weekend :
  (forall b : date,
     valid_date b = true ->
     0 <= weekday b <= 6
     /\ (weekday b = 5 ->
         exists c, congrat_date b = Ok c /\ valid_date c = true
                   /\ toordinal c = toordinal b + 2 /\ weekday c = 0)
     /\ (weekday b = 6 ->
         exists c, congrat_date b = Ok c /\ valid_date c = true
                   /\ toordinal c = toordinal b + 1 /\ weekday c = 0)
     /\ (weekday b <> 5 -> weekday b <> 6 -> congrat_date b = Ok b))
  /\ (forall (libc : LibC) (k : pystr) (r : ContactRecord),
        birthday r = Some (mkField (lit "04.01.1990")) ->
        weekday (mkdate 2025 1 4) = 5
        /\ get_upcoming_birthdays (mkdate 2025 1 1) [(k, r)] 7
           = Ok [mkEntry (value (name r)) (lit "06.01.2025")]
        /\ get_upcoming_birthdays (mkdate 2025 1 1) [(k, r)] 4 = Ok []).
Proof.
  split; [ | intros [[]] k [nm ps bd]; cbn [birthday name]; intros ->;
             vm_compute; repeat split].
  intros b Hv. split; [apply weekday_range | ].
  apply congrat_date_cases, Hv.
Qed.

Lemma congratulation_date_skips_the_weekend_witness :
  exists c, congrat_date (mkdate 2025 1 4) = Ok c /\ valid_date c = true
            /\ toordinal c = toordinal (mkdate 2025 1 4) + 2
            /\ weekday c = 0.
Proof.
  apply (proj1 congratulation_date_skips_the_weekend (mkdate 2025 1 4)
           eq_refl).
  reflexivity.
Defined.

(* ===================================================================== *)
(** * Strings: trimming, digits, numerals *)
(* ===================================================================== *)

Lemma lstrip_head (s : pystr) (c : char) (r : pystr) :
  lstrip s = c :: r -> isspace_char c = false.
Proof.
  induction s as [ | a s IH]; cbn; [discriminate | ].
  destruct (isspace_char a) eqn:Ea; [exact IH | ].
  intros [= <- _]. exact Ea.
Qed.

Lemma lstrip_snoc (l : pystr) (c : char) :
  isspace_char c = false -> lstrip (l ++ [c]) = lstrip l ++ [c].
Proof.
  intros Hc. induction l as [ | a l IH]; cbn.
  - rewrite Hc. reflexivity.
  - destruct (isspace_char a); [exact IH | reflexivity].
Qed.

Lemma rstrip_cons (c : char) (r : pystr) :
  isspace_char c = false -> rstrip (c :: r) = c :: rstrip r.
Proof.
  intros Hc. unfold rstrip.
  replace (rev (c :: r)) with (rev r ++ [c]) by reflexivity.
  rewrite (lstrip_snoc _ _ Hc), rev_app_distr. reflexivity.
Qed.

(** Trimming leaves no whitespace in front. *)
Lemma strip_head (s : pystr) (c : char) (r : pystr) :
  strip s = c :: r -> isspace_char c = false.
Proof.
  unfold strip. destruct (lstrip s) as [ | a t] eqn:El.
  - cbn. discriminate.
  - pose proof (lstrip_head _ _ _ El) as Ha.
    rewrite (rstrip_cons _ _ Ha). intros [= <- _]. exact Ha.
Qed.

Lemma lstrip_no_space (s : pystr) :
  Forall (fun c => isspace_char c = false) s -> lstrip s = s.
Proof. intros Hs. destruct Hs as [ | c s Hc _]; cbn; [ | rewrite Hc]; reflexivity. Qed.

(** A string without whitespace is its own trimming. *)
Lemma strip_no_space (s : pystr) :
  Forall (fun c => isspace_char c = false) s -> strip s = s.
Proof.
  intros Hs. unfold strip. rewrite (lstrip_no_space s Hs).
  induction Hs as [ | c s Hc Hs IH]; [reflexivity | ].
  rewrite (rstrip_cons _ _ Hc), IH. reflexivity.
Qed.

Lemma isspace_char_cases (c : char) :
  isspace_char c = true ->
  In c [9; 10; 11; 12; 13; 28; 29; 30; 31; 32; 133; 160; 5760; 8192; 8193;
        8194; 8195; 8196; 8197; 8198; 8199; 8200; 8201; 8202; 8232; 8233;
        8239; 8287; 12288].
Proof.
  unfold isspace_char, in_ranges, whitespace_ranges.
  cbn [existsb fst snd In]. lia.
Qed.

Lemma isdigit_not_space (c : char) :
  isdigit_char c = true -> isspace_char c = false.
Proof.
  intros Hd. destruct (isspace_char c) eqn:Es; [ | reflexivity].
  apply isspace_char_cases in Es. cbn [In] in Es.
  repeat (destruct Es as [<- | Es]; [vm_compute in Hd; discriminate | ]).
  contradiction.
Qed.

Lemma isdecimal_isdigit (c : char) :
  isdecimal_char c = true -> isdigit_char c = true.
Proof. unfold isdigit_char. intros ->. reflexivity. Qed.

Lemma ascii_digit_isdecimal (c : char) :
  is_ascii_digit c = true -> isdecimal_char c = true.
Proof.
  unfold is_ascii_digit, isdecimal_char, in_ranges, decimal_ranges.
  cbn [existsb fst snd]. intros ->. reflexivity.
Qed.

Lemma ascii_digit_value (c : char) :
  48 <= c <= 57 -> decimal_value c = Some (c - 48).
Proof.
  intros Hc. unfold decimal_value, decimal_ranges.
  cbn [decimal_value_in].
  replace ((48 <=? c) && (c <=? 57)) with true by lia.
  f_equal. dlia.
Qed.

Lemma decimal_value_in_some (rs : list (Z * Z)) (c : char) :
  in_ranges rs c = true <-> exists v, decimal_value_in rs c = Some v.
Proof.
  induction rs as [ | [lo hi] rs IH]; cbn.
  - split; [discriminate | intros [v [=]]].
  - destruct ((lo <=? c) && (c <=? hi)); cbn.
    + split; [eauto | reflexivity].
    + exact IH.
Qed.

Lemma isdecimal_value (c : char) :
  isdecimal_char c = true <-> exists v, decimal_value c = Some v.
Proof. apply decimal_value_in_some. Qed.

Lemma decimal_value_in_range (rs : list (Z * Z)) (c : char) (v : Z) :
  decimal_value_in rs c = Some v -> 0 <= v <= 9.
Proof.
  induction rs as [ | [lo hi] rs IH]; cbn; [discriminate | ].
  destruct ((lo <=? c) && (c <=? hi)); [ | exact IH].
  intros [= <-]. dlia.
Qed.

Lemma decimal_value_range (c : char) (v : Z) :
  decimal_value c = Some v -> 0 <= v <= 9.
Proof. apply decimal_value_in_range. Qed.

(* ===================================================================== *)
(** * Phone *)
(* ===================================================================== *)

Lemma Phone_cases (s : pystr) :
  (length (strip s) = 10%nat /\ forallb isdigit_char (strip s) = true
   /\ Phone s = Ok (mkField (strip s)))
  \/ (~ (length (strip s) = 10%nat /\ forallb isdigit_char (strip s) = true)
      /\ Phone s = Raise (ValueError MsgPhoneTenDigits)).
Proof.
  unfold Phone, len, isdigit.
  destruct (strip s) as [ | c t] eqn:Es.
  - right. split; [ | reflexivity]. cbn. intros [[=] _].
  - destruct (forallb isdigit_char (c :: t)) eqn:Ed.
    + destruct (Z.eqb_spec (Z.of_nat (length (c :: t))) 10) as [E | E].
      * left. cbn [negb orb]. repeat split. lia.
      * right. cbn [negb orb]. split; [ | reflexivity]. intros [Hl _]. lia.
    + right. cbn [negb orb]. split; [ | reflexivity]. intros [_ [=]].
Qed.

(** C6, as the code has it.  [Phone] succeeds exactly on the strings whose
    trimmed form has ten characters, each a digit in the sense of
    [str.isdigit]; the value stored is the trimmed string; every other
    string raises ValueError.  The ASCII digits are such digits; the plus
    sign, the hyphen, the space, the parentheses and the full stop are
    not. *)
Theorem phone_accepts_ten_isdigit_characters :
  (forall (s : pystr) (f : Field),
     Phone s = Ok f <->
     length (strip s) = 10%nat /\ forallb isdigit_char (strip s) = true
     /\ f = mkField (strip s))
  /\ (forall s : pystr,
        ~ (length (strip s) = 10%nat
           /\ forallb isdigit_char (strip s) = true) ->
        Phone s = Raise (ValueError MsgPhoneTenDigits))
  /\ (forall s : pystr,
        length (strip s) = 10%nat ->
        forallb is_ascii_digit (strip s) = true ->
        Phone s = Ok (mkField (strip s)))
  /\ forallb (fun c => negb (isdigit_char c)) (lit "+- ().") = true.
Proof.
  split; [ | split; [ | split]].
  - intros s f. destruct (Phone_cases s) as [(Hl & Hd & ->) | (Hn & ->)].
    + split.
      * intros [= <-]. repeat split; assumption.
      * intros (_ & _ & ->). reflexivity.
    + split; [discriminate | ]. intros (Hl & Hd & _). destruct Hn.
      split; assumption.
  - intros s Hn. destruct (Phone_cases s) as [(Hl & Hd & _) | (_ & ->)].
    + destruct Hn. split; assumption.
    + reflexivity.
  - intros s Hl Ha. destruct (Phone_cases s) as [(_ & _ & ->) | (Hn & _)].
    + reflexivity.
    + destruct Hn. split; [assumption | ].
      rewrite forallb_forall in Ha |- *. intros c Hc.
      apply isdecimal_isdigit, ascii_digit_isdecimal, Ha, Hc.
  - vm_compute. reflexivity.
Qed.

Lemma phone_accepts_ten_isdigit_characters_witness :
  Phone (lit " 0501234567 ") = Ok (mkField (lit "0501234567"))
  /\ Phone (lit "+380501234") = Raise (ValueError MsgPhoneTenDigits).
Proof.
  split.
  - apply (proj1 (proj2 (proj2 phone_accepts_ten_isdigit_characters))
             (lit " 0501234567 ")); vm_compute; reflexivity.
  - apply (proj1 (proj2 phone_accepts_ten_isdigit_characters)
             (lit "+380501234")).
    vm_compute. intros [_ [=]].
Defined.

(** C6 as stated fails: ten superscript twos (U+00B2) are accepted, and
    none of them is a decimal digit, in ASCII or in Unicode. *)
Lemma phone_of_superscript_twos_is_accepted :
  let s := repeat 178 10 in
  strip s = s
  /\ Phone s = Ok (mkField s)
  /\ ~ (length (strip s) = 10%nat /\ forallb isdecimal_char (strip s) = true)
  /\ ~ (length (strip s) = 10%nat /\ forallb is_ascii_digit (strip s) = true).
Proof.
  cbv zeta. split; [ | split; [ | split]].
  - vm_compute. reflexivity.
  - vm_compute. reflexivity.
  - vm_compute. intros [_ [=]].
  - vm_compute. intros [_ [=]].
Qed.

(** C10.  Strings of ten characters with no ASCII digit among them are
    accepted by [Phone]: ten superscript twos, ten fullwidth digits, ten
    Arabic-Indic digits; in general every string of ten characters that
    [str.isdigit] recognises. *)
Theorem phone_accepts_digits_outside_ascii :
  (exists s : pystr,
     length s = 10%nat
     /\ forallb (fun c => negb (is_ascii_digit c)) s = true
     /\ Phone s = Ok (mkField s))
  /\ (let fullwidth := (fun i => 65296 + i) <$> seqZ 0 10 in
      forallb (fun c => negb (is_ascii_digit c)) fullwidth = true
      /\ Phone fullwidth = Ok (mkField fullwidth))
  /\ (let arabic_indic := (fun i => 1632 + i) <$> seqZ 0 10 in
      forallb (fun c => negb (is_ascii_digit c)) arabic_indic = true
      /\ Phone arabic_indic = Ok (mkField arabic_indic))
  /\ (forall s : pystr,
        length (strip s) = 10%nat ->
        forallb isdigit_char (strip s) = true ->
        Phone s = Ok (mkField (strip s))).
Proof.
  split; [ | split; [ | split]].
  - exists (repeat 178 10). vm_compute. repeat split.
  - vm_compute. repeat split.
  - vm_compute. repeat split.
  - intros s Hl Hd. destruct (Phone_cases s) as [(_ & _ & ->) | (Hn & _)].
    + reflexivity.
    + destruct Hn. split; assumption.
Qed.

Lemma phone_accepts_digits_outside_ascii_witness :
  Phone (repeat 8322 10) = Ok (mkField (repeat 8322 10)).
Proof.
  apply (proj2 (proj2 (proj2 phone_accepts_digits_outside_ascii))
           (repeat 8322 10)); vm_compute; reflexivity.
Defined.

(* ===================================================================== *)
(** * strptime and strftime *)
(* ===================================================================== *)

Lemma re_char_spec (p : char -> bool) (s t r : pystr) :
  (t, r) ∈ re_char p s <-> exists c, s = c :: r /\ t = [c] /\ p c = true.
Proof.
  unfold re_char. destruct s as [ | c s'].
  - rewrite elem_of_nil. split; [contradiction | ]. intros (c & [=] & _).
  - destruct (p c) eqn:Ep.
    + rewrite list_elem_of_singleton. split.
      * intros [= -> ->]. exists c. auto.
      * intros (c' & [= <- <-] & -> & _). reflexivity.
    + rewrite elem_of_nil. split; [contradiction | ].
      intros (c' & [= <- <-] & _ & Hp). congruence.
Qed.

Lemma re_char2_spec (p1 p2 : char -> bool) (s t r : pystr) :
  (t, r) ∈ re_char2 p1 p2 s <->
  exists c1 c2, s = c1 :: c2 :: r /\ t = [c1; c2]
                /\ p1 c1 = true /\ p2 c2 = true.
Proof.
  unfold re_char2. destruct s as [ | c1 [ | c2 s']].
  - rewrite elem_of_nil. split; [contradiction | ]. intros (? & ? & [=] & _).
  - rewrite elem_of_nil. split; [contradiction | ]. intros (? & ? & [=] & _).
  - destruct (p1 c1 && p2 c2) eqn:Ep.
    + apply andb_prop in Ep. destruct Ep as [E1 E2].
      rewrite list_elem_of_singleton. split.
      * intros [= -> ->]. exists c1, c2. auto.
      * intros (? & ? & [= <- <- <-] & -> & _). reflexivity.
    + rewrite elem_of_nil. split; [contradiction | ].
      intros (? & ? & [= <- <- <-] & _ & E1 & E2).
      rewrite E1, E2 in Ep. discriminate.
Qed.

Lemma between_spec (lo hi : Z) (c : char) :
  between lo hi c = true <-> lo <= c <= hi.
Proof. unfold between. lia. Qed.

Lemma re_d_spec (s t r : pystr) :
  (t, r) ∈ re_d s <-> s = t ++ r /\ exists n, day_token t n.
Proof.
  unfold re_d. rewrite !elem_of_app, !re_char2_spec, re_char_spec.
  setoid_rewrite between_spec. split.
  - intros [(c1 & c2 & -> & -> & H1 & H2)
           | [(c1 & c2 & -> & -> & H1 & H2)
           | [(c1 & c2 & -> & -> & H1 & H2)
           | [(c & -> & -> & H1)
           | (c1 & c2 & -> & -> & H1 & H2)]]]].
    + assert (c1 = 51) as -> by lia. split; [reflexivity | ].
      eexists. left. apply day_30_31. lia.
    + apply isdecimal_value in H2. destruct H2 as [v Hv].
      split; [reflexivity | ]. eexists. left. apply (day_10_29 _ _ v); auto.
    + assert (c1 = 48) as -> by lia. split; [reflexivity | ].
      eexists. left. apply day_01_09. lia.
    + split; [reflexivity | ]. eexists. left. apply day_1_9. lia.
    + assert (c1 = 32) as -> by lia. split; [reflexivity | ].
      eexists. right. exists c2. auto.
  - intros (-> & n & [Hn | (c & Hc & -> & _)]).
    + destruct Hn as [c Hc | c Hc | c1 c2 v Hc1 Hv | c Hc].
      * do 3 right. left. exists c. auto.
      * do 2 right. left. exists 48, c. repeat split; lia.
      * right. left. exists c1, c2. repeat split; [lia.. | ].
        apply isdecimal_value. eauto.
      * left. exists 51, c. repeat split; lia.
    + do 4 right. exists 32, c. repeat split; lia.
Qed.

Lemma re_m_spec (s t r : pystr) :
  (t, r) ∈ re_m s <-> s = t ++ r /\ exists n, month_numeral t n.
Proof.
  unfold re_m. rewrite !elem_of_app, !re_char2_spec, re_char_spec.
  setoid_rewrite between_spec. split.
  - intros [(c1 & c2 & -> & -> & H1 & H2)
           | [(c1 & c2 & -> & -> & H1 & H2)
           | (c & -> & -> & H1)]].
    + assert (c1 = 49) as -> by lia. split; [reflexivity | ].
      eexists. apply month_10_12. lia.
    + assert (c1 = 48) as -> by lia. split; [reflexivity | ].
      eexists. apply month_01_09. lia.
    + split; [reflexivity | ]. eexists. apply month_1_9. lia.
  - intros (-> & n & Hn). destruct Hn as [c Hc | c Hc | c Hc].
    + do 2 right. exists c. auto.
    + right. left. exists 48, c. repeat split; lia.
    + left. exists 49, c. repeat split; lia.
Qed.

Lemma re_Y_spec (s t r : pystr) :
  (t, r) ∈ re_Y s <-> s = t ++ r /\ exists n, year_numeral t n.
Proof.
  unfold re_Y. split.
  - destruct s as [ | c1 [ | c2 [ | c3 [ | c4 s']]]];
      try (rewrite elem_of_nil; contradiction).
    destruct (isdecimal_char c1) eqn:E1; cbn [andb];
      [ | rewrite elem_of_nil; contradiction].
    destruct (isdecimal_char c2) eqn:E2; cbn [andb];
      [ | rewrite elem_of_nil; contradiction].
    destruct (isdecimal_char c3) eqn:E3; cbn [andb];
      [ | rewrite elem_of_nil; contradiction].
    destruct (isdecimal_char c4) eqn:E4; cbn [andb];
      [ | rewrite elem_of_nil; contradiction].
    rewrite list_elem_of_singleton. intros [= -> ->].
    split; [reflexivity | ].
    apply isdecimal_value in E1, E2, E3, E4.
    destruct E1 as [v1 ?], E2 as [v2 ?], E3 as [v3 ?], E4 as [v4 ?].
    eexists. apply (year_4_digits _ _ _ _ v1 v2 v3 v4); assumption.
  - intros (-> & n & Hn). destruct Hn as [c1 c2 c3 c4 v1 v2 v3 v4 H1 H2 H3 H4].
    cbn [app].
    rewrite (proj2 (isdecimal_value c1)), (proj2 (isdecimal_value c2)),
      (proj2 (isdecimal_value c3)), (proj2 (isdecimal_value c4)) by eauto.
    cbn [andb]. apply list_elem_of_singleton. reflexivity.
Qed.

Lemma re_dot_spec (s r : pystr) : r ∈ re_dot s <-> s = 46 :: r.
Proof.
  unfold re_dot. destruct s as [ | c s'].
  - rewrite elem_of_nil. split; [contradiction | discriminate].
  - destruct (Z.eqb_spec c 46) as [-> | Hne].
    + rewrite list_elem_of_singleton. split; [intros -> | intros [= ->]];
        reflexivity.
    + rewrite elem_of_nil. split; [contradiction | ].
      intros [= -> _]. contradiction.
Qed.

(** The matches of the whole expression. *)
Lemma format_regex_matches_spec (s d m Y r : pystr) :
  (d, m, Y, r) ∈ format_regex_matches s <->
  s = d ++ 46 :: m ++ 46 :: Y ++ r
  /\ (exists n, day_token d n) /\ (exists n, month_numeral m n)
  /\ (exists n, year_numeral Y n).
Proof.
  unfold format_regex_matches. split.
  - intros Hin.
    apply list_elem_of_bind in Hin. destruct Hin as ([d' r1] & Hin & Hd).
    apply list_elem_of_bind in Hin. destruct Hin as (r2 & Hin & Hdot1).
    apply list_elem_of_bind in Hin. destruct Hin as ([m' r3] & Hin & Hm).
    apply list_elem_of_bind in Hin. destruct Hin as (r4 & Hin & Hdot2).
    apply list_elem_of_bind in Hin. destruct Hin as ([Y' r5] & Hin & HY).
    apply list_elem_of_singleton in Hin. injection Hin as -> -> -> ->.
    apply re_d_spec in Hd. apply re_dot_spec in Hdot1.
    apply re_m_spec in Hm. apply re_dot_spec in Hdot2.
    apply re_Y_spec in HY.
    destruct Hd as [-> Hd], Hm as [-> Hm], HY as [-> HY]. subst.
    auto.
  - intros (-> & Hd & Hm & HY).
    apply list_elem_of_bind. exists (d, 46 :: m ++ 46 :: Y ++ r).
    split; [ | apply re_d_spec; auto].
    apply list_elem_of_bind. exists (m ++ 46 :: Y ++ r).
    split; [ | apply re_dot_spec; reflexivity].
    apply list_elem_of_bind. exists (m, 46 :: Y ++ r).
    split; [ | apply re_m_spec; auto].
    apply list_elem_of_bind. exists (Y ++ r).
    split; [ | apply re_dot_spec; reflexivity].
    apply list_elem_of_bind. exists (Y, r).
    split; [ | apply re_Y_spec; auto].
    apply list_elem_of_singleton. reflexivity.
Qed.

(** ** What the numerals are worth and where they end *)

Lemma decimal_not_space (c : char) (v : Z) :
  decimal_value c = Some v -> isspace_char c = false.
Proof.
  intros Hv. apply isdigit_not_space, isdecimal_isdigit, isdecimal_value.
  eauto.
Qed.

Lemma ascii_digit_not_space (c : char) :
  48 <= c <= 57 -> isspace_char c = false.
Proof. intros Hc. apply (decimal_not_space c (c - 48)), ascii_digit_value, Hc. Qed.

Lemma decimal_not_dot (c : char) (v : Z) :
  decimal_value c = Some v -> c <> 46.
Proof. intros Hv ->. vm_compute in Hv. discriminate. Qed.

Lemma int_no_space (t : pystr) (n : Z) :
  t <> [] ->
  Forall (fun c => isspace_char c = false) t ->
  int_digits 0 t = Some n -> int t = Ok n.
Proof.
  intros Hne Hs Hn. unfold int. rewrite (strip_no_space t Hs).
  destruct t; [contradiction | ]. rewrite Hn. reflexivity.
Qed.

Lemma int_day_numeral (t : pystr) (n : Z) :
  day_numeral t n -> int t = Ok n.
Proof.
  intros [c Hc | c Hc | c1 c2 v Hc1 Hv | c Hc];
    (apply int_no_space; [discriminate | | ]).
  - repeat constructor. apply ascii_digit_not_space. lia.
  - cbn [int_digits]. rewrite ascii_digit_value by lia. reflexivity.
  - repeat constructor; apply ascii_digit_not_space; lia.
  - cbn [int_digits]. rewrite !ascii_digit_value by lia. f_equal; lia.
  - repeat constructor;
      [apply ascii_digit_not_space; lia | apply (decimal_not_space _ v Hv)].
  - cbn [int_digits]. rewrite ascii_digit_value, Hv by lia. f_equal; lia.
  - repeat constructor; apply ascii_digit_not_space; lia.
  - cbn [int_digits]. rewrite !ascii_digit_value by lia. f_equal; lia.
Qed.

Lemma int_day_token (t : pystr) (n : Z) : day_token t n -> int t = Ok n.
Proof.
  intros [Hn | (c & Hc & -> & ->)]; [apply int_day_numeral, Hn | ].
  unfold int.
  assert (Es : strip [32; c] = [c]).
  { unfold strip. cbn [lstrip]. change (isspace_char 32) with true.
    cbn iota. rewrite (ascii_digit_not_space c) by lia.
    rewrite (rstrip_cons c []) by (apply ascii_digit_not_space; lia).
    reflexivity. }
  rewrite Es. cbn [int_digits]. rewrite ascii_digit_value by lia.
  reflexivity.
Qed.

Lemma int_month_numeral (t : pystr) (n : Z) :
  month_numeral t n -> int t = Ok n.
Proof.
  intros [c Hc | c Hc | c Hc];
    (apply int_no_space; [discriminate | | ]).
  - repeat constructor. apply ascii_digit_not_space. lia.
  - cbn [int_digits]. rewrite ascii_digit_value by lia. reflexivity.
  - repeat constructor; apply ascii_digit_not_space; lia.
  - cbn [int_digits]. rewrite !ascii_digit_value by lia. f_equal; lia.
  - repeat constructor; apply ascii_digit_not_space; lia.
  - cbn [int_digits]. rewrite !ascii_digit_value by lia. f_equal; lia.
Qed.

Lemma int_year_numeral (t : pystr) (n : Z) :
  year_numeral t n -> int t = Ok n.
Proof.
  intros [c1 c2 c3 c4 v1 v2 v3 v4 H1 H2 H3 H4].
  apply int_no_space; [discriminate | | ].
  - repeat constructor; eapply decimal_not_space; eassumption.
  - cbn [int_digits]. rewrite H1, H2, H3, H4. f_equal; lia.
Qed.

Lemma day_token_no_dot (t : pystr) (n : Z) : day_token t n -> 46 ∉ t.
Proof.
  intros [[c Hc | c Hc | c1 c2 v Hc1 Hv | c Hc] | (c & Hc & -> & _)];
    rewrite ?elem_of_cons, elem_of_nil;
    try pose proof (decimal_not_dot _ _ Hv); lia.
Qed.

Lemma month_numeral_no_dot (t : pystr) (n : Z) : month_numeral t n -> 46 ∉ t.
Proof.
  intros [c Hc | c Hc | c Hc]; rewrite ?elem_of_cons, elem_of_nil; lia.
Qed.

Lemma year_numeral_length (t : pystr) (n : Z) :
  year_numeral t n -> length t = 4%nat.
Proof. intros []. reflexivity. Qed.

(** A text is cut at its first full stop in one way only. *)
Lemma cut_at_dot (t1 r1 t2 r2 : pystr) :
  46 ∉ t1 -> 46 ∉ t2 -> t1 ++ 46 :: r1 = t2 ++ 46 :: r2 ->
  t1 = t2 /\ r1 = r2.
Proof.
  revert t2. induction t1 as [ | a t1 IH]; intros [ | b t2] H1 H2 E;
    cbn in E.
  - injection E as ->. auto.
  - injection E as <- _. exfalso. apply H2. left.
  - injection E as -> _. exfalso. apply H1. left.
  - injection E as -> E. rewrite not_elem_of_cons in H1, H2.
    destruct (IH t2 (proj2 H1) (proj2 H2) E) as [-> ->]. auto.
Qed.

Lemma format_regex_matches_unique (s : pystr)
    (x y : pystr * pystr * pystr * pystr) :
  x ∈ format_regex_matches s -> y ∈ format_regex_matches s -> x = y.
Proof.
  destruct x as [[[d m] Y] r], y as [[[d' m'] Y'] r'].
  rewrite !format_regex_matches_spec.
  intros (-> & [? Hd] & [? Hm] & [? HY]) (E & [? Hd'] & [? Hm'] & [? HY']).
  apply cut_at_dot in E; try (eapply day_token_no_dot; eassumption).
  destruct E as [<- E].
  apply cut_at_dot in E; try (eapply month_numeral_no_dot; eassumption).
  destruct E as [<- E].
  apply app_inj_1 in E.
  - destruct E as [<- <-]. reflexivity.
  - rewrite (year_numeral_length _ _ HY), (year_numeral_length _ _ HY').
    reflexivity.
Qed.

Lemma format_regex_matches_head (s : pystr)
    (x : pystr * pystr * pystr * pystr) :
  x ∈ format_regex_matches s -> exists l, format_regex_matches s = x :: l.
Proof.
  intros Hx. destruct (format_regex_matches s) as [ | y l] eqn:E.
  - apply elem_of_nil in Hx. contradiction.
  - exists l. f_equal. apply (format_regex_matches_unique s); rewrite E.
    + left.
    + exact Hx.
Qed.

(** ** What [strptime] accepts *)

Lemma strptime_ok_iff (s : pystr) (dt : date) :
  strptime s = Ok dt <->
  exists d m Y dd mm yy,
    s = d ++ 46 :: m ++ 46 :: Y
    /\ day_token d dd /\ month_numeral m mm /\ year_numeral Y yy
    /\ valid_date (mkdate yy mm dd) = true /\ dt = mkdate yy mm dd.
Proof.
  unfold strptime. split.
  - destruct (format_regex_matches s) as [ | [[[d m] Y] r] l] eqn:E;
      [discriminate | ].
    assert (Hin : (d, m, Y, r) ∈ format_regex_matches s)
      by (rewrite E; left).
    apply format_regex_matches_spec in Hin.
    destruct Hin as (Hs & [dd Hd] & [mm Hm] & [yy HY]).
    destruct r; [ | discriminate].
    rewrite (int_day_token _ _ Hd), (int_month_numeral _ _ Hm),
      (int_year_numeral _ _ HY). cbn [bind].
    intros Hnew. apply date_new_inv in Hnew. destruct Hnew as [-> Hv].
    exists d, m, Y, dd, mm, yy. rewrite app_nil_r in Hs. auto 10.
  - intros (d & m & Y & dd & mm & yy & -> & Hd & Hm & HY & Hv & ->).
    assert (Hin : (d, m, Y, []) ∈ format_regex_matches (d ++ 46 :: m ++ 46 :: Y)).
    { apply format_regex_matches_spec. rewrite app_nil_r. eauto 10. }
    destruct (format_regex_matches_head _ _ Hin) as [l ->].
    rewrite (int_day_token _ _ Hd), (int_month_numeral _ _ Hm),
      (int_year_numeral _ _ HY). cbn [bind].
    apply date_new_valid, Hv.
Qed.

Lemma int_raises (t : pystr) (e : exn) :
  int t = Raise e -> is_ValueError e = true.
Proof.
  unfold int. destruct (strip t); [intros [= <-]; reflexivity | ].
  destruct (int_digits 0 _); [discriminate | intros [= <-]; reflexivity].
Qed.

(** Every exception of [strptime] is a ValueError. *)
Lemma strptime_raises (s : pystr) (e : exn) :
  strptime s = Raise e -> is_ValueError e = true.
Proof.
  unfold strptime.
  destruct (format_regex_matches s) as [ | [[[d m] Y] r] l];
    [intros [= <-]; reflexivity | ].
  destruct r; [ | intros [= <-]; reflexivity].
  destruct (int d) eqn:Ed; [ | intros [= <-]; eapply int_raises, Ed].
  destruct (int m) eqn:Em; [ | intros [= <-]; eapply int_raises, Em].
  destruct (int Y) eqn:EY; [ | intros [= <-]; eapply int_raises, EY].
  cbn [bind]. apply date_new_raises.
Qed.

(** ** The text DD.MM.YYYY is read back as the date it was written from *)

Lemma digit_char_value (a : Z) :
  0 <= a <= 9 -> decimal_value (digit_char a) = Some a.
Proof.
  intros Ha. unfold digit_char. rewrite ascii_digit_value by lia.
  f_equal. lia.
Qed.

Lemma day_numeral_cast (t : pystr) (n n' : Z) :
  n = n' -> day_numeral t n -> day_numeral t n'.
Proof. intros ->. exact id. Qed.

Lemma month_numeral_cast (t : pystr) (n n' : Z) :
  n = n' -> month_numeral t n -> month_numeral t n'.
Proof. intros ->. exact id. Qed.

Lemma year_numeral_cast (t : pystr) (n n' : Z) :
  n = n' -> year_numeral t n -> year_numeral t n'.
Proof. intros ->. exact id. Qed.

Lemma two_digits_day (n : Z) :
  1 <= n <= 31 -> day_numeral (two_digits n) n.
Proof.
  intros Hn. unfold two_digits, digit_char.
  destruct (Z_lt_le_dec n 10) as [H9 | H10];
    [ | destruct (Z_lt_le_dec n 30) as [H29 | H30]].
  - replace (n / 10 mod 10) with 0 by dlia.
    apply (day_numeral_cast _ (48 + n mod 10 - 48)); [dlia | ].
    apply (day_01_09 (48 + n mod 10)). dlia.
  - apply (day_numeral_cast _ (10 * (48 + n / 10 mod 10 - 48) + n mod 10));
      [dlia | ].
    apply (day_10_29 (48 + n / 10 mod 10) (48 + n mod 10) (n mod 10));
      [dlia | ].
    apply (digit_char_value (n mod 10)). dlia.
  - replace (n / 10 mod 10) with 3 by dlia.
    apply (day_numeral_cast _ (30 + (48 + n mod 10 - 48))); [dlia | ].
    apply (day_30_31 (48 + n mod 10)). dlia.
Qed.

Lemma two_digits_month (n : Z) :
  1 <= n <= 12 -> month_numeral (two_digits n) n.
Proof.
  intros Hn. unfold two_digits, digit_char.
  destruct (Z_lt_le_dec n 10) as [H9 | H10].
  - replace (n / 10 mod 10) with 0 by dlia.
    apply (month_numeral_cast _ (48 + n mod 10 - 48)); [dlia | ].
    apply (month_01_09 (48 + n mod 10)). dlia.
  - replace (n / 10 mod 10) with 1 by dlia.
    apply (month_numeral_cast _ (10 + (48 + n mod 10 - 48))); [dlia | ].
    apply (month_10_12 (48 + n mod 10)). dlia.
Qed.

Lemma four_digits_year (n : Z) :
  0 <= n <= 9999 -> year_numeral (four_digits n) n.
Proof.
  intros Hn. unfold four_digits.
  apply (year_numeral_cast _
           (1000 * (n / 1000 mod 10) + 100 * (n / 100 mod 10)
            + 10 * (n / 10 mod 10) + n mod 10)); [dlia | ].
  apply year_4_digits; apply digit_char_value; dlia.
Qed.

Lemma strptime_DD_MM_YYYY (dt : date) :
  valid_date dt = true -> strptime (DD_MM_YYYY dt) = Ok dt.
Proof.
  intros Hv. apply strptime_ok_iff.
  pose proof Hv as Hv'. apply valid_date_iff in Hv'.
  destruct Hv' as (Hy & Hm & Hd).
  pose proof (days_in_month_bounds (year dt) (month dt) Hm).
  exists (two_digits (day dt)), (two_digits (month dt)),
    (four_digits (year dt)), (day dt), (month dt), (year dt).
  split; [reflexivity | ].
  split; [left; apply two_digits_day; lia | ].
  split; [apply two_digits_month; lia | ].
  split; [apply four_digits_year; lia | ].
  destruct dt. auto.
Qed.

Lemma decimal_four_digits (y : Z) :
  1000 <= y <= 9999 -> decimal y = four_digits y.
Proof.
  intros Hy. unfold decimal.
  assert (Hlog : 9 <= Z.log2 y).
  { change 9 with (Z.log2 1000). apply Z.log2_le_mono. lia. }
  destruct (Z.to_nat (Z.log2 y)) as [ | [ | [ | fuel]]] eqn:Ef; try lia.
  cbn [decimal_fuel].
  replace (y <? 10) with false by lia.
  replace (y / 10 <? 10) with false by dlia.
  replace (y / 10 / 10 <? 10) with false by dlia.
  assert (Elast : forall acc,
            decimal_fuel fuel (y / 10 / 10 / 10) acc
            = digit_char (y / 10 / 10 / 10 mod 10) :: acc).
  { intros acc. destruct fuel; cbn [decimal_fuel]; [reflexivity | ].
    replace (y / 10 / 10 / 10 <? 10) with true by dlia. reflexivity. }
  rewrite Elast. unfold four_digits.
  replace (y / 10 / 10 / 10) with (y / 1000) by dlia.
  replace (y / 10 / 10) with (y / 100) by dlia.
  reflexivity.
Qed.

(** Where the year has four digits, or the library fills it to four,
    [strftime] writes DD.MM.YYYY. *)
Lemma strftime_DD_MM_YYYY `{libc : LibC} (dt : date) :
  strftime_Y_zero_fill = true \/ 1000 <= year dt <= 9999 ->
  strftime dt = DD_MM_YYYY dt.
Proof.
  unfold strftime, DD_MM_YYYY. intros Hfill.
  destruct strftime_Y_zero_fill; [reflexivity | ].
  rewrite decimal_four_digits; [reflexivity | ].
  destruct Hfill as [[=] | Hy]. exact Hy.
Qed.

(* ===================================================================== *)
(** * Birthday *)
(* ===================================================================== *)

Lemma Birthday_cases `{libc : LibC} (v : pystr) :
  (exists dt, strptime (strip v) = Ok dt
              /\ Birthday v = Ok (mkField (strftime dt)))
  \/ ((forall dt, strptime (strip v) <> Ok dt)
      /\ Birthday v = Raise (ValueError MsgBirthdayFormat)).
Proof.
  unfold Birthday. destruct (strptime (strip v)) as [dt | e] eqn:E.
  - left. exists dt. split; reflexivity.
  - right. split; [discriminate | ].
    cbn [try_except]. rewrite (strptime_raises _ _ E). reflexivity.
Qed.

(** After trimming, the numeral of the day cannot start with a space. *)
Lemma day_token_after_strip (v d r : pystr) (n : Z) :
  strip v = d ++ r -> day_token d n -> day_numeral d n.
Proof.
  intros Es [Hn | (c & _ & -> & _)]; [exact Hn | ].
  apply strip_head in Es. vm_compute in Es. discriminate.
Qed.

(** C7, as the code has it.  [Birthday] succeeds exactly when the trimmed
    string is a day, a full stop, a month, a full stop and a year, the day
    and the month written with one or two digits (the leading zero is
    optional), the year with exactly four, and the three form a date of the
    calendar; the value stored is that date written by [strftime], which is
    DD.MM.YYYY wherever the year has four digits or the C library fills it,
    and [date_value] then gives the date back; every other string raises
    ValueError.  31.02.2020 is refused. *)
Theorem birthday_accepts_day_month_year_numerals `{libc : LibC} :
  (forall (v : pystr) (f : Field),
     Birthday v = Ok f <->
     exists d m Y dd mm yy,
       strip v = d ++ 46 :: m ++ 46 :: Y
       /\ day_numeral d dd /\ month_numeral m mm /\ year_numeral Y yy
       /\ valid_date (mkdate yy mm dd) = true
       /\ f = mkField (strftime (mkdate yy mm dd)))
  /\ (forall (v : pystr) (e : exn),
        Birthday v = Raise e -> e = ValueError MsgBirthdayFormat)
  /\ (forall (v : pystr) (f : Field),
        Birthday v = Ok f ->
        exists dt, valid_date dt = true /\ value f = strftime dt
                   /\ (strftime_Y_zero_fill = true \/ 1000 <= year dt ->
                       value f = DD_MM_YYYY dt /\ date_value f = Ok dt))
  /\ Birthday (lit "31.02.2020") = Raise (ValueError MsgBirthdayFormat)
  /\ Birthday (lit " 07.03.1995 ") = Ok (mkField (lit "07.03.1995")).
Proof.
  split; [ | split; [ | split; [ | split]]].
  - intros v f. split.
    + destruct (Birthday_cases v) as [(dt & Hp & ->) | (_ & ->)];
        [ | discriminate].
      intros [= <-]. apply strptime_ok_iff in Hp.
      destruct Hp as (d & m & Y & dd & mm & yy & Es & Hd & Hm & HY & Hv & ->).
      exists d, m, Y, dd, mm, yy.
      split; [exact Es | ].
      split; [exact (day_token_after_strip _ _ _ _ Es Hd) | auto].
    + intros (d & m & Y & dd & mm & yy & Es & Hd & Hm & HY & Hv & ->).
      assert (Hp : strptime (strip v) = Ok (mkdate yy mm dd)).
      { apply strptime_ok_iff. exists d, m, Y, dd, mm, yy.
        split; [exact Es | ]. split; [left; exact Hd | auto]. }
      destruct (Birthday_cases v) as [(dt & Hp' & ->) | (Hn & _)].
      * rewrite Hp in Hp'. injection Hp' as <-. reflexivity.
      * destruct (Hn _ Hp).
  - intros v e. destruct (Birthday_cases v) as [(dt & _ & ->) | (_ & ->)];
      [discriminate | intros [= <-]; reflexivity].
  - intros v f. destruct (Birthday_cases v) as [(dt & Hp & ->) | (_ & ->)];
      [ | discriminate].
    intros [= <-]. exists dt.
    assert (Hv : valid_date dt = true).
    { apply strptime_ok_iff in Hp.
      destruct Hp as (? & ? & ? & ? & ? & ? & _ & _ & _ & _ & Hv & ->).
      exact Hv. }
    split; [exact Hv | ]. split; [reflexivity | ].
    intros Hfill. unfold date_value. cbn [value].
    rewrite strftime_DD_MM_YYYY.
    + split; [reflexivity | apply strptime_DD_MM_YYYY, Hv].
    + apply valid_date_iff in Hv. destruct Hfill; [auto | right; lia].
  - destruct libc as [[]]; vm_compute; reflexivity.
  - destruct libc as [[]]; vm_compute; reflexivity.
Qed.

Lemma birthday_accepts_day_month_year_numerals_witness :
  @Birthday glibc (lit "7.3.1995") = Ok (mkField (lit "07.03.1995"))
  /\ @date_value (mkField (lit "07.03.1995")) = Ok (mkdate 1995 3 7).
Proof.
  pose proof (@birthday_accepts_day_month_year_numerals glibc)
    as (Hiff & _ & Hval & _).
  assert (Hb : @Birthday glibc (lit "7.3.1995")
               = Ok (mkField (@strftime glibc (mkdate 1995 3 7)))).
  { apply Hiff.
    exists (lit "7"), (lit "3"), (lit "1995"), 7, 3, 1995.
    split; [vm_compute; reflexivity | ].
    split; [exact (day_1_9 55 ltac:(lia)) | ].
    split; [exact (month_1_9 51 ltac:(lia)) | ].
    split; [exact (year_4_digits 49 57 57 53 1 9 9 5
                     eq_refl eq_refl eq_refl eq_refl) | ].
    split; reflexivity. }
  split; [exact Hb | ].
  destruct (Hval _ _ Hb) as (dt & _ & Hs & Hfmt).
  vm_compute. reflexivity.
Defined.

(** C7 as stated fails: a day and a month of one digit are accepted, so
    the string need not have the form DD.MM.YYYY. *)
Lemma birthday_with_one_digit_day_and_month_is_accepted :
  let v := lit "1.1.2000" in
  strip v = v
  /\ @Birthday glibc v = Ok (mkField (lit "01.01.2000"))
  /\ @Birthday zero_filling_libc v = Ok (mkField (lit "01.01.2000"))
  /\ ~ (exists dt, v = DD_MM_YYYY dt).
Proof.
  cbv zeta. repeat split; try (vm_compute; reflexivity).
  intros [dt E]. apply (f_equal length) in E. discriminate E.
Qed.

(** Where the C library does not fill the year, a birthday before the year
    1000 is stored with a shorter year, and [date_value] cannot read it
    back. *)
Lemma birthday_before_year_1000_without_zero_fill :
  @Birthday glibc (lit "01.01.0999") = Ok (mkField (lit "01.01.999"))
  /\ date_value (mkField (lit "01.01.999")) = Raise (ValueError MsgNoMatch)
  /\ @Birthday zero_filling_libc (lit "01.01.0999")
     = Ok (mkField (lit "01.01.0999")).
Proof. vm_compute. repeat split. Qed.

(* ===================================================================== *)
(** * Record: finding and editing a phone *)
(* ===================================================================== *)

Lemma find_phone_slot_None (ps : list Field) (x : pystr) :
  find_phone_slot ps x = None <->
  forall (j : nat) (q : Field), ps !! j = Some q -> value q <> x.
Proof.
  induction ps as [ | p ps IH]; cbn [find_phone_slot].
  - split; [intros _ j q; rewrite lookup_nil; discriminate | reflexivity].
  - case_bool_decide as Hp.
    + split; [discriminate | ]. intros Hall.
      destruct (Hall O p eq_refl Hp).
    + destruct (find_phone_slot ps x) as [i | ] eqn:Ei; cbn [fmap option_fmap option_map].
      * split; [discriminate | ]. intros Hall.
        assert (Hnone : Some i = None); [ | discriminate].
        apply IH. intros j q Hj. apply (Hall (S j) q Hj).
      * split; [ | reflexivity]. intros _ [ | j] q; cbn.
        -- intros [= <-]. exact Hp.
        -- apply IH. reflexivity.
Qed.

Lemma find_phone_slot_Some (ps : list Field) (x : pystr) (i : nat) :
  find_phone_slot ps x = Some i ->
  exists p, ps !! i = Some p /\ value p = x.
Proof.
  revert i. induction ps as [ | p ps IH]; cbn [find_phone_slot];
    [discriminate | ].
  intros i. case_bool_decide as Hp.
  - intros [= <-]. exists p. auto.
  - destruct (find_phone_slot ps x) as [k | ]; cbn; [ | discriminate].
    intros [= <-]. apply IH. reflexivity.
Qed.

Lemma find_phone_Some (self : ContactRecord) (x : pystr) (p : Field) :
  find_phone self x = Some p ->
  value p = x /\ exists i, find_phone_slot (phones self) x = Some i
                           /\ phones self !! i = Some p.
Proof.
  unfold find_phone.
  destruct (find_phone_slot (phones self) x) as [i | ] eqn:Ei; cbn;
    [ | discriminate].
  intros Hp. destruct (find_phone_slot_Some _ _ _ Ei) as (p' & Hp' & Hv).
  rewrite Hp in Hp'. injection Hp' as <-. eauto.
Qed.

Lemma find_phone_None (self : ContactRecord) (x : pystr) :
  find_phone self x = None <-> find_phone_slot (phones self) x = None.
Proof.
  unfold find_phone.
  destruct (find_phone_slot (phones self) x) as [i | ] eqn:Ei; cbn.
  - destruct (find_phone_slot_Some _ _ _ Ei) as (p' & -> & _).
    split; discriminate.
  - split; reflexivity.
Qed.

(** A phone stored with value [x] is found by [find_phone x]. *)
Lemma find_phone_present (self : ContactRecord) (x : pystr)
    (i : nat) (p : Field) :
  phones self !! i = Some p -> value p = x ->
  exists p', find_phone self x = Some p' /\ value p' = x.
Proof.
  intros Hi Hv. destruct (find_phone self x) as [p' | ] eqn:E.
  - exists p'. split; [reflexivity | ]. apply (find_phone_Some _ _ _ E).
  - apply find_phone_None in E.
    destruct (proj1 (find_phone_slot_None _ _) E i p Hi Hv).
Qed.

Lemma Field_eta (p : Field) : p = mkField (value p).
Proof. destruct p. reflexivity. Qed.

(** [find_phone x] finds the phone of value [x] when one is stored. *)
Lemma find_phone_elem_of (self : ContactRecord) (x : pystr) :
  (mkField x ∈ phones self -> find_phone self x = Some (mkField x))
  /\ (mkField x ∉ phones self -> find_phone self x = None).
Proof.
  split.
  - intros Hin. apply list_elem_of_lookup in Hin. destruct Hin as [i Hi].
    destruct (find_phone_present self x i (mkField x) Hi eq_refl)
      as (p & Hp & Hv).
    rewrite Hp. f_equal. rewrite (Field_eta p), Hv. reflexivity.
  - intros Hnin. apply find_phone_None, find_phone_slot_None.
    intros j q Hj Hv. apply Hnin. apply list_elem_of_lookup. exists j.
    rewrite Hj, (Field_eta q), Hv. reflexivity.
Qed.

Lemma find_phone_slot_first (ps : list Field) (x : pystr) (i : nat) :
  find_phone_slot ps x = Some i ->
  forall (j : nat) (q : Field),
    (j < i)%nat -> ps !! j = Some q -> value q <> x.
Proof.
  revert i. induction ps as [ | p ps IH]; cbn [find_phone_slot];
    [discriminate | ].
  intros i. case_bool_decide as Hp.
  - intros [= <-] j q Hj. lia.
  - destruct (find_phone_slot ps x) as [k | ]; cbn; [ | discriminate].
    intros [= <-] [ | j] q Hj; cbn.
    + intros [= <-]. exact Hp.
    + apply (IH k eq_refl). lia.
Qed.

(** The slot found is the first one that holds the value. *)
Lemma find_phone_slot_is_first (ps : list Field) (x : pystr) (i : nat) :
  ps !! i = Some (mkField x) ->
  (forall (j : nat) (q : Field),
     (j < i)%nat -> ps !! j = Some q -> value q <> x) ->
  find_phone_slot ps x = Some i.
Proof.
  revert i. induction ps as [ | p ps IH]; intros i Hi Hfirst;
    [rewrite lookup_nil in Hi; discriminate | ].
  cbn [find_phone_slot]. destruct i as [ | i].
  - injection Hi as ->. rewrite bool_decide_eq_true_2 by reflexivity.
    reflexivity.
  - rewrite bool_decide_eq_false_2
      by (apply (Hfirst O p); [lia | reflexivity]).
    rewrite (IH i Hi); [reflexivity | ].
    intros j q Hj Hq. apply (Hfirst (S j) q); [lia | exact Hq].
Qed.

Lemma find_phone_slot_stored (ps : list Field) (x : pystr) :
  (exists p, p ∈ ps /\ value p = x) ->
  exists i, find_phone_slot ps x = Some i
            /\ ps !! i = Some (mkField x)
            /\ forall (j : nat) (q : Field),
                 (j < i)%nat -> ps !! j = Some q -> value q <> x.
Proof.
  intros (p & Hin & Hv). apply list_elem_of_lookup in Hin.
  destruct Hin as [k Hk].
  destruct (find_phone_slot ps x) as [i | ] eqn:Ei.
  - exists i. split; [reflexivity | ].
    destruct (find_phone_slot_Some _ _ _ Ei) as (p' & Hp' & Hv').
    split; [rewrite Hp', (Field_eta p'), Hv'; reflexivity | ].
    exact (find_phone_slot_first _ _ _ Ei).
  - destruct (proj1 (find_phone_slot_None _ _) Ei k p Hk Hv).
Qed.

(** C8, as the code has it.  When no stored phone has the value [old],
    [edit_phone] raises ValueError ("Old phone ... not found") and leaves
    the record as it was.  When one has, the new text is validated by
    [Phone]: if it is refused the record is left as it was; if it is
    accepted, the first phone with the value [old] (no phone before it has
    that value) gets the trimmed new text as its value, in the same
    position, and nothing else changes; [find_phone] then finds the trimmed
    new text, and it no longer finds [old] provided [old] was stored once
    only and differs from the trimmed new text. *)
Theorem edit_phone_replaces_in_place
    (self : ContactRecord) (old new : pystr) :
  ((forall p : Field, p ∈ phones self -> value p <> old) ->
   edit_phone old new self
   = (Raise (ValueError (MsgOldPhoneNotFound old)), self))
  /\ (forall e : exn,
        (exists p, p ∈ phones self /\ value p = old) ->
        Phone new = Raise e ->
        edit_phone old new self = (Raise e, self)
        /\ e = ValueError MsgPhoneTenDigits)
  /\ (forall q : Field,
        (exists p, p ∈ phones self /\ value p = old) ->
        Phone new = Ok q ->
        exists i : nat,
          phones self !! i = Some (mkField old)
          /\ (forall (j : nat) (p : Field),
                (j < i)%nat -> phones self !! j = Some p -> value p <> old)
          /\ find_phone self old = Some (mkField old)
          /\ edit_phone old new self
             = (Ok tt,
                mkRecord (name self)
                  (<[i := mkField (strip new)]> (phones self))
                  (birthday self))
          /\ let self' := (edit_phone old new self).2 in
             length (phones self') = length (phones self)
             /\ phones self' !! i = Some (mkField (strip new))
             /\ (forall j : nat, j <> i ->
                   phones self' !! j = phones self !! j)
             /\ find_phone self' (strip new) = Some (mkField (strip new))
             /\ (strip new <> old ->
                 (forall (j : nat) (p' : Field),
                    j <> i -> phones self !! j = Some p' ->
                    value p' <> old) ->
                 find_phone self' old = None)).
Proof.
  split; [ | split].
  - intros Hnone. unfold edit_phone.
    rewrite (proj2 (find_phone_slot_None (phones self) old)); [reflexivity | ].
    intros j q Hj. apply Hnone. apply list_elem_of_lookup. eauto.
  - intros e Hold He.
    destruct (find_phone_slot_stored _ _ Hold) as (i & Hi & _).
    unfold edit_phone. rewrite Hi, He. split; [reflexivity | ].
    destruct (Phone_cases new) as [(_ & _ & Hok) | (_ & Hr)]; congruence.
  - intros q Hold Hq.
    destruct (find_phone_slot_stored _ _ Hold) as (i & Hi & Hpi & Hfirst).
    assert (Eq : q = mkField (strip new)).
    { destruct (Phone_cases new) as [(_ & _ & Hok) | (_ & Hr)]; congruence. }
    subst q. exists i.
    assert (Hedit : edit_phone old new self
                    = (Ok tt,
                       mkRecord (name self)
                         (<[i := mkField (strip new)]> (phones self))
                         (birthday self))).
    { unfold edit_phone. rewrite Hi, Hq. reflexivity. }
    rewrite Hedit. cbn [snd phones].
    assert (Hlt : (i < length (phones self))%nat)
      by (eapply lookup_lt_Some; eassumption).
    assert (Hnew : <[i := mkField (strip new)]> (phones self) !! i
                   = Some (mkField (strip new)))
      by (apply list_lookup_insert_eq, Hlt).
    split; [exact Hpi | ]. split; [exact Hfirst | ].
    split; [unfold find_phone; rewrite Hi; exact Hpi | ].
    split; [reflexivity | ].
    split; [apply length_insert | ]. split; [exact Hnew | ].
    split; [intros j Hj; apply list_lookup_insert_ne; auto | ].
    split.
    + apply find_phone_elem_of. cbn [phones].
      apply list_elem_of_lookup. exists i. exact Hnew.
    + intros Hne Honce. apply find_phone_None, find_phone_slot_None.
      cbn [phones]. intros j r Hj.
      destruct (decide (j = i)) as [-> | Hji].
      * rewrite Hnew in Hj. injection Hj as <-. exact Hne.
      * rewrite list_lookup_insert_ne in Hj by auto.
        exact (Honce j r Hji Hj).
Qed.

Lemma edit_phone_replaces_in_place_witness :
  let r := mkRecord (mkField (lit "Ann"))
             [mkField (lit "3333333333"); mkField (lit "1111111111");
              mkField (lit "1111111111")] None in
  edit_phone (lit "9999999999") (lit "2222222222") r
  = (Raise (ValueError (MsgOldPhoneNotFound (lit "9999999999"))), r)
  /\ edit_phone (lit "1111111111") (lit " 2222222222") r
     = (Ok tt,
        mkRecord (mkField (lit "Ann"))
          [mkField (lit "3333333333"); mkField (lit "2222222222");
           mkField (lit "1111111111")] None).
Proof.
  intros r. split.
  - apply (proj1 (edit_phone_replaces_in_place r (lit "9999999999")
                    (lit "2222222222"))).
    intros p Hp. unfold r in Hp. cbn [phones] in Hp.
    rewrite !elem_of_cons, elem_of_nil in Hp.
    destruct Hp as [-> | [-> | [-> | []]]]; discriminate.
  - assert (Hold : exists p, p ∈ phones r /\ value p = lit "1111111111").
    { exists (mkField (lit "1111111111")). split; [ | reflexivity].
      right. left. }
    destruct (proj2 (proj2 (edit_phone_replaces_in_place r
                              (lit "1111111111") (lit " 2222222222")))
                (mkField (lit "2222222222")) Hold eq_refl)
      as (i & Hi & Hfirst & _ & Hedit & _).
    destruct i as [ | [ | i]].
    + discriminate Hi.
    + exact Hedit.
    + exfalso. apply (Hfirst 1%nat (mkField (lit "1111111111")));
        [lia | reflexivity | reflexivity].
Defined.

(** C8 as stated fails in two ways: after a successful edit with a new
    text that has a space in front, [find_phone] does not find the new text
    as it was given; and after an edit to the same number [find_phone]
    still finds the old text, stored once. *)
Lemma edit_phone_then_find_phone_can_disagree :
  let r := mkRecord (mkField (lit "Ann")) [mkField (lit "1111111111")] None in
  ((edit_phone (lit "1111111111") (lit " 2222222222") r).1 = Ok tt
   /\ find_phone (edit_phone (lit "1111111111") (lit " 2222222222") r).2
        (lit " 2222222222") = None)
  /\ ((edit_phone (lit "1111111111") (lit "1111111111") r).1 = Ok tt
      /\ find_phone (edit_phone (lit "1111111111") (lit "1111111111") r).2
           (lit "1111111111") = Some (mkField (lit "1111111111"))).
Proof. vm_compute. repeat split. Qed.

(* ===================================================================== *)
(** * list.sort: ordered, a permutation, stable *)
(* ===================================================================== *)

Section sorting.

Context {A : Type} (lt : A -> A -> bool).

Hypothesis lt_asym : forall a b, lt a b = true -> lt b a = false.
Hypothesis not_after_trans :
  forall a b c,
    not_after lt a b -> not_after lt b c -> not_after lt a c.

Lemma insert_by_perm (x : A) (l : list A) : insert_by lt x l ≡ₚ x :: l.
Proof.
  induction l as [ | y l IH]; cbn [insert_by]; [reflexivity | ].
  destruct (lt y x); [ | reflexivity].
  rewrite IH. apply perm_swap.
Qed.

Lemma stable_sort_perm (l : list A) : stable_sort lt l ≡ₚ l.
Proof.
  induction l as [ | x l IH]; [reflexivity | ].
  cbn [stable_sort foldr]. fold (stable_sort lt l).
  rewrite insert_by_perm, IH. reflexivity.
Qed.

Lemma insert_by_sorted (x : A) (l : list A) :
  StronglySorted (not_after lt) l -> StronglySorted (not_after lt) (insert_by lt x l).
Proof.
  induction 1 as [ | y l Hl IH Hy]; cbn [insert_by].
  - repeat constructor.
  - destruct (lt y x) eqn:E.
    + constructor; [exact IH | ].
      apply Forall_forall. intros z Hz.
      rewrite insert_by_perm in Hz.
      apply elem_of_cons in Hz. destruct Hz as [-> | Hz].
      * apply lt_asym, E.
      * rewrite Forall_forall in Hy. apply Hy, Hz.
    + constructor; [constructor; assumption | ].
      constructor; [exact E | ].
      eapply Forall_impl; [exact Hy | ].
      intros z Hz. exact (not_after_trans x y z E Hz).
Qed.

Lemma stable_sort_sorted (l : list A) :
  StronglySorted (not_after lt) (stable_sort lt l).
Proof.
  induction l as [ | x l IH]; [constructor | ].
  cbn [stable_sort foldr]. apply insert_by_sorted, IH.
Qed.

(** Elements of one class, none of them before another, keep their
    order. *)
Lemma insert_by_filter (P : A -> Prop) `{forall a, Decision (P a)}
    (x : A) (l : list A) :
  (forall a b, P a -> P b -> lt a b = false) ->
  filter P (insert_by lt x l) = filter P (x :: l).
Proof.
  intros Hclass. induction l as [ | y l IH]; cbn [insert_by]; [reflexivity | ].
  destruct (lt y x) eqn:E; [ | reflexivity].
  rewrite (filter_cons P y), IH, !(filter_cons P).
  destruct (decide (P y)) as [Hy | Hy], (decide (P x)) as [Hx | Hx];
    try reflexivity.
  rewrite (Hclass y x Hy Hx) in E. discriminate.
Qed.

Lemma stable_sort_filter (P : A -> Prop) `{forall a, Decision (P a)}
    (l : list A) :
  (forall a b, P a -> P b -> lt a b = false) ->
  filter P (stable_sort lt l) = filter P l.
Proof.
  intros Hclass. induction l as [ | x l IH]; [reflexivity | ].
  cbn [stable_sort foldr]. fold (stable_sort lt l).
  rewrite insert_by_filter by exact Hclass.
  rewrite !(filter_cons P), IH. reflexivity.
Qed.

End sorting.

Lemma mapM_Forall2 {A B} (f : A -> result B) (l : list A) (ys : list B) :
  mapM f l = Ok ys <-> Forall2 (fun x y => f x = Ok y) l ys.
Proof.
  revert ys. induction l as [ | x l IH]; intros ys; cbn [mapM].
  - split.
    + intros [= <-]. constructor.
    + intros Hf. inversion Hf. reflexivity.
  - split.
    + destruct (f x) as [y | e] eqn:Ex; [ | discriminate]. cbn [bind].
      destruct (mapM f l) as [ys' | e]; [ | discriminate]. cbn [bind].
      intros [= <-]. constructor; [exact Ex | ]. apply IH. reflexivity.
    + intros Hf. inversion Hf as [ | ? y ? ys' Hx Hrest]; subst.
      rewrite Hx. cbn [bind].
      rewrite (proj2 (IH ys') Hrest). reflexivity.
Qed.

Lemma decorate_spec {A K} (key : A -> result K) (l : list A)
    (keyed : list (K * A)) :
  decorate key l = Ok keyed ->
  snd <$> keyed = l /\ Forall (fun p => key p.2 = Ok p.1) keyed.
Proof.
  unfold decorate. rewrite mapM_Forall2.
  induction 1 as [ | x [k x'] l keyed Hx _ [IHl IHk]]; [split; constructor | ].
  destruct (key x) as [k' | ] eqn:Ek; [ | discriminate].
  cbn [bind] in Hx. injection Hx as -> ->.
  split; [cbn; f_equal; exact IHl | ].
  constructor; [exact Ek | exact IHk].
Qed.

Lemma filter_decorated {A K} `{EqDecision K} (key : A -> result K)
    (keyed : list (K * A)) (k : K) :
  Forall (fun p => key p.2 = Ok p.1) keyed ->
  snd <$> filter (fun p => p.1 = k) keyed
  = filter (fun x => key x = Ok k) (snd <$> keyed).
Proof.
  induction 1 as [ | [k' x] keyed Hx _ IH]; [reflexivity | ].
  cbn [fst snd] in Hx. rewrite fmap_cons, !filter_cons. cbn [fst snd].
  destruct (decide (k' = k)) as [-> | Hne].
  - rewrite decide_True by exact Hx. rewrite fmap_cons, IH. reflexivity.
  - rewrite decide_False by (rewrite Hx; congruence). exact IH.
Qed.

Lemma sorted_decorated {A K} (key : A -> result K) (lt : K -> K -> bool)
    (ps : list (K * A)) :
  StronglySorted (not_after (fun a b : K * A => lt a.1 b.1)) ps ->
  Forall (fun p => key p.2 = Ok p.1) ps ->
  StronglySorted
    (fun a b => exists ka kb, key a = Ok ka /\ key b = Ok kb
                              /\ lt kb ka = false) (snd <$> ps).
Proof.
  induction 1 as [ | p ps Hps IH Hp]; intros Hk; [constructor | ].
  apply Forall_cons in Hk. destruct Hk as [Hkp Hkps].
  rewrite fmap_cons. constructor; [apply IH, Hkps | ].
  apply Forall_fmap. rewrite Forall_forall in Hp, Hkps |- *.
  intros q Hq. exists p.1, q.1. split; [exact Hkp | ].
  split; [apply Hkps, Hq | apply Hp, Hq].
Qed.

(** [sort_by_key]: what it returns is a permutation of the list, in
    ascending order of the keys, with elements of equal key in the order
    they had. *)
Lemma sort_by_key_spec {A K} `{EqDecision K} (key : A -> result K)
    (lt : K -> K -> bool) (l res : list A) :
  (forall a b, lt a b = true -> lt b a = false) ->
  (forall a b c, lt b a = false -> lt c b = false -> lt c a = false) ->
  (forall a, lt a a = false) ->
  sort_by_key key lt l = Ok res ->
  res ≡ₚ l
  /\ StronglySorted
       (fun a b => exists ka kb, key a = Ok ka /\ key b = Ok kb
                                 /\ lt kb ka = false) res
  /\ (forall k, filter (fun x => key x = Ok k) res
                = filter (fun x => key x = Ok k) l).
Proof.
  intros Hasym Htrans Hirr. unfold sort_by_key.
  destruct (decorate key l) as [keyed | e] eqn:Ed; [ | discriminate].
  cbn [bind]. intros [= <-].
  apply decorate_spec in Ed. destruct Ed as [Hl Hk].
  set (ltp := fun a b : K * A => lt a.1 b.1).
  assert (Hperm : stable_sort ltp keyed ≡ₚ keyed) by apply stable_sort_perm.
  assert (Hk' : Forall (fun p => key p.2 = Ok p.1) (stable_sort ltp keyed)).
  { rewrite Hperm. exact Hk. }
  split; [rewrite Hperm, Hl; reflexivity | ]. split.
  - apply sorted_decorated; [ | exact Hk'].
    apply stable_sort_sorted.
    + intros a b. apply Hasym.
    + intros a b c. apply Htrans.
  - intros k. rewrite <- Hl.
    rewrite <- !(filter_decorated key) by assumption.
    f_equal. apply (stable_sort_filter ltp).
    intros a b Ha Hb. unfold ltp. rewrite Ha, Hb. apply Hirr.
Qed.

Lemma sort_by_key_returns {A K} (key : A -> result K)
    (lt : K -> K -> bool) (l : list A) :
  Forall (fun x => exists k, key x = Ok k) l ->
  exists res, sort_by_key key lt l = Ok res.
Proof.
  intros Hall. unfold sort_by_key.
  assert (Hd : exists keyed, decorate key l = Ok keyed).
  { unfold decorate. induction Hall as [ | x l [k Hx] _ [keyed IH]];
      cbn [mapM]; [eauto | ].
    rewrite Hx. cbn [bind]. rewrite IH. cbn [bind]. eauto. }
  destruct Hd as [keyed ->]. cbn [bind]. eauto.
Qed.

(* ===================================================================== *)
(** * get_upcoming_birthdays *)
(* ===================================================================== *)

Lemma date_ltb_asym (a b : date) : date_ltb a b = true -> date_ltb b a = false.
Proof. destruct a, b. unfold date_ltb. cbn [year month day]. lia. Qed.

Lemma date_ltb_irrefl (a : date) : date_ltb a a = false.
Proof. destruct a. unfold date_ltb. cbn [year month day]. lia. Qed.

Lemma date_not_after_trans (a b c : date) :
  date_ltb b a = false -> date_ltb c b = false -> date_ltb c a = false.
Proof. destruct a, b, c. unfold date_ltb. cbn [year month day]. lia. Qed.

Lemma strptime_valid (s : pystr) (dt : date) :
  strptime s = Ok dt -> valid_date dt = true.
Proof.
  intros Hp. apply strptime_ok_iff in Hp.
  destruct Hp as (? & ? & ? & ? & ? & ? & _ & _ & _ & _ & Hv & ->).
  exact Hv.
Qed.

Lemma StronglySorted_mono {A} (R1 R2 : A -> A -> Prop) (l : list A) :
  (forall a b, R1 a b -> R2 a b) ->
  StronglySorted R1 l -> StronglySorted R2 l.
Proof.
  intros Himp. induction 1 as [ | x l Hl IH Hx]; constructor.
  - exact IH.
  - eapply Forall_impl; [exact Hx | ]. intros y. apply Himp.
Qed.

Section upcoming.

Context `{libc : LibC}.

Lemma upcoming_entry_Some (today : date) (days : Z) (r : ContactRecord)
    (e : entry) :
  upcoming_entry today days r = Ok (Some e) <-> due today days r e.
Proof.
  unfold upcoming_entry, due. split.
  - destruct (birthday r) as [bd | ]; [ | discriminate].
    destruct (date_value bd) as [bday | ] eqn:Ebd; [ | discriminate].
    cbn [bind].
    destruct (birthday_this_year today bday) as [b | ] eqn:Eb;
      [ | discriminate].
    cbn [bind].
    destruct (congrat_date b) as [c | ] eqn:Ec; [ | discriminate].
    cbn [bind].
    destruct ((0 <=? date_sub_days c today) && (date_sub_days c today <=? days))
      eqn:Ew; [ | discriminate].
    intros [= <-]. exists bd, bday, b, c.
    repeat split; try reflexivity; try assumption; lia.
  - intros (bd & bday & b & c & -> & -> & Hb & Hc & Hw & ->).
    cbn [bind]. rewrite Hb. cbn [bind]. rewrite Hc. cbn [bind].
    replace ((0 <=? date_sub_days c today) && (date_sub_days c today <=? days))
      with true by lia.
    reflexivity.
Qed.

Lemma upcoming_entry_no_birthday (today : date) (days : Z)
    (r : ContactRecord) :
  birthday r = None -> upcoming_entry today days r = Ok None.
Proof. unfold upcoming_entry. intros ->. reflexivity. Qed.

(** The loop appends, in the order of the records, the entries of those
    that are due. *)
Lemma upcoming_loop_spec (today : date) (days : Z)
    (records : list ContactRecord) (upcoming : list entry) :
  upcoming_loop today days records upcoming
  = let! os := mapM (upcoming_entry today days) records in
    Ok (upcoming ++ omap id os).
Proof.
  revert upcoming. induction records as [ | r rs IH]; intros upcoming;
    cbn [upcoming_loop mapM bind].
  - rewrite app_nil_r. reflexivity.
  - destruct (upcoming_entry today days r) as [o | e]; [ | reflexivity].
    cbn [bind]. rewrite IH.
    destruct (mapM (upcoming_entry today days) rs) as [os | e];
      [ | reflexivity].
    cbn [bind]. destruct o as [x | ]; cbn [omap id].
    + rewrite <- app_assoc. reflexivity.
    + reflexivity.
Qed.

Lemma Forall2_omap_elem_of {A B} (f : A -> result (option B))
    (l : list A) (os : list (option B)) (e : B) :
  Forall2 (fun x o => f x = Ok o) l os ->
  e ∈ omap id os <-> exists x, x ∈ l /\ f x = Ok (Some e).
Proof.
  induction 1 as [ | x o l os Hx _ IH].
  - cbn. rewrite elem_of_nil. split; [contradiction | ].
    intros (x & Hin & _). apply elem_of_nil in Hin. contradiction.
  - destruct o as [e' | ]; cbn.
    + rewrite elem_of_cons, IH. split.
      * intros [-> | (x' & Hin & Hf)].
        -- exists x. split; [left | exact Hx].
        -- exists x'. split; [right; exact Hin | exact Hf].
      * intros (x' & Hin & Hf). apply elem_of_cons in Hin.
        destruct Hin as [-> | Hin].
        -- left. congruence.
        -- right. eauto.
    + rewrite IH. split.
      * intros (x' & Hin & Hf). exists x'. split; [right; exact Hin | exact Hf].
      * intros (x' & Hin & Hf). apply elem_of_cons in Hin.
        destruct Hin as [-> | Hin]; [congruence | eauto].
Qed.

Lemma upcoming_loop_elem_of (today : date) (days : Z)
    (records : list ContactRecord) (upcoming : list entry) (e : entry) :
  upcoming_loop today days records [] = Ok upcoming ->
  e ∈ upcoming <-> exists r, r ∈ records /\ due today days r e.
Proof.
  rewrite upcoming_loop_spec.
  destruct (mapM (upcoming_entry today days) records) as [os | ] eqn:Em;
    [ | discriminate].
  cbn [bind app]. intros [= <-]. apply mapM_Forall2 in Em.
  rewrite (Forall2_omap_elem_of _ _ _ _ Em).
  setoid_rewrite upcoming_entry_Some. reflexivity.
Qed.

(** The two steps of [get_upcoming_birthdays]. *)
Lemma get_upcoming_birthdays_inv (today : date) (book : AddressBook)
    (days : Z) (res : list entry) :
  get_upcoming_birthdays today book days = Ok res ->
  exists upcoming,
    upcoming_loop today days (values book) [] = Ok upcoming
    /\ sort_by_key sort_key date_ltb upcoming = Ok res.
Proof.
  unfold get_upcoming_birthdays.
  destruct (upcoming_loop today days (values book) []) as [upcoming | ];
    [ | discriminate].
  cbn [bind]. eauto.
Qed.

Lemma sort_entries_spec (upcoming res : list entry) :
  sort_by_key sort_key date_ltb upcoming = Ok res ->
  res ≡ₚ upcoming
  /\ StronglySorted
       (fun a b => exists ka kb, sort_key a = Ok ka /\ sort_key b = Ok kb
                                 /\ date_ltb kb ka = false) res
  /\ (forall d, filter (fun x => sort_key x = Ok d) res
                = filter (fun x => sort_key x = Ok d) upcoming).
Proof.
  apply sort_by_key_spec.
  - apply date_ltb_asym.
  - apply date_not_after_trans.
  - apply date_ltb_irrefl.
Qed.

(** What is reported for a record that is due, when the year is written
    with four digits. *)
Lemma due_entry_format (today : date) (days : Z) (r : ContactRecord)
    (e : entry) :
  valid_date today = true ->
  strftime_Y_zero_fill = true \/ 1000 <= year today ->
  due today days r e ->
  exists c, valid_date c = true
            /\ e = mkEntry (value (name r)) (DD_MM_YYYY c)
            /\ sort_key e = Ok c
            /\ 0 <= toordinal c - toordinal today <= days.
Proof.
  intros Ht Hfill (bd & bday & b & c & _ & Hbd & Hb & Hc & Hw & ->).
  apply strptime_valid in Hbd.
  destruct (birthday_this_year_inv _ _ _ Ht Hbd Hb) as [Hvb Hyb].
  destruct (congrat_date_ok b Hvb) as (c' & Hc' & Hvc & Hord).
  rewrite Hc in Hc'. injection Hc' as <-.
  pose proof (toordinal_year_mono b c Hvb Hvc Hord) as Hyc.
  exists c. split; [exact Hvc | ].
  assert (Hfmt : strftime c = DD_MM_YYYY c).
  { apply strftime_DD_MM_YYYY. apply valid_date_iff in Hvc.
    destruct Hfill; [auto | right; lia]. }
  rewrite Hfmt. split; [reflexivity | ].
  split; [ | exact Hw].
  unfold sort_key. cbn [congratulation_date].
  apply strptime_DD_MM_YYYY, Hvc.
Qed.

Lemma upcoming_entry_returns (today : date) (days : Z) (r : ContactRecord) :
  valid_date today = true -> year today < 9999 ->
  (forall bd, birthday r = Some bd ->
     exists dt, valid_date dt = true /\ value bd = DD_MM_YYYY dt) ->
  exists o, upcoming_entry today days r = Ok o.
Proof.
  intros Ht Hlast Hstored. unfold upcoming_entry.
  destruct (birthday r) as [bd | ]; [ | eauto].
  destruct (Hstored bd eq_refl) as (dt & Hv & Hval).
  unfold date_value. rewrite Hval, (strptime_DD_MM_YYYY dt Hv). cbn [bind].
  destruct (birthday_this_year_ok today dt Ht Hv Hlast) as [b Hb].
  rewrite Hb. cbn [bind].
  destruct (birthday_this_year_inv _ _ _ Ht Hv Hb) as [Hvb _].
  destruct (congrat_date_ok b Hvb) as (c & -> & _). cbn [bind].
  destruct (_ && _); eauto.
Qed.

Lemma mapM_returns {A B} (f : A -> result B) (l : list A) :
  (forall x, x ∈ l -> exists y, f x = Ok y) ->
  exists ys, mapM f l = Ok ys.
Proof.
  induction l as [ | x l IH]; intros Hall; cbn [mapM]; [eauto | ].
  destruct (Hall x) as [y ->]; [left | ]. cbn [bind].
  destruct IH as [ys ->]; [ | cbn [bind]; eauto].
  intros x' Hx'. apply Hall. right. exact Hx'.
Qed.

(** The call returns for a book whose birthdays are stored as DD.MM.YYYY,
    on any day of a year before 9999 (of a year from 1000 on where the
    library does not fill the year). *)
Lemma get_upcoming_birthdays_returns (today : date) (book : AddressBook)
    (days : Z) :
  valid_date today = true -> year today < 9999 ->
  strftime_Y_zero_fill = true \/ 1000 <= year today ->
  stored_as_DD_MM_YYYY book ->
  exists res, get_upcoming_birthdays today book days = Ok res.
Proof.
  intros Ht Hlast Hfill Hstored. unfold get_upcoming_birthdays.
  destruct (mapM_returns (upcoming_entry today days) (values book))
    as [os Hos].
  { intros r Hr. apply upcoming_entry_returns; try assumption.
    intros bd Hbd. exact (Hstored r bd Hr Hbd). }
  assert (Hloop : upcoming_loop today days (values book) []
                  = Ok (omap id os)).
  { rewrite upcoming_loop_spec, Hos. reflexivity. }
  rewrite Hloop. cbn [bind]. apply sort_by_key_returns.
  apply Forall_forall. intros e He.
  apply (upcoming_loop_elem_of _ _ _ _ e Hloop) in He.
  destruct He as (r & _ & Hdue).
  destruct (due_entry_format _ _ _ _ Ht Hfill Hdue) as (c & _ & _ & Hk & _).
  eauto.
Qed.

End upcoming.

(* ===================================================================== *)
(** * The order of the upcoming birthdays *)
(* ===================================================================== *)

(** A numeral has one value. *)
Lemma day_token_fun (t : pystr) (n n' : Z) :
  day_token t n -> day_token t n' -> n = n'.
Proof.
  intros [H1 | (c & _ & -> & ->)] [H2 | (c' & _ & E & ->)].
  - destruct H1; inversion H2; subst; try lia; congruence.
  - subst t. inversion H1; subst; lia.
  - inversion H2; subst; lia.
  - injection E as <-. reflexivity.
Qed.

Lemma month_numeral_fun (t : pystr) (n n' : Z) :
  month_numeral t n -> month_numeral t n' -> n = n'.
Proof. intros H1 H2. destruct H1; inversion H2; subst; lia. Qed.

Lemma year_numeral_fun (t : pystr) (n n' : Z) :
  year_numeral t n -> year_numeral t n' -> n = n'.
Proof. intros H1 H2. destruct H1; inversion H2; subst. congruence. Qed.

(** Below 1000 the numeral of the year, not filled, has fewer than four
    digits. *)
Lemma decimal_short (y : Z) :
  1 <= y < 1000 -> (length (decimal y) < 4)%nat.
Proof.
  intros Hy.
  assert (Hall : forallb (fun n => (length (decimal (Z.of_nat n)) <? 4)%nat)
                   (seq 1 999) = true) by (vm_compute; reflexivity).
  rewrite forallb_forall in Hall.
  specialize (Hall (Z.to_nat y)).
  rewrite Z2Nat.id in Hall by lia. apply Nat.ltb_lt, Hall.
  apply in_seq. lia.
Qed.

Section sorted.

Context `{libc : LibC}.

(** [strptime] reads what [strftime] wrote as the date written, where it
    reads it at all. *)
Lemma strptime_strftime_inv (c k : date) :
  valid_date c = true -> strptime (strftime c) = Ok k -> k = c.
Proof.
  intros Hv Hk. apply strptime_ok_iff in Hk.
  destruct Hk as (d & m & Y & dd & mm & yy & E & Hd & Hm & HY & _ & ->).
  pose proof Hv as Hv'. apply valid_date_iff in Hv'.
  destruct Hv' as (Hy & Hmo & Hda).
  pose proof (days_in_month_bounds (year c) (month c) Hmo) as Hdim.
  assert (Hd0 : day_token (two_digits (day c)) (day c))
    by (left; apply two_digits_day; lia).
  assert (Hm0 : month_numeral (two_digits (month c)) (month c))
    by (apply two_digits_month; lia).
  unfold strftime in E. cbn [app] in E.
  apply cut_at_dot in E;
    [ | eapply day_token_no_dot; eassumption
      | eapply day_token_no_dot; eassumption ].
  destruct E as [<- E].
  apply cut_at_dot in E;
    [ | eapply month_numeral_no_dot; eassumption
      | eapply month_numeral_no_dot; eassumption ].
  destruct E as [<- E].
  rewrite (day_token_fun _ _ _ Hd Hd0), (month_numeral_fun _ _ _ Hm Hm0).
  assert (Eyy : yy = year c).
  { destruct strftime_Y_zero_fill.
    - subst Y. apply (year_numeral_fun _ _ _ HY), four_digits_year. lia.
    - destruct (Z_lt_le_dec (year c) 1000) as [Hshort | Hlong].
      + pose proof (decimal_short (year c) ltac:(lia)) as Hlen.
        rewrite E, (year_numeral_length _ _ HY) in Hlen. lia.
      + rewrite decimal_four_digits in E by lia. subst Y.
        apply (year_numeral_fun _ _ _ HY), four_digits_year. lia. }
  rewrite Eyy. destruct c. reflexivity.
Qed.

Lemma safe_birthday_valid (bday b : date) (y : Z) :
  _safe_birthday_for_year bday y = Ok b -> valid_date b = true.
Proof.
  unfold _safe_birthday_for_year, replace_year, try_except.
  destruct (date_new y (month bday) (day bday)) as [b' | e] eqn:E.
  - intros [= <-]. apply (date_new_inv _ _ _ _ E).
  - destruct (is_ValueError e); [ | discriminate].
    intros E'. apply (date_new_inv _ _ _ _ E').
Qed.

Lemma congratulated_on_valid (today : date) (days : Z) (r : ContactRecord)
    (c : date) :
  congratulated_on today days r c -> valid_date c = true.
Proof.
  intros (bd & bday & b & _ & _ & Hb & Hc & _).
  assert (Hvb : valid_date b = true).
  { unfold birthday_this_year in Hb.
    destruct (_safe_birthday_for_year bday (year today)) as [b0 | ] eqn:E0;
      [ | discriminate].
    cbn [bind] in Hb. destruct (date_ltb b0 today).
    - exact (safe_birthday_valid _ _ _ Hb).
    - injection Hb as <-. exact (safe_birthday_valid _ _ _ E0). }
  destruct (congrat_date_ok b Hvb) as (c' & Hc' & Hvc & _).
  congruence.
Qed.

(** What the loop builds: one entry for each record that is due, in the
    order of the records. *)
Lemma upcoming_loop_dated (today : date) (days : Z)
    (records : list ContactRecord) (upcoming : list entry) :
  upcoming_loop today days records [] = Ok upcoming ->
  exists by_book : list (ContactRecord * date),
    by_book.*1 `sublist_of` records
    /\ Forall (fun rc => congratulated_on today days rc.1 rc.2) by_book
    /\ upcoming = entry_of <$> by_book.
Proof.
  rewrite upcoming_loop_spec.
  destruct (mapM (upcoming_entry today days) records) as [os | ] eqn:Em;
    [ | discriminate].
  cbn [bind app]. intros [= <-]. apply mapM_Forall2 in Em.
  induction Em as [ | r o rs os Hr _ (by_book & Hsub & Hall & E)].
  - exists []. split; [reflexivity | ]. split; constructor.
  - destruct o as [e | ]; cbn [omap id].
    + apply upcoming_entry_Some in Hr.
      destruct Hr as (bd & bday & b & c & H1 & H2 & H3 & H4 & H5 & ->).
      exists ((r, c) :: by_book). split; [ | split].
      * rewrite fmap_cons. apply sublist_skip, Hsub.
      * constructor; [ | exact Hall]. exists bd, bday, b. auto.
      * rewrite fmap_cons, <- E. reflexivity.
    + exists by_book. split; [ | auto].
      apply sublist_cons, Hsub.
Qed.

(** The keys [list.sort] computes for these entries are their
    congratulation dates. *)
Lemma decorate_dated (today : date) (days : Z)
    (by_book : list (ContactRecord * date)) (keyed : list (date * entry)) :
  Forall (fun rc => congratulated_on today days rc.1 rc.2) by_book ->
  decorate sort_key (entry_of <$> by_book) = Ok keyed ->
  keyed = (fun rc => (rc.2, entry_of rc)) <$> by_book.
Proof.
  unfold decorate. intros Hall. revert keyed.
  induction Hall as [ | rc by_book Hrc _ IH]; intros keyed;
    cbn [fmap list_fmap mapM]; [intros [= <-]; reflexivity | ].
  destruct (sort_key (entry_of rc)) as [k | ] eqn:Ek; [ | discriminate].
  cbn [bind].
  match goal with
  | |- context [mapM ?f ?l] => destruct (mapM f l) as [ks | ] eqn:Em
  end; [ | discriminate].
  cbn [bind]. intros [= <-]. rewrite (IH ks eq_refl). f_equal. f_equal.
  unfold sort_key, entry_of in Ek. cbn [congratulation_date] in Ek.
  exact (strptime_strftime_inv _ _ (congratulated_on_valid _ _ _ _ Hrc) Ek).
Qed.

End sorted.

(** Sorting commutes with a map that keeps the order. *)
Lemma insert_by_fmap {A B} (f : A -> B) (lt : A -> A -> bool)
    (lt' : B -> B -> bool) (x : A) (l : list A) :
  (forall a b, lt' (f a) (f b) = lt a b) ->
  insert_by lt' (f x) (f <$> l) = f <$> insert_by lt x l.
Proof.
  intros Hlt. induction l as [ | y l IH]; [reflexivity | ].
  cbn [fmap list_fmap insert_by]. rewrite Hlt.
  destruct (lt y x); [ | reflexivity].
  cbn [fmap list_fmap]. f_equal. exact IH.
Qed.

Lemma stable_sort_fmap {A B} (f : A -> B) (lt : A -> A -> bool)
    (lt' : B -> B -> bool) (l : list A) :
  (forall a b, lt' (f a) (f b) = lt a b) ->
  stable_sort lt' (f <$> l) = f <$> stable_sort lt l.
Proof.
  intros Hlt. induction l as [ | x l IH]; [reflexivity | ].
  cbn [fmap list_fmap stable_sort foldr].
  fold (stable_sort lt' (f <$> l)). fold (stable_sort lt l).
  rewrite IH. apply insert_by_fmap, Hlt.
Qed.

Lemma StronglySorted_impl_Forall {A} (P : A -> Prop) (R1 R2 : A -> A -> Prop)
    (l : list A) :
  Forall P l ->
  (forall a b, P a -> P b -> R1 a b -> R2 a b) ->
  StronglySorted R1 l -> StronglySorted R2 l.
Proof.
  intros HP Himpl Hs. induction Hs as [ | a l Hl IH Ha]; [constructor | ].
  apply Forall_cons in HP. destruct HP as [HPa HPl].
  constructor; [exact (IH HPl) | ].
  rewrite Forall_forall in Ha, HPl |- *. intros b Hb.
  apply Himpl; auto.
Qed.

(** C4, as the code has it.  When the call returns, its entries are those
    of the records that are due: records with a birthday whose
    congratulation date lies [delta] days after [today] with
    [0 <= delta <= days], each entry made of the name of the record and the
    congratulation date written by [strftime]; a record without birthday
    adds nothing, and a negative window gives the empty list.  The call
    returns whenever the birthdays are stored as DD.MM.YYYY and the year of
    [today] is before 9999 (and from 1000 on where the C library does not
    fill the year), and the dates of its entries are then written
    DD.MM.YYYY. *)
Theorem upcoming_birthdays_are_the_due_records `{libc : LibC}
    (today : date) (book : AddressBook) (days : Z) :
  valid_date today = true ->
  (forall res : list entry,
     get_upcoming_birthdays today book days = Ok res ->
     (forall e : entry,
        e ∈ res <-> exists r, r ∈ values book /\ due today days r e)
     /\ (days < 0 -> res = []))
  /\ (forall r : ContactRecord,
        birthday r = None ->
        upcoming_entry today days r = Ok None
        /\ forall e, ~ due today days r e)
  /\ (year today < 9999 ->
      strftime_Y_zero_fill = true \/ 1000 <= year today ->
      stored_as_DD_MM_YYYY book ->
      exists res : list entry,
        get_upcoming_birthdays today book days = Ok res
        /\ forall e : entry,
             e ∈ res ->
             exists (r : ContactRecord) (c : date),
               r ∈ values book /\ valid_date c = true
               /\ 0 <= toordinal c - toordinal today <= days
               /\ e = mkEntry (value (name r)) (DD_MM_YYYY c)).
Proof.
  intros Ht.
  assert (Hmem : forall res,
            get_upcoming_birthdays today book days = Ok res ->
            forall e, e ∈ res <->
                      exists r, r ∈ values book /\ due today days r e).
  { intros res Hres e. apply get_upcoming_birthdays_inv in Hres.
    destruct Hres as (upcoming & Hloop & Hsort).
    apply sort_entries_spec in Hsort. destruct Hsort as (Hperm & _).
    rewrite Hperm. apply (upcoming_loop_elem_of _ _ _ _ e Hloop). }
  split; [ | split].
  - intros res Hres. split; [exact (Hmem res Hres) | ].
    intros Hneg. destruct res as [ | e res']; [reflexivity | ].
    assert (He : e ∈ e :: res') by left.
    apply (Hmem _ Hres) in He.
    destruct He as (r & _ & bd & bday & b & c & _ & _ & _ & _ & Hw & _).
    lia.
  - intros r Hnone. split; [apply upcoming_entry_no_birthday, Hnone | ].
    intros e (bd & ? & ? & ? & Hbd & _). congruence.
  - intros Hlast Hfill Hstored.
    destruct (get_upcoming_birthdays_returns today book days
                Ht Hlast Hfill Hstored) as [res Hres].
    exists res. split; [exact Hres | ].
    intros e He. apply (Hmem _ Hres) in He. destruct He as (r & Hr & Hdue).
    destruct (due_entry_format _ _ _ _ Ht Hfill Hdue)
      as (c & Hvc & He & _ & Hw).
    exists r, c. auto.
Qed.

Lemma upcoming_birthdays_are_the_due_records_witness :
  exists res : list entry,
    @get_upcoming_birthdays glibc (mkdate 2025 1 1) sample_book 7 = Ok res
    /\ forall e : entry,
         e ∈ res ->
         exists (r : ContactRecord) (c : date),
           r ∈ values sample_book /\ valid_date c = true
           /\ 0 <= toordinal c - toordinal (mkdate 2025 1 1) <= 7
           /\ e = mkEntry (value (name r)) (DD_MM_YYYY c).
Proof.
  apply (@upcoming_birthdays_are_the_due_records glibc (mkdate 2025 1 1)
           sample_book 7 eq_refl).
  - reflexivity.
  - right. cbn. lia.
  - intros r bd Hr Hbd. unfold sample_book, values in Hr.
    rewrite !fmap_cons, fmap_nil in Hr. cbn [snd] in Hr.
    rewrite !elem_of_cons, elem_of_nil in Hr.
    destruct Hr as [-> | [-> | []]]; cbn [birthday] in Hbd;
      injection Hbd as <-.
    + exists (mkdate 1990 1 3). split; reflexivity.
    + exists (mkdate 1985 1 1). split; reflexivity.
Defined.

(** C4 as stated fails: on 2 January 9999 a birthday of 1 January has
    passed, the occurrence is looked for in the year 10000, which no date
    can hold, and the call raises ValueError. *)
Lemma upcoming_birthdays_raise_in_the_last_year :
  let book := [(lit "Ann", record_with_birthday "Ann" "01.01.1990")] in
  valid_date (mkdate 9999 1 2) = true
  /\ (forall r bd, r ∈ values book -> birthday r = Some bd ->
        @Birthday glibc (lit "01.01.1990") = Ok bd
        /\ @Birthday zero_filling_libc (lit "01.01.1990") = Ok bd)
  /\ @get_upcoming_birthdays glibc (mkdate 9999 1 2) book 7
     = Raise (ValueError MsgYearRange)
  /\ @get_upcoming_birthdays zero_filling_libc (mkdate 9999 1 2) book 7
     = Raise (ValueError MsgYearRange).
Proof.
  cbv zeta. split; [reflexivity | ]. split; [ | split; vm_compute; reflexivity].
  intros r bd Hr Hbd. unfold values in Hr.
  rewrite fmap_cons, fmap_nil in Hr. cbn [snd] in Hr.
  apply list_elem_of_singleton in Hr. subst r. cbn [birthday] in Hbd.
  injection Hbd as <-. split; vm_compute; reflexivity.
Qed.

(** C5.  The entries returned are those of the records that are due, each
    with the congratulation date the loop computed for it, in ascending
    order of these dates; records congratulated on the same date keep the
    order they have in the book, which is the order of the list the loop
    builds, so the order of the result is fixed by the book, the window and
    [today].  The call returns under the conditions of C4.  With Ann
    (03.01) stored before Bob (01.01) the answer on 01.01.2025 is Bob, then
    Ann; Zed (04.01, a Saturday) and Amy (06.01) are both congratulated on
    06.01.2025 and stay in the order of the book. *)
Theorem upcoming_birthdays_are_sorted_by_date `{libc : LibC} :
  (forall (today : date) (book : AddressBook) (days : Z) (res : list entry),
     get_upcoming_birthdays today book days = Ok res ->
     exists by_book by_date : list (ContactRecord * date),
       by_book.*1 `sublist_of` values book
       /\ Forall (fun rc => congratulated_on today days rc.1 rc.2) by_book
       /\ upcoming_loop today days (values book) []
          = Ok (entry_of <$> by_book)
       /\ res = entry_of <$> by_date
       /\ by_date ≡ₚ by_book
       /\ StronglySorted
            (fun x y => toordinal x.2 <= toordinal y.2) by_date
       /\ (forall d : date,
             filter (fun x => x.2 = d) by_date
             = filter (fun x => x.2 = d) by_book))
  /\ (forall (today : date) (book : AddressBook) (days : Z),
        valid_date today = true -> year today < 9999 ->
        strftime_Y_zero_fill = true \/ 1000 <= year today ->
        stored_as_DD_MM_YYYY book ->
        exists res, get_upcoming_birthdays today book days = Ok res)
  /\ get_upcoming_birthdays (mkdate 2025 1 1) sample_book 7
     = Ok [mkEntry (lit "Bob") (lit "01.01.2025");
           mkEntry (lit "Ann") (lit "03.01.2025")]
  /\ get_upcoming_birthdays (mkdate 2025 1 1) tie_book 7
     = Ok [mkEntry (lit "Zed") (lit "06.01.2025");
           mkEntry (lit "Amy") (lit "06.01.2025")].
Proof.
  split; [ | split; [ | split]].
  - intros today book days res Hres.
    apply get_upcoming_birthdays_inv in Hres.
    destruct Hres as (upcoming & Hloop & Hsort).
    destruct (upcoming_loop_dated _ _ _ _ Hloop) as (by_book & Hsub & Hall & ->).
    unfold sort_by_key in Hsort.
    destruct (decorate sort_key (entry_of <$> by_book)) as [keyed | ] eqn:Ek;
      [ | discriminate].
    cbn [bind] in Hsort. injection Hsort as <-.
    rewrite (decorate_dated _ _ _ _ Hall Ek).
    set (lt := fun a b : ContactRecord * date => date_ltb a.2 b.2).
    rewrite (stable_sort_fmap (fun rc => (rc.2, entry_of rc)) lt)
      by reflexivity.
    exists by_book, (stable_sort lt by_book).
    assert (Hperm : stable_sort lt by_book ≡ₚ by_book)
      by apply stable_sort_perm.
    split; [exact Hsub | ]. split; [exact Hall | ]. split; [exact Hloop | ].
    split; [rewrite <- list_fmap_compose; reflexivity | ].
    split; [exact Hperm | ]. split.
    + apply (StronglySorted_impl_Forall
               (fun rc => valid_date rc.2 = true) (not_after lt)).
      * rewrite Hperm. eapply Forall_impl; [exact Hall | ].
        intros rc. apply congratulated_on_valid.
      * intros a b Ha Hb Hab. unfold not_after, lt in Hab.
        destruct (Z_le_gt_dec (toordinal a.2) (toordinal b.2)) as [ | Hgt];
          [assumption | ].
        assert (Hlt : date_ltb b.2 a.2 = true)
          by (apply date_ltb_chronological; [assumption.. | lia]).
        congruence.
      * apply stable_sort_sorted.
        -- intros a b. apply date_ltb_asym.
        -- intros a b c. apply date_not_after_trans.
    + intros d. apply stable_sort_filter.
      intros a b Ha Hb. unfold lt. cbv beta. rewrite Ha, Hb.
      apply date_ltb_irrefl.
  - intros today book days. apply get_upcoming_birthdays_returns.
  - destruct libc as [[]]; vm_compute; reflexivity.
  - destruct libc as [[]]; vm_compute; reflexivity.
Qed.

Lemma upcoming_birthdays_are_sorted_by_date_witness :
  exists by_book by_date : list (ContactRecord * date),
    by_book.*1 `sublist_of` values sample_book
    /\ Forall (fun rc => congratulated_on (mkdate 2025 1 1) 7 rc.1 rc.2)
              by_book
    /\ @upcoming_loop glibc (mkdate 2025 1 1) 7 (values sample_book) []
       = Ok (@entry_of glibc <$> by_book)
    /\ [mkEntry (lit "Bob") (lit "01.01.2025");
        mkEntry (lit "Ann") (lit "03.01.2025")] = @entry_of glibc <$> by_date
    /\ by_date ≡ₚ by_book
    /\ StronglySorted (fun x y => toordinal x.2 <= toordinal y.2) by_date
    /\ (forall d : date,
          filter (fun x => x.2 = d) by_date
          = filter (fun x => x.2 = d) by_book).
Proof.
  apply (proj1 (@upcoming_birthdays_are_sorted_by_date glibc)
           (mkdate 2025 1 1) sample_book 7).
  vm_compute. reflexivity.
Defined.

(* ===================================================================== *)
(** * Further properties: the fields *)
(* ===================================================================== *)

Lemma lstrip_lstrip (s : pystr) : lstrip (lstrip s) = lstrip s.
Proof.
  induction s as [ | c s IH]; [reflexivity | ]. cbn [lstrip].
  destruct (isspace_char c) eqn:Ec; [exact IH | ].
  cbn [lstrip]. rewrite Ec. reflexivity.
Qed.

Lemma rstrip_rstrip (s : pystr) : rstrip (rstrip s) = rstrip s.
Proof. unfold rstrip. rewrite rev_involutive, lstrip_lstrip. reflexivity. Qed.

Lemma lstrip_rstrip_lstrip (s : pystr) :
  lstrip (rstrip (lstrip s)) = rstrip (lstrip s).
Proof.
  destruct (lstrip s) as [ | c t] eqn:E; [reflexivity | ].
  pose proof (lstrip_head _ _ _ E) as Hc.
  rewrite (rstrip_cons _ _ Hc). cbn [lstrip]. rewrite Hc. reflexivity.
Qed.

(** Trimming twice is trimming once. *)
Lemma strip_strip (s : pystr) : strip (strip s) = strip s.
Proof.
  unfold strip. rewrite lstrip_rstrip_lstrip. apply rstrip_rstrip.
Qed.

Lemma lstrip_all_space (s : pystr) :
  Forall (fun c => isspace_char c = true) s -> lstrip s = [].
Proof. induction 1 as [ | c s Hc _ IH]; cbn [lstrip]; [ | rewrite Hc]; auto. Qed.

Lemma lstrip_nil_all_space (s : pystr) :
  lstrip s = [] -> Forall (fun c => isspace_char c = true) s.
Proof.
  induction s as [ | c s IH]; [constructor | ]. cbn [lstrip].
  destruct (isspace_char c) eqn:Ec; [ | discriminate].
  intros E. constructor; [exact Ec | exact (IH E)].
Qed.

(** The strings that trim to nothing are those made of whitespace. *)
Lemma strip_nil_iff (s : pystr) :
  strip s = [] <-> Forall (fun c => isspace_char c = true) s.
Proof.
  split.
  - unfold strip. intros E. destruct (lstrip s) as [ | c t] eqn:El.
    + apply lstrip_nil_all_space, El.
    + rewrite (rstrip_cons _ _ (lstrip_head _ _ _ El)) in E. discriminate.
  - intros Hs. unfold strip. rewrite (lstrip_all_space s Hs). reflexivity.
Qed.

Lemma Name_ok_field (s : pystr) (n : Field) :
  Name s = Ok n -> value n = strip s /\ name_ok n.
Proof.
  unfold Name. case_bool_decide as E; [discriminate | ].
  intros [= <-]. split; [reflexivity | ].
  unfold name_ok, Name. cbn [value]. rewrite strip_strip.
  rewrite bool_decide_eq_false_2 by exact E. reflexivity.
Qed.

(** X1.  [Name] accepts exactly the strings that are not made of whitespace
    only (the empty string included among the refused), stores the trimmed
    string, and accepts what it stored as it is. *)
Theorem name_is_the_trimmed_nonblank_text (s : pystr) :
  (Forall (fun c => isspace_char c = true) s ->
   Name s = Raise (ValueError MsgNameEmpty))
  /\ (~ Forall (fun c => isspace_char c = true) s ->
      Name s = Ok (mkField (strip s))
      /\ strip s <> []
      /\ Name (strip s) = Ok (mkField (strip s)))
  /\ (forall n : Field, Name s = Ok n -> value n = strip s /\ name_ok n).
Proof.
  assert (Hcases : (strip s = [] /\ Name s = Raise (ValueError MsgNameEmpty))
                   \/ (strip s <> [] /\ Name s = Ok (mkField (strip s)))).
  { unfold Name. case_bool_decide as E; [left | right]; auto. }
  assert (Hfix : strip s <> [] ->
                 Name (strip s) = Ok (mkField (strip s))).
  { intros Hne. unfold Name. rewrite strip_strip.
    rewrite bool_decide_eq_false_2 by exact Hne. reflexivity. }
  split; [ | split].
  - intros Hs. apply strip_nil_iff in Hs.
    destruct Hcases as [[_ ->] | [Hne _]]; [reflexivity | contradiction].
  - intros Hs. rewrite <- strip_nil_iff in Hs.
    destruct Hcases as [[E _] | [Hne ->]]; [contradiction | auto].
  - apply Name_ok_field.
Qed.

Lemma name_is_the_trimmed_nonblank_text_witness :
  Name (lit "  Ann Lee ") = Ok (mkField (lit "Ann Lee"))
  /\ Name [32; 9; 32] = Raise (ValueError MsgNameEmpty).
Proof.
  split.
  - refine (proj1 (proj1 (proj2 (name_is_the_trimmed_nonblank_text
                                   (lit "  Ann Lee "))) _)).
    intros Hs. apply Forall_inv_tail, Forall_inv_tail, Forall_inv in Hs.
    vm_compute in Hs. discriminate.
  - apply (proj1 (name_is_the_trimmed_nonblank_text [32; 9; 32])).
    repeat constructor.
Defined.

Lemma Phone_strip (s : pystr) : Phone (strip s) = Phone s.
Proof. unfold Phone. rewrite strip_strip. reflexivity. Qed.

Lemma Phone_ok_field (s : pystr) (p : Field) : Phone s = Ok p -> phone_ok p.
Proof.
  intros Hp. destruct (Phone_cases s) as [(_ & _ & Hok) | (_ & Hr)];
    [ | congruence].
  rewrite Hok in Hp. injection Hp as <-.
  unfold phone_ok. cbn [value]. rewrite Phone_strip. exact Hok.
Qed.

(** X2.  [Phone] does not depend on the whitespace around its argument, and
    a stored phone is a fixed point of [Phone]: validating the stored value
    again gives the same phone; the stored value holds no whitespace. *)
Theorem phone_is_normalised (s : pystr) :
  Phone (strip s) = Phone s
  /\ (forall p : Field,
        Phone s = Ok p ->
        phone_ok p
        /\ Forall (fun c => isspace_char c = false) (value p)
        /\ length (value p) = 10%nat).
Proof.
  split; [apply Phone_strip | ].
  intros p Hp. split; [exact (Phone_ok_field s p Hp) | ].
  destruct (Phone_cases s) as [(Hl & Hd & Hok) | (_ & Hr)];
    [ | congruence].
  rewrite Hok in Hp. injection Hp as <-. cbn [value].
  split; [ | exact Hl].
  rewrite forallb_forall in Hd. apply Forall_forall. intros c Hc.
  apply isdigit_not_space, Hd, list_elem_of_In, Hc.
Qed.

Lemma phone_is_normalised_witness :
  phone_ok (mkField (lit "0501234567"))
  /\ Forall (fun c => isspace_char c = false) (lit "0501234567")
  /\ length (lit "0501234567") = 10%nat.
Proof.
  apply (proj2 (phone_is_normalised (lit " 0501234567 "))
           (mkField (lit "0501234567"))).
  vm_compute. reflexivity.
Defined.

(** X3.  Every date of the calendar written DD.MM.YYYY is accepted by
    [Birthday] and stored as it was written, and [date_value] gives the date
    back, wherever the year has four digits or the C library fills it. *)
Theorem birthday_round_trip `{libc : LibC} (dt : date) :
  valid_date dt = true ->
  strftime_Y_zero_fill = true \/ 1000 <= year dt ->
  Birthday (DD_MM_YYYY dt) = Ok (mkField (DD_MM_YYYY dt))
  /\ date_value (mkField (DD_MM_YYYY dt)) = Ok dt
  /\ Birthday (strftime dt) = Ok (mkField (strftime dt)).
Proof.
  intros Hv Hfill.
  assert (Hns : Forall (fun c => isspace_char c = false) (DD_MM_YYYY dt)).
  { unfold DD_MM_YYYY, two_digits, four_digits, digit_char.
    cbn [app].
    repeat (constructor;
            [first [ reflexivity | apply ascii_digit_not_space; dlia ] | ]).
    constructor. }
  assert (Hfmt : strftime dt = DD_MM_YYYY dt).
  { apply strftime_DD_MM_YYYY. apply valid_date_iff in Hv.
    destruct Hfill; [auto | right; lia]. }
  assert (Hb : Birthday (DD_MM_YYYY dt) = Ok (mkField (DD_MM_YYYY dt))).
  { unfold Birthday. rewrite (strip_no_space _ Hns).
    rewrite (strptime_DD_MM_YYYY dt Hv). cbn [try_except bind].
    rewrite Hfmt. reflexivity. }
  split; [exact Hb | ]. split.
  - unfold date_value. cbn [value]. apply strptime_DD_MM_YYYY, Hv.
  - rewrite Hfmt. exact Hb.
Qed.

Lemma birthday_round_trip_witness :
  @Birthday glibc (lit "29.02.2024") = Ok (mkField (lit "29.02.2024"))
  /\ date_value (mkField (lit "29.02.2024")) = Ok (mkdate 2024 2 29).
Proof.
  assert (Hy : @strftime_Y_zero_fill glibc = true
               \/ 1000 <= year (mkdate 2024 2 29)) by (right; cbn; lia).
  pose proof (@birthday_round_trip glibc (mkdate 2024 2 29) eq_refl Hy)
    as (Hb & Hd & _).
  split; [exact Hb | exact Hd].
Defined.

(* ===================================================================== *)
(** * Further properties: Record *)
(* ===================================================================== *)

Lemma set_phones_same (self : ContactRecord) :
  set_phones self (phones self) = self.
Proof. destruct self. reflexivity. Qed.

Lemma find_phone_slot_snoc (ps : list Field) (x : pystr) :
  find_phone_slot ps x = None ->
  find_phone_slot (ps ++ [mkField x]) x = Some (length ps).
Proof.
  induction ps as [ | q ps IH]; cbn [find_phone_slot app length value].
  - intros _. rewrite bool_decide_eq_true_2 by reflexivity. reflexivity.
  - case_bool_decide; [discriminate | ].
    destruct (find_phone_slot ps x); [discriminate | ].
    intros _. rewrite IH by reflexivity. reflexivity.
Qed.

Lemma delete_snoc {A} (l : list A) (x : A) : delete (length l) (l ++ [x]) = l.
Proof.
  induction l as [ | y l IH]; [reflexivity | ].
  cbn. f_equal. exact IH.
Qed.

(** X4.  [add_phone] validates its argument; a refused phone leaves the
    record as it was; an accepted one is put, trimmed, at the end of the
    phones, after those already stored (which keep their places and are
    found as before), also when the same number is already stored. *)
Theorem add_phone_appends_the_trimmed_phone
    (self : ContactRecord) (raw : pystr) :
  (forall e : exn,
     Phone raw = Raise e ->
     add_phone raw self = (Raise (ValueError MsgPhoneTenDigits), self))
  /\ (forall p : Field,
        Phone raw = Ok p ->
        add_phone raw self
        = (Ok tt,
           mkRecord (name self) (phones self ++ [mkField (strip raw)])
             (birthday self))
        /\ find_phone (add_phone raw self).2 (strip raw)
           = Some (mkField (strip raw))
        /\ (forall (x : pystr) (q : Field),
              find_phone self x = Some q ->
              find_phone (add_phone raw self).2 x = Some q)
        /\ length (phones (add_phone raw self).2)
           = S (length (phones self))).
Proof.
  split.
  - intros e He. unfold add_phone.
    destruct (Phone_cases raw) as [(_ & _ & Hok) | (_ & Hr)];
      [congruence | ].
    rewrite Hr. reflexivity.
  - intros p Hp.
    destruct (Phone_cases raw) as [(_ & _ & Hok) | (_ & Hr)];
      [ | congruence].
    unfold add_phone. rewrite Hok. cbn [value snd].
    split; [reflexivity | ]. split; [ | split].
    + apply find_phone_elem_of. cbn [phones set_phones].
      apply elem_of_app. right. left.
    + intros x q Hq. pose proof (find_phone_Some _ _ _ Hq) as [Hv _].
      rewrite (Field_eta q), Hv in Hq |- *.
      apply find_phone_elem_of. cbn [phones set_phones].
      apply elem_of_app. left.
      destruct (decide (mkField x ∈ phones self)) as [Hin | Hnin];
        [exact Hin | ].
      rewrite (proj2 (find_phone_elem_of self x) Hnin) in Hq. discriminate.
    + cbn [phones set_phones]. rewrite length_app. cbn. lia.
Qed.

Lemma add_phone_appends_the_trimmed_phone_witness :
  let r := mkRecord (mkField (lit "Ann")) [mkField (lit "1111111111")] None in
  add_phone (lit " 1111111111") r
  = (Ok tt,
     mkRecord (mkField (lit "Ann"))
       [mkField (lit "1111111111"); mkField (lit "1111111111")] None)
  /\ add_phone (lit "12345") r = (Raise (ValueError MsgPhoneTenDigits), r).
Proof.
  intros r. split.
  - apply (proj2 (add_phone_appends_the_trimmed_phone r (lit " 1111111111"))
             (mkField (lit "1111111111"))).
    reflexivity.
  - apply (proj1 (add_phone_appends_the_trimmed_phone r (lit "12345"))
             (ValueError MsgPhoneTenDigits)).
    reflexivity.
Defined.

(** X5.  [remove_phone] raises ValueError ("Nothing to remove") and leaves
    the record as it was when no stored phone has the value asked for;
    otherwise it takes out the first phone with that value and nothing
    else: the phones before and after it keep their order, phones of other
    values are found as before, and the value itself is no longer found
    unless it was stored more than once. *)
Theorem remove_phone_takes_out_the_first_match
    (self : ContactRecord) (x : pystr) :
  (find_phone self x = None ->
   remove_phone x self = (Raise (ValueError MsgNothingToRemove), self))
  /\ (forall p : Field,
        find_phone self x = Some p ->
        exists i : nat,
          phones self !! i = Some (mkField x)
          /\ (forall (j : nat) (q : Field),
                (j < i)%nat -> phones self !! j = Some q -> value q <> x)
          /\ remove_phone x self
             = (Ok tt,
                mkRecord (name self)
                  (take i (phones self) ++ drop (S i) (phones self))
                  (birthday self))
          /\ S (length (phones (remove_phone x self).2))
             = length (phones self)
          /\ (forall y : pystr,
                y <> x ->
                find_phone (remove_phone x self).2 y = find_phone self y)
          /\ ((forall (j : nat) (q : Field),
                 j <> i -> phones self !! j = Some q -> value q <> x) ->
              find_phone (remove_phone x self).2 x = None)).
Proof.
  split.
  - intros Hnone. apply find_phone_None in Hnone.
    unfold remove_phone. rewrite Hnone. reflexivity.
  - intros p Hp. apply find_phone_Some in Hp.
    destruct Hp as (Hv & i & Hi & Hpi).
    rewrite (Field_eta p), Hv in Hpi.
    exists i. split; [exact Hpi | ].
    split; [exact (find_phone_slot_first _ _ _ Hi) | ].
    unfold remove_phone. rewrite Hi. cbn [snd phones set_phones].
    assert (Hdel : delete i (phones self)
                   = take i (phones self) ++ drop (S i) (phones self))
      by apply delete_take_drop.
    assert (Hperm : phones self ≡ₚ mkField x :: delete i (phones self))
      by (apply delete_Permutation, Hpi).
    split; [unfold set_phones; rewrite Hdel; reflexivity | ].
    split; [rewrite length_delete by (rewrite Hpi; eauto);
            pose proof (lookup_lt_Some _ _ _ Hpi); lia | ].
    split.
    + intros y Hy.
      destruct (decide (mkField y ∈ phones self)) as [Hin | Hnin].
      * rewrite (proj1 (find_phone_elem_of self y) Hin).
        apply find_phone_elem_of. cbn [phones set_phones].
        rewrite Hperm in Hin. apply elem_of_cons in Hin.
        destruct Hin as [[= ->] | Hin]; [contradiction | exact Hin].
      * rewrite (proj2 (find_phone_elem_of self y) Hnin).
        apply find_phone_elem_of. cbn [phones set_phones].
        intros Hin. apply Hnin. rewrite Hperm. right. exact Hin.
    + intros Honce. apply find_phone_None, find_phone_slot_None.
      cbn [phones set_phones]. intros j q Hj.
      destruct (decide (j < i)%nat) as [Hlt | Hge].
      * rewrite list_lookup_delete_lt in Hj by exact Hlt.
        apply (Honce j q); [lia | exact Hj].
      * rewrite list_lookup_delete_ge in Hj by lia.
        apply (Honce (S j) q); [lia | exact Hj].
Qed.

Lemma remove_phone_takes_out_the_first_match_witness :
  let r := mkRecord (mkField (lit "Ann"))
             [mkField (lit "1111111111"); mkField (lit "2222222222");
              mkField (lit "1111111111")] None in
  remove_phone (lit "3333333333") r
  = (Raise (ValueError MsgNothingToRemove), r)
  /\ exists i : nat,
       phones r !! i = Some (mkField (lit "1111111111"))
       /\ remove_phone (lit "1111111111") r
          = (Ok tt,
             mkRecord (name r) (take i (phones r) ++ drop (S i) (phones r))
               (birthday r)).
Proof.
  intros r. split.
  - apply (proj1 (remove_phone_takes_out_the_first_match r
                    (lit "3333333333"))).
    reflexivity.
  - destruct (proj2 (remove_phone_takes_out_the_first_match r
                       (lit "1111111111"))
                (mkField (lit "1111111111")) eq_refl)
      as (i & Hi & _ & Hr & _).
    exists i. split; [exact Hi | exact Hr].
Defined.

(** X6.  Adding a phone that was not stored and removing it again gives the
    record back. *)
Theorem add_phone_then_remove_phone_restores
    (self : ContactRecord) (raw : pystr) (p : Field) :
  Phone raw = Ok p ->
  find_phone self (strip raw) = None ->
  remove_phone (strip raw) (add_phone raw self).2 = (Ok tt, self).
Proof.
  intros Hp Hnone.
  destruct (Phone_cases raw) as [(_ & _ & Hok) | (_ & Hr)]; [ | congruence].
  unfold add_phone. rewrite Hok. cbn [snd value].
  apply find_phone_None in Hnone.
  unfold remove_phone. cbn [phones set_phones].
  rewrite (find_phone_slot_snoc (phones self) (strip raw) Hnone).
  unfold set_phones. cbn [name birthday phones].
  rewrite delete_snoc. destruct self. reflexivity.
Qed.

Lemma add_phone_then_remove_phone_restores_witness :
  let r := mkRecord (mkField (lit "Ann")) [mkField (lit "1111111111")] None in
  remove_phone (strip (lit " 2222222222 "))
    (add_phone (lit " 2222222222 ") r).2 = (Ok tt, r).
Proof.
  intros r.
  apply (add_phone_then_remove_phone_restores r (lit " 2222222222 ")
           (mkField (lit "2222222222"))); reflexivity.
Defined.

Section record_invariant.

Context `{libc : LibC}.

Lemma Record_init_ok (nm : pystr) (r : ContactRecord) :
  Record_init nm = Ok r ->
  record_ok r /\ value (name r) = strip nm /\ phones r = []
  /\ birthday r = None.
Proof.
  unfold Record_init. destruct (Name nm) as [n | ] eqn:En; [ | discriminate].
  cbn [bind]. intros [= <-].
  destruct (Name_ok_field nm n En) as [Hv Hok].
  split; [ | auto]. split; [exact Hok | ]. split; [constructor | ].
  cbn. discriminate.
Qed.

Lemma Birthday_ok_field (raw : pystr) (b : Field) :
  Birthday raw = Ok b -> birthday_ok b.
Proof.
  intros Hb. destruct (Birthday_cases raw) as [(dt & Hp & E) | (_ & E)];
    [ | congruence].
  rewrite E in Hb. injection Hb as <-. exists dt.
  split; [exact (strptime_valid _ _ Hp) | reflexivity].
Qed.

Lemma run_call_keeps (c : record_call) (r : ContactRecord) :
  record_ok r ->
  record_ok (run_call c r).2
  /\ name (run_call c r).2 = name r
  /\ (forall e, (run_call c r).1 = Raise e ->
         (run_call c r).2 = r /\ is_ValueError e = true).
Proof.
  intros (Hn & Hps & Hb). destruct c as [x | x y | x | x]; cbn [run_call].
  - unfold add_phone.
    destruct (Phone_cases x) as [(_ & _ & E) | (_ & E)]; rewrite E;
      cbn [fst snd name set_phones].
    + split; [ | split; [reflexivity | discriminate]].
      split; [exact Hn | ]. split; [ | exact Hb].
      cbn [phones]. apply Forall_app. split; [exact Hps | ].
      constructor; [ | constructor].
      exact (Phone_ok_field x _ E).
    + split; [repeat split; assumption | ].
      split; [reflexivity | ]. intros e [= <-]. auto.
  - unfold edit_phone.
    destruct (find_phone_slot (phones r) x) as [i | ];
      cbn [fst snd name set_phones].
    + destruct (Phone_cases y) as [(_ & _ & E) | (_ & E)]; rewrite E;
        cbn [fst snd name set_phones value].
      * split; [ | split; [reflexivity | discriminate]].
        split; [exact Hn | ]. split; [ | exact Hb].
        cbn [phones]. apply Forall_insert; [exact Hps | ].
        exact (Phone_ok_field y _ E).
      * split; [repeat split; assumption | ].
        split; [reflexivity | ]. intros e [= <-]. auto.
    + split; [repeat split; assumption | ].
      split; [reflexivity | ]. intros e [= <-]. auto.
  - unfold remove_phone.
    destruct (find_phone_slot (phones r) x) as [i | ];
      cbn [fst snd name set_phones].
    + split; [ | split; [reflexivity | discriminate]].
      split; [exact Hn | ]. split; [ | exact Hb].
      cbn [phones]. apply Forall_delete, Hps.
    + split; [repeat split; assumption | ].
      split; [reflexivity | ]. intros e [= <-]. auto.
  - unfold add_birthday.
    destruct (Birthday_cases x) as [(dt & Hp & E) | (_ & E)]; rewrite E;
      cbn [fst snd name set_birthday].
    + split; [ | split; [reflexivity | discriminate]].
      split; [exact Hn | ]. split; [exact Hps | ].
      cbn [birthday]. intros b [= <-]. exists dt.
      split; [exact (strptime_valid _ _ Hp) | reflexivity].
    + split; [repeat split; assumption | ].
      split; [reflexivity | ]. intros e [= <-]. auto.
Qed.

(** X7.  A record made by [Record(name)] and changed by any calls of
    [add_phone], [edit_phone], [remove_phone] and [add_birthday], failed
    calls included, keeps the name it was given, holds only phones that
    [Phone] accepts as they are, and a birthday, if any, that [strftime]
    wrote; a call that raises raises ValueError and changes nothing. *)
Theorem record_methods_keep_the_record_valid
    (nm : pystr) (r0 : ContactRecord) (cs : list record_call) :
  Record_init nm = Ok r0 ->
  record_ok (run_calls cs r0)
  /\ value (name (run_calls cs r0)) = strip nm
  /\ (forall (c : record_call) (e : exn),
        (run_call c (run_calls cs r0)).1 = Raise e ->
        (run_call c (run_calls cs r0)).2 = run_calls cs r0
        /\ is_ValueError e = true).
Proof.
  intros Hinit. destruct (Record_init_ok nm r0 Hinit) as (Hok & Hv & _).
  assert (Hinv : record_ok (run_calls cs r0)
                 /\ name (run_calls cs r0) = name r0).
  { unfold run_calls. clear Hinit Hv. revert r0 Hok.
    induction cs as [ | c cs IH]; intros r0 Hok; cbn [foldl]; [auto | ].
    destruct (run_call_keeps c r0 Hok) as (Hok' & Hn' & _).
    destruct (IH _ Hok') as [H1 H2]. split; [exact H1 | congruence]. }
  destruct Hinv as [Hinv Hname].
  split; [exact Hinv | ]. split; [rewrite Hname; exact Hv | ].
  intros c e. apply (run_call_keeps c _ Hinv).
Qed.

End record_invariant.

Lemma record_methods_keep_the_record_valid_witness :
  @record_ok glibc
    (@run_calls glibc
       [CallAddPhone (lit "0501234567"); CallAddPhone (lit "12");
        CallAddBirthday (lit "1.2.1990");
        CallEditPhone (lit "0501234567") (lit "0670000000")]
       (mkRecord (mkField (lit "Ann")) [] None)).
Proof.
  apply (@record_methods_keep_the_record_valid glibc (lit " Ann ")
           (mkRecord (mkField (lit "Ann")) [] None)).
  reflexivity.
Defined.

(* ===================================================================== *)
(** * Further properties: AddressBook *)
(* ===================================================================== *)

Lemma dict_get_None (data : AddressBook) (k : pystr) :
  dict_get data k = None <-> k ∉ keys data.
Proof.
  unfold keys. induction data as [ | [k' v'] data IH]; cbn [dict_get].
  - split; [intros _; apply not_elem_of_nil | reflexivity].
  - rewrite fmap_cons, not_elem_of_cons. cbn [fst].
    case_bool_decide as E.
    + split; [discriminate | ]. intros [Hne _]. congruence.
    + rewrite IH. split; [intros Hn; split; [congruence | exact Hn] | ].
      intros [_ Hn]. exact Hn.
Qed.

Lemma dict_get_Some_elem (data : AddressBook) (k : pystr)
    (v : ContactRecord) :
  dict_get data k = Some v -> (k, v) ∈ data.
Proof.
  induction data as [ | [k' v'] data IH]; cbn [dict_get]; [discriminate | ].
  case_bool_decide as E.
  - intros [= <-]. subst k'. left.
  - intros Hg. right. exact (IH Hg).
Qed.

Lemma dict_get_set_eq (data : AddressBook) (k : pystr) (v : ContactRecord) :
  dict_get (dict_set data k v) k = Some v.
Proof.
  induction data as [ | [k' v'] data IH]; cbn [dict_set dict_get].
  - rewrite bool_decide_eq_true_2 by reflexivity. reflexivity.
  - case_bool_decide as E; cbn [dict_get].
    + rewrite bool_decide_eq_true_2 by reflexivity. reflexivity.
    + rewrite bool_decide_eq_false_2 by exact E. exact IH.
Qed.

Lemma dict_get_set_ne (data : AddressBook) (k k' : pystr)
    (v : ContactRecord) :
  k' <> k -> dict_get (dict_set data k v) k' = dict_get data k'.
Proof.
  intros Hne. induction data as [ | [k0 v0] data IH]; cbn [dict_set dict_get].
  - rewrite bool_decide_eq_false_2 by congruence. reflexivity.
  - case_bool_decide as E; cbn [dict_get].
    + subst k0. rewrite !bool_decide_eq_false_2 by congruence. reflexivity.
    + case_bool_decide; [reflexivity | exact IH].
Qed.

Lemma keys_dict_set_present (data : AddressBook) (k : pystr)
    (v : ContactRecord) :
  k ∈ keys data -> keys (dict_set data k v) = keys data.
Proof.
  unfold keys. induction data as [ | [k0 v0] data IH]; cbn [dict_set].
  - intros Hin. apply elem_of_nil in Hin. contradiction.
  - rewrite fmap_cons, elem_of_cons. cbn [fst]. intros Hin.
    case_bool_decide as E.
    + subst k0. reflexivity.
    + rewrite fmap_cons. cbn [fst]. f_equal. apply IH.
      destruct Hin as [-> | Hin]; [contradiction | exact Hin].
Qed.

Lemma dict_set_absent (data : AddressBook) (k : pystr) (v : ContactRecord) :
  k ∉ keys data -> dict_set data k v = data ++ [(k, v)].
Proof.
  unfold keys. induction data as [ | [k0 v0] data IH]; cbn [dict_set];
    [reflexivity | ].
  rewrite fmap_cons, not_elem_of_cons. cbn [fst]. intros [Hne Hn].
  rewrite bool_decide_eq_false_2 by congruence.
  cbn [app]. f_equal. exact (IH Hn).
Qed.

Lemma dict_set_same (data : AddressBook) (k : pystr) (v : ContactRecord) :
  dict_get data k = Some v -> dict_set data k v = data.
Proof.
  induction data as [ | [k0 v0] data IH]; cbn [dict_get dict_set];
    [discriminate | ].
  case_bool_decide as E.
  - intros [= ->]. subst k0. reflexivity.
  - intros Hg. f_equal. exact (IH Hg).
Qed.

Lemma dict_del_set_absent (data : AddressBook) (k : pystr)
    (v : ContactRecord) :
  k ∉ keys data -> dict_del (dict_set data k v) k = data.
Proof.
  unfold keys. induction data as [ | [k0 v0] data IH];
    cbn [dict_set dict_del].
  - intros _. rewrite bool_decide_eq_true_2 by reflexivity. reflexivity.
  - rewrite fmap_cons, not_elem_of_cons. cbn [fst]. intros [Hne Hn].
    rewrite bool_decide_eq_false_2 by congruence. cbn [dict_del].
    rewrite bool_decide_eq_false_2 by congruence. f_equal. exact (IH Hn).
Qed.

Lemma dict_get_del_ne (data : AddressBook) (k k' : pystr) :
  k' <> k -> dict_get (dict_del data k) k' = dict_get data k'.
Proof.
  intros Hne. induction data as [ | [k0 v0] data IH]; cbn [dict_del dict_get];
    [reflexivity | ].
  case_bool_decide as E; cbn [dict_get].
  - subst k0. rewrite bool_decide_eq_false_2 by congruence. reflexivity.
  - case_bool_decide; [reflexivity | exact IH].
Qed.

Lemma filter_all {A} (P : A -> Prop) `{forall x, Decision (P x)}
    (l : list A) :
  (forall x, x ∈ l -> P x) -> filter P l = l.
Proof.
  induction l as [ | x l IH]; intros Hall; [reflexivity | ].
  rewrite filter_cons_True by (apply Hall; left).
  f_equal. apply IH. intros y Hy. apply Hall. right. exact Hy.
Qed.

Lemma keys_dict_del (data : AddressBook) (k : pystr) :
  NoDup (keys data) ->
  keys (dict_del data k) = filter (fun k' => k' <> k) (keys data).
Proof.
  unfold keys. induction data as [ | [k0 v0] data IH]; cbn [dict_del];
    [reflexivity | ].
  rewrite fmap_cons, NoDup_cons, filter_cons. cbn [fst]. intros [Hn Hnd].
  case_bool_decide as E.
  - subst k0. rewrite decide_False by auto.
    symmetry. apply filter_all. intros x Hx ->. contradiction.
  - rewrite decide_True by exact E. rewrite fmap_cons. cbn [fst].
    f_equal. exact (IH Hnd).
Qed.

Lemma join_snoc (sep : pystr) (l : list pystr) (x : pystr) :
  l <> [] -> join sep (l ++ [x]) = join sep l ++ sep ++ x.
Proof.
  induction l as [ | a l IH]; [contradiction | ]. intros _.
  destruct l as [ | b l]; [reflexivity | ].
  change (join sep ((a :: b :: l) ++ [x]))
    with (a ++ sep ++ join sep ((b :: l) ++ [x])).
  rewrite IH by discriminate.
  change (join sep (a :: b :: l)) with (a ++ sep ++ join sep (b :: l)).
  rewrite <- !app_assoc. reflexivity.
Qed.

(** X8.  After [add_record] the record is found under its name, and every
    other name is found, or not found, as before. *)
Theorem add_record_then_find (book : AddressBook) (record : ContactRecord) :
  find (add_record book record) (value (name record)) = Some record
  /\ (forall nm : pystr,
        nm <> value (name record) ->
        find (add_record book record) nm = find book nm).
Proof.
  unfold find, add_record. split.
  - apply dict_get_set_eq.
  - intros nm Hne. apply dict_get_set_ne, Hne.
Qed.

Lemma add_record_then_find_witness :
  find (add_record sample_book (mkRecord (mkField (lit "Bob")) [] None))
    (lit "Ann")
  = find sample_book (lit "Ann").
Proof.
  apply (proj2 (add_record_then_find sample_book
                  (mkRecord (mkField (lit "Bob")) [] None)) (lit "Ann")).
  discriminate.
Defined.

(** X9.  [add_record] keeps the names of the book distinct and keeps their
    order: a record whose name is already in the book takes the place of
    the record of that name, a record with a new name goes to the end. *)
Theorem add_record_keeps_the_order (book : AddressBook)
    (record : ContactRecord) :
  (value (name record) ∈ keys book ->
   keys (add_record book record) = keys book
   /\ length (add_record book record) = length book)
  /\ (value (name record) ∉ keys book ->
      add_record book record = book ++ [(value (name record), record)])
  /\ (NoDup (keys book) -> NoDup (keys (add_record book record))).
Proof.
  unfold add_record. split; [ | split].
  - intros Hin. pose proof (keys_dict_set_present book _ record Hin) as Hk.
    split; [exact Hk | ].
    apply (f_equal length) in Hk. unfold keys in Hk.
    rewrite !length_fmap in Hk. exact Hk.
  - apply dict_set_absent.
  - intros Hnd.
    destruct (decide (value (name record) ∈ keys book)) as [Hin | Hnin].
    + rewrite keys_dict_set_present by exact Hin. exact Hnd.
    + rewrite dict_set_absent by exact Hnin. unfold keys.
      rewrite fmap_app. cbn. apply NoDup_app. split; [exact Hnd | ].
      split; [ | apply NoDup_singleton].
      intros x Hx Hx'. apply list_elem_of_singleton in Hx'. subst x.
      contradiction.
Qed.

Lemma add_record_keeps_the_order_witness :
  keys (add_record sample_book (mkRecord (mkField (lit "Ann")) [] None))
  = keys sample_book
  /\ add_record sample_book (mkRecord (mkField (lit "Cy")) [] None)
     = sample_book ++ [(lit "Cy", mkRecord (mkField (lit "Cy")) [] None)].
Proof.
  split.
  - apply (proj1 (add_record_keeps_the_order sample_book
                    (mkRecord (mkField (lit "Ann")) [] None))).
    left.
  - apply (proj1 (proj2 (add_record_keeps_the_order sample_book
                           (mkRecord (mkField (lit "Cy")) [] None)))).
    vm_compute. intros Hin.
    repeat (apply elem_of_cons in Hin; destruct Hin as [[=] | Hin]).
    apply elem_of_nil in Hin. exact Hin.
Defined.

(** X10.  [delete] raises KeyError and changes nothing when the name is not
    in the book; otherwise it returns the record that [find] finds and
    leaves a book without that name, in which the other names keep their
    order and their records. *)
Theorem delete_removes_the_name (book : AddressBook) (nm : pystr) :
  (find book nm = None ->
   delete_record book nm = Raise (KeyError MsgNameNotFound))
  /\ (forall r : ContactRecord,
        find book nm = Some r ->
        exists book' : AddressBook,
          delete_record book nm = Ok (r, book')
          /\ S (length book') = length book
          /\ (forall nm' : pystr, nm' <> nm -> find book' nm' = find book nm')
          /\ (NoDup (keys book) ->
              find book' nm = None
              /\ keys book' = filter (fun k => k <> nm) (keys book))).
Proof.
  unfold find, delete_record. split.
  - intros ->. reflexivity.
  - intros r Hr. rewrite Hr. exists (dict_del book nm).
    split; [reflexivity | ]. split; [ | split].
    + assert (Hin : nm ∈ keys book).
      { destruct (decide (nm ∈ keys book)) as [ | Hn]; [assumption | ].
        apply dict_get_None in Hn. congruence. }
      clear r Hr. unfold keys in Hin.
      induction book as [ | [k v] book IH]; cbn [dict_del].
      * apply elem_of_nil in Hin. contradiction.
      * case_bool_decide as E; [reflexivity | ].
        rewrite fmap_cons, elem_of_cons in Hin. cbn [fst] in Hin.
        destruct Hin as [-> | Hin]; [contradiction | ].
        cbn [length]. f_equal. exact (IH Hin).
    + intros nm' Hne. apply dict_get_del_ne, Hne.
    + intros Hnd. pose proof (keys_dict_del book nm Hnd) as Hk.
      split; [ | exact Hk].
      apply dict_get_None. rewrite Hk, list_elem_of_filter.
      intros [Hne _]. contradiction.
Qed.

Lemma delete_removes_the_name_witness :
  delete_record sample_book (lit "Zoe") = Raise (KeyError MsgNameNotFound)
  /\ exists book' : AddressBook,
       delete_record sample_book (lit "Ann")
       = Ok (mkRecord (mkField (lit "Ann"))
               [mkField (lit "0501234567"); mkField (lit "0671112233")]
               (Some (mkField (lit "03.01.1990"))), book')
       /\ S (length book') = length sample_book.
Proof.
  split.
  - apply (proj1 (delete_removes_the_name sample_book (lit "Zoe"))).
    reflexivity.
  - destruct (proj2 (delete_removes_the_name sample_book (lit "Ann")) _
                eq_refl) as (book' & Hd & Hl & _).
    exists book'. split; [exact Hd | exact Hl].
Defined.

(** X11.  Adding a record under a new name and deleting that name gives
    the book back, with the record added as the value returned. *)
Theorem add_record_then_delete_restores (book : AddressBook)
    (record : ContactRecord) :
  find book (value (name record)) = None ->
  delete_record (add_record book record) (value (name record))
  = Ok (record, book).
Proof.
  unfold find, delete_record, add_record. intros Hnone.
  rewrite dict_get_set_eq. apply dict_get_None in Hnone.
  rewrite (dict_del_set_absent _ _ _ Hnone). reflexivity.
Qed.

Lemma add_record_then_delete_restores_witness :
  delete_record
    (add_record sample_book (mkRecord (mkField (lit "Cy")) [] None))
    (lit "Cy")
  = Ok (mkRecord (mkField (lit "Cy")) [] None, sample_book).
Proof.
  apply (add_record_then_delete_restores sample_book
           (mkRecord (mkField (lit "Cy")) [] None)).
  reflexivity.
Defined.

(** X12.  The text of the book has one line per record, in the order of
    the book: a record added under a new name adds its line at the end,
    after a line break unless the book was empty (its text was then the
    marker "[]"). *)
Theorem add_record_adds_a_line (book : AddressBook)
    (record : ContactRecord) :
  find book (value (name record)) = None ->
  AddressBook_str (add_record book record)
  = match book with
    | [] => Record_str record
    | _ => AddressBook_str book ++ [10] ++ Record_str record
    end.
Proof.
  unfold find. intros Hnone. apply dict_get_None in Hnone.
  unfold add_record. rewrite (dict_set_absent _ _ _ Hnone).
  destruct book as [ | kv book]; [reflexivity | ].
  set (x := (value (name record), record)).
  assert (E : AddressBook_str ((kv :: book) ++ [x])
              = join [10] (Record_str <$> values ((kv :: book) ++ [x])))
    by reflexivity.
  rewrite E. unfold values. rewrite !fmap_app.
  change (Record_str <$> (snd <$> [x])) with [Record_str record].
  rewrite join_snoc by discriminate. reflexivity.
Qed.

Lemma add_record_adds_a_line_witness :
  AddressBook_str
    (add_record sample_book (mkRecord (mkField (lit "Cy")) [] None))
  = AddressBook_str sample_book ++ [10]
    ++ lit "Cy, phones: -, birthday: -".
Proof.
  apply (add_record_adds_a_line sample_book
           (mkRecord (mkField (lit "Cy")) [] None)).
  reflexivity.
Defined.

(* ===================================================================== *)
(** * Further properties: the upcoming birthdays *)
(* ===================================================================== *)

Lemma toordinal_year_lt (a b : date) :
  valid_date a = true -> valid_date b = true ->
  year a < year b -> toordinal a < toordinal b.
Proof.
  intros Ha Hb Hlt. apply date_ltb_toordinal; try assumption.
  unfold date_ltb. lia.
Qed.

(** From one year to the next the occurrence moves by 365 or 366 days. *)
Lemma occurrence_next_year (bday : date) (y : Z) :
  valid_date bday = true ->
  365 <= toordinal (occurrence_in_year bday (y + 1))
         - toordinal (occurrence_in_year bday y) <= 366.
Proof.
  intros Hb. apply valid_date_iff in Hb. destruct Hb as (_ & Hm & Hd).
  unfold occurrence_in_year.
  destruct ((month bday =? 2) && (day bday =? 29) && negb (_is_leap (y + 1)))
    eqn:E1;
    destruct ((month bday =? 2) && (day bday =? 29) && negb (_is_leap y))
      eqn:E0;
    unfold toordinal, _ymd2ord; cbn [year month day];
    rewrite days_before_year_succ;
    revert Hd E0 E1; unfold _days_before_month, _days_in_month;
    generalize (month bday) (day bday) Hm; clear Hm; intros m d Hm;
    month_cases m; destruct (_is_leap (year bday)), (_is_leap y),
      (_is_leap (y + 1)); eval_tables; intros Hd E0 E1; lia.
Qed.

(** The occurrence chosen is a date of the calendar, not before [today]
    and at most 365 days after it. *)
Lemma next_occurrence_bounds (today bday b : date) :
  valid_date today = true -> valid_date bday = true ->
  birthday_this_year today bday = Ok b ->
  valid_date b = true /\ 0 <= toordinal b - toordinal today <= 365.
Proof.
  intros Ht Hb Hocc.
  destruct (birthday_this_year_inv _ _ _ Ht Hb Hocc) as [Hvb _].
  split; [exact Hvb | ].
  assert (Hy : 1 <= year today <= 9999)
    by (apply valid_date_iff in Ht; lia).
  destruct (safe_birthday_in_range bday (year today) Hb Hy) as [Hsafe Hv0].
  pose proof (toordinal_in_year today Ht) as Hin.
  pose proof (toordinal_in_year _ Hv0) as Hin0.
  rewrite occurrence_in_year_year in Hin0.
  pose proof (days_before_year_succ (year today)) as Hsucc.
  assert (Hleap : 0 <= (if _is_leap (year today) then 1 else 0) <= 1)
    by (destruct (_is_leap (year today)); lia).
  unfold birthday_this_year in Hocc. rewrite Hsafe in Hocc.
  cbn [bind] in Hocc.
  destruct (date_ltb (occurrence_in_year bday (year today)) today) eqn:Elt.
  - apply (date_ltb_chronological _ _ Hv0 Ht) in Elt.
    destruct (Z_lt_le_dec (year today) 9999) as [Hlast | Hlast].
    + destruct (safe_birthday_in_range bday (year today + 1) Hb ltac:(lia))
        as [Hsafe1 Hv1].
      rewrite Hsafe1 in Hocc. injection Hocc as <-.
      pose proof (occurrence_next_year bday (year today) Hb).
      pose proof (toordinal_year_lt today _ Ht Hv1) as Hnext.
      rewrite occurrence_in_year_year in Hnext.
      lia.
    + rewrite safe_birthday_out_of_range in Hocc by lia. discriminate.
  - injection Hocc as <-.
    destruct (Z_lt_le_dec (toordinal (occurrence_in_year bday (year today)))
                (toordinal today)) as [Hlt | Hge].
    + apply (date_ltb_chronological _ _ Hv0 Ht) in Hlt. congruence.
    + lia.
Qed.

(** The congratulation date is a working day, at most two days after the
    occurrence. *)
Lemma congrat_date_bounds (b c : date) :
  valid_date b = true -> congrat_date b = Ok c ->
  valid_date c = true
  /\ 0 <= weekday c <= 4
  /\ 0 <= toordinal c - toordinal b <= 2.
Proof.
  intros Hvb Hc.
  destruct (congrat_date_cases b Hvb) as (Hsat & Hsun & Hweek).
  pose proof (weekday_range b) as Hr.
  destruct (Z.eq_dec (weekday b) 5) as [E5 | N5];
    [ | destruct (Z.eq_dec (weekday b) 6) as [E6 | N6]].
  - destruct (Hsat E5) as (c' & Hc' & Hvc & Ho & Hw).
    rewrite Hc in Hc'. injection Hc' as <-. repeat split; try assumption; lia.
  - destruct (Hsun E6) as (c' & Hc' & Hvc & Ho & Hw).
    rewrite Hc in Hc'. injection Hc' as <-. repeat split; try assumption; lia.
  - rewrite (Hweek N5 N6) in Hc. injection Hc as <-.
    repeat split; try assumption; lia.
Qed.

(** X13.  The occurrence used for a birthday is never in the past and never
    more than 365 days ahead: it is this year's occurrence or next
    year's. *)
Theorem next_occurrence_is_within_a_year (today bday b : date) :
  valid_date today = true -> valid_date bday = true ->
  birthday_this_year today bday = Ok b ->
  valid_date b = true
  /\ 0 <= toordinal b - toordinal today <= 365
  /\ (b = occurrence_in_year bday (year today)
      \/ b = occurrence_in_year bday (year today + 1)).
Proof.
  intros Ht Hb Hocc.
  destruct (next_occurrence_bounds _ _ _ Ht Hb Hocc) as [Hvb Hwin].
  split; [exact Hvb | ]. split; [exact Hwin | ].
  assert (Hy : 1 <= year today <= 9999)
    by (apply valid_date_iff in Ht; lia).
  destruct (safe_birthday_in_range bday (year today) Hb Hy) as [Hsafe Hv0].
  unfold birthday_this_year in Hocc. rewrite Hsafe in Hocc.
  cbn [bind] in Hocc.
  destruct (date_ltb (occurrence_in_year bday (year today)) today).
  - destruct (Z_lt_le_dec (year today) 9999) as [Hlast | Hlast].
    + destruct (safe_birthday_in_range bday (year today + 1) Hb ltac:(lia))
        as [Hsafe1 Hv1].
      rewrite Hsafe1 in Hocc. injection Hocc as <-. right; reflexivity.
    + rewrite safe_birthday_out_of_range in Hocc by lia. discriminate.
  - injection Hocc as <-. left; reflexivity.
Qed.

Lemma next_occurrence_is_within_a_year_witness :
  0 <= toordinal (mkdate 2024 2 29) - toordinal (mkdate 2023 3 1) <= 365.
Proof.
  apply (next_occurrence_is_within_a_year (mkdate 2023 3 1)
           (mkdate 2000 2 29) (mkdate 2024 2 29) eq_refl eq_refl).
  vm_compute. reflexivity.
Defined.

(** X14.  The congratulation date is a day from Monday to Friday, the
    occurrence itself or one of the two days after it; so from [today] it is
    at most 367 days ahead, and the test [0 <= delta] of the loop never
    fails. *)
Theorem congratulation_date_is_a_working_day (today bday b c : date) :
  valid_date today = true -> valid_date bday = true ->
  birthday_this_year today bday = Ok b ->
  congrat_date b = Ok c ->
  valid_date c = true
  /\ 0 <= weekday c <= 4
  /\ 0 <= toordinal c - toordinal b <= 2
  /\ 0 <= date_sub_days c today <= 367.
Proof.
  intros Ht Hb Hocc Hc.
  destruct (next_occurrence_bounds _ _ _ Ht Hb Hocc) as [Hvb Hwin].
  destruct (congrat_date_bounds b c Hvb Hc) as (Hvc & Hw & Ho).
  unfold date_sub_days. repeat split; try assumption; lia.
Qed.

Lemma congratulation_date_is_a_working_day_witness :
  0 <= weekday (mkdate 2025 1 6) <= 4
  /\ 0 <= date_sub_days (mkdate 2025 1 6) (mkdate 2025 1 1) <= 367.
Proof.
  pose proof (congratulation_date_is_a_working_day (mkdate 2025 1 1)
                (mkdate 1990 1 4) (mkdate 2025 1 4) (mkdate 2025 1 6)
                eq_refl eq_refl eq_refl eq_refl) as (_ & Hw & _ & Hd).
  split; [exact Hw | exact Hd].
Defined.

Section upcoming_more.

Context `{libc : LibC}.

Lemma get_upcoming_birthdays_elem_of (today : date) (book : AddressBook)
    (days : Z) (res : list entry) (e : entry) :
  get_upcoming_birthdays today book days = Ok res ->
  e ∈ res <-> exists r, r ∈ values book /\ due today days r e.
Proof.
  intros Hres. apply get_upcoming_birthdays_inv in Hres.
  destruct Hres as (upcoming & Hloop & Hsort).
  apply sort_entries_spec in Hsort. destruct Hsort as (Hperm & _).
  rewrite Hperm. apply (upcoming_loop_elem_of _ _ _ _ e Hloop).
Qed.

Lemma upcoming_entry_other_window (today : date) (d d' : Z)
    (r : ContactRecord) (o : option entry) :
  upcoming_entry today d r = Ok o ->
  exists o', upcoming_entry today d' r = Ok o'.
Proof.
  unfold upcoming_entry. destruct (birthday r) as [bd | ]; [ | eauto].
  destruct (date_value bd) as [bday | ]; [ | discriminate]. cbn [bind].
  destruct (birthday_this_year today bday) as [b | ]; [ | discriminate].
  cbn [bind]. destruct (congrat_date b) as [c | ]; [ | discriminate].
  cbn [bind]. intros _. destruct (_ && _); eauto.
Qed.

Lemma due_wider (today : date) (d d' : Z) (r : ContactRecord) (e : entry) :
  d <= d' -> due today d r e -> due today d' r e.
Proof.
  intros Hle (bd & bday & b & c & H1 & H2 & H3 & H4 & Hw & He).
  exists bd, bday, b, c. repeat split; try assumption; lia.
Qed.

Lemma sort_by_key_keys {A K} (key : A -> result K) (lt : K -> K -> bool)
    (l res : list A) :
  sort_by_key key lt l = Ok res ->
  Forall (fun x => exists k, key x = Ok k) l.
Proof.
  unfold sort_by_key.
  destruct (decorate key l) as [keyed | ] eqn:Ed; [ | discriminate].
  intros _. apply decorate_spec in Ed. destruct Ed as [<- Hk].
  apply Forall_fmap. eapply Forall_impl; [exact Hk | ].
  intros p Hp. exists p.1. exact Hp.
Qed.

(** X15.  A narrower window reports a part of what a wider window reports:
    when the call returns for a window it returns for every smaller one,
    with entries that are among those of the larger. *)
Theorem narrower_window_reports_less (today : date) (book : AddressBook)
    (days days' : Z) (res' : list entry) :
  days <= days' ->
  get_upcoming_birthdays today book days' = Ok res' ->
  exists res : list entry,
    get_upcoming_birthdays today book days = Ok res
    /\ forall e : entry, e ∈ res -> e ∈ res'.
Proof.
  intros Hle Hres'.
  assert (Hmem' : forall e, e ∈ res' <->
                    exists r, r ∈ values book /\ due today days' r e)
    by (intros e; exact (get_upcoming_birthdays_elem_of _ _ _ _ e Hres')).
  apply get_upcoming_birthdays_inv in Hres'.
  destruct Hres' as (upcoming' & Hloop' & Hsort').
  pose proof Hloop' as Hspec. rewrite upcoming_loop_spec in Hspec.
  destruct (mapM (upcoming_entry today days') (values book)) as [os' | ]
    eqn:Em'; [ | discriminate].
  apply mapM_Forall2 in Em'.
  destruct (mapM_returns (upcoming_entry today days) (values book))
    as [os Hos].
  { intros r Hr. apply list_elem_of_lookup in Hr. destruct Hr as [i Hi].
    destruct (Forall2_lookup_l _ _ _ _ _ Em' Hi) as (o' & _ & Ho').
    exact (upcoming_entry_other_window _ _ _ _ _ Ho'). }
  assert (Hloop : upcoming_loop today days (values book) []
                  = Ok (omap id os)).
  { rewrite upcoming_loop_spec, Hos. reflexivity. }
  assert (Hsub : forall e, e ∈ omap id os -> e ∈ res').
  { intros e He. apply (upcoming_loop_elem_of _ _ _ _ e Hloop) in He.
    destruct He as (r & Hr & Hdue). apply Hmem'. exists r.
    split; [exact Hr | exact (due_wider _ _ _ _ _ Hle Hdue)]. }
  destruct (sort_by_key_returns sort_key date_ltb (omap id os)) as [res Hres].
  { apply Forall_forall. intros e He. apply Hsub in He.
    pose proof (sort_by_key_keys _ _ _ _ Hsort') as Hkeys.
    apply sort_entries_spec in Hsort'. destruct Hsort' as (Hperm & _).
    rewrite Hperm in He. rewrite Forall_forall in Hkeys.
    exact (Hkeys e He). }
  exists res. unfold get_upcoming_birthdays. rewrite Hloop. cbn [bind].
  split; [exact Hres | ].
  intros e He. apply sort_entries_spec in Hres. destruct Hres as (Hperm & _).
  rewrite Hperm in He. exact (Hsub e He).
Qed.

(** A record with a birthday is due in every window of 367 days or
    more. *)
Lemma upcoming_entry_wide_window (today : date) (days : Z)
    (r : ContactRecord) (bd : Field) (bday : date) :
  valid_date today = true -> year today < 9999 ->
  birthday r = Some bd -> valid_date bday = true ->
  value bd = DD_MM_YYYY bday -> 367 <= days ->
  exists e, upcoming_entry today days r = Ok (Some e)
            /\ entry_name e = value (name r).
Proof.
  intros Ht Hlast Hbd Hv Hval Hwide.
  destruct (birthday_this_year_ok today bday Ht Hv Hlast) as [b Hb].
  destruct (birthday_this_year_inv _ _ _ Ht Hv Hb) as [Hvb _].
  destruct (congrat_date_ok b Hvb) as (c & Hc & _).
  destruct (next_occurrence_bounds _ _ _ Ht Hv Hb) as [_ Hwin].
  destruct (congrat_date_bounds b c Hvb Hc) as (_ & _ & Ho).
  assert (Hd : 0 <= date_sub_days c today <= 367)
    by (unfold date_sub_days; lia).
  exists (mkEntry (value (name r)) (strftime c)).
  split; [ | reflexivity].
  apply upcoming_entry_Some. exists bd, bday, b, c.
  repeat split; try assumption; try lia.
  unfold date_value. rewrite Hval. apply strptime_DD_MM_YYYY, Hv.
Qed.

Lemma omap_length_bound (today : date) (days : Z)
    (rs : list ContactRecord) (os : list (option entry)) :
  Forall2 (fun r o => upcoming_entry today days r = Ok o) rs os ->
  (length (omap id os)
   <= length (filter (fun r => birthday r <> None) rs))%nat
  /\ ((forall r, r ∈ rs -> birthday r <> None ->
         exists e, upcoming_entry today days r = Ok (Some e)) ->
      length (omap id os)
      = length (filter (fun r => birthday r <> None) rs)).
Proof.
  induction 1 as [ | r o rs os Hr _ [IHle IHeq]]; [split; reflexivity | ].
  rewrite filter_cons.
  destruct (decide (birthday r <> None)) as [Hb | Hb].
  - split.
    + destruct o; cbn [omap list_omap id length]; cbn; lia.
    + intros Hall. destruct (Hall r) as [e He]; [left | exact Hb | ].
      rewrite Hr in He. injection He as ->. cbn. f_equal. apply IHeq.
      intros r' Hr'. apply Hall. right. exact Hr'.
  - assert (Ho : o = None).
    { destruct (birthday r) eqn:E; [destruct Hb; discriminate | ].
      rewrite (upcoming_entry_no_birthday _ _ _ E) in Hr. congruence. }
    subst o. cbn. split; [exact IHle | ].
    intros Hall. apply IHeq. intros r' Hr'. apply Hall. right. exact Hr'.
Qed.

(** X16.  The call reports at most one entry for each record that has a
    birthday; with a window of 367 days or more it reports exactly one for
    each of them, whatever the birthday. *)
Theorem window_of_367_days_reports_every_birthday
    (today : date) (book : AddressBook) (days : Z) :
  valid_date today = true -> year today < 9999 ->
  strftime_Y_zero_fill = true \/ 1000 <= year today ->
  stored_as_DD_MM_YYYY book ->
  exists res : list entry,
    get_upcoming_birthdays today book days = Ok res
    /\ (length res
        <= length (filter (fun r => birthday r <> None) (values book)))%nat
    /\ (367 <= days ->
        length res
        = length (filter (fun r => birthday r <> None) (values book))
        /\ forall r : ContactRecord,
             r ∈ values book -> birthday r <> None ->
             exists e, e ∈ res /\ entry_name e = value (name r)).
Proof.
  intros Ht Hlast Hfill Hstored.
  destruct (get_upcoming_birthdays_returns today book days
              Ht Hlast Hfill Hstored) as [res Hres].
  exists res. split; [exact Hres | ].
  pose proof Hres as Hinv. apply get_upcoming_birthdays_inv in Hinv.
  destruct Hinv as (upcoming & Hloop & Hsort).
  apply sort_entries_spec in Hsort. destruct Hsort as (Hperm & _).
  rewrite upcoming_loop_spec in Hloop.
  destruct (mapM (upcoming_entry today days) (values book)) as [os | ]
    eqn:Em; [ | discriminate].
  cbn [bind app] in Hloop. injection Hloop as <-.
  apply mapM_Forall2 in Em.
  destruct (omap_length_bound _ _ _ _ Em) as [Hle Heq].
  rewrite Hperm. split; [exact Hle | ].
  intros Hwide.
  assert (Hall : forall r, r ∈ values book -> birthday r <> None ->
                   exists e, upcoming_entry today days r = Ok (Some e)
                             /\ entry_name e = value (name r)).
  { intros r Hr Hb. destruct (birthday r) as [bd | ] eqn:Ebd;
      [ | contradiction].
    destruct (Hstored r bd Hr Ebd) as (bday & Hv & Hval).
    exact (upcoming_entry_wide_window _ _ _ _ _ Ht Hlast Ebd Hv Hval Hwide). }
  split.
  - apply Heq. intros r Hr Hb. destruct (Hall r Hr Hb) as (e & He & _).
    eauto.
  - intros r Hr Hb. destruct (Hall r Hr Hb) as (e & He & Hn).
    exists e. split; [ | exact Hn].
    apply (get_upcoming_birthdays_elem_of _ _ _ _ e Hres).
    exists r. split; [exact Hr | apply upcoming_entry_Some, He].
Qed.

(** X17.  A contact whose birthday falls on [today], a day from Monday to
    Friday, is reported with today's date in every window of zero days or
    more. *)
Theorem birthday_today_is_reported_today
    (today : date) (book : AddressBook) (days : Z) (res : list entry)
    (r : ContactRecord) (bd : Field) (bday : date) :
  valid_date today = true ->
  strftime_Y_zero_fill = true \/ 1000 <= year today ->
  get_upcoming_birthdays today book days = Ok res ->
  r ∈ values book -> birthday r = Some bd ->
  valid_date bday = true -> value bd = DD_MM_YYYY bday ->
  month bday = month today -> day bday = day today ->
  weekday today <= 4 -> 0 <= days ->
  mkEntry (value (name r)) (DD_MM_YYYY today) ∈ res.
Proof.
  intros Ht Hfill Hres Hr Hbd Hv Hval Hm Hd Hw Hdays.
  apply (get_upcoming_birthdays_elem_of _ _ _ _ _ Hres).
  exists r. split; [exact Hr | ].
  assert (Hocc : occurrence_in_year bday (year today) = today).
  { unfold occurrence_in_year. rewrite Hm, Hd.
    destruct ((month today =? 2) && (day today =? 29)
              && negb (_is_leap (year today))) eqn:E.
    - exfalso. apply valid_date_iff in Ht. destruct Ht as (_ & _ & Hdim).
      unfold _days_in_month in Hdim.
      assert (Em : month today = 2) by lia.
      assert (Ed : day today = 29) by lia.
      assert (El : _is_leap (year today) = false)
        by (destruct (_is_leap (year today)); [cbn in E; lia | reflexivity]).
      rewrite Em, El in Hdim. revert Hdim. eval_tables. lia.
    - destruct today. reflexivity. }
  assert (Hy : 1 <= year today <= 9999)
    by (apply valid_date_iff in Ht; lia).
  destruct (safe_birthday_in_range bday (year today) Hv Hy) as [Hsafe _].
  rewrite Hocc in Hsafe.
  exists bd, bday, today, today.
  split; [exact Hbd | ].
  split; [unfold date_value; rewrite Hval; apply strptime_DD_MM_YYYY, Hv | ].
  split; [unfold birthday_this_year; rewrite Hsafe; cbn [bind];
          rewrite date_ltb_irrefl; reflexivity | ].
  pose proof (weekday_range today).
  split; [unfold congrat_date;
          destruct (Z.eqb_spec (weekday today) 5); [lia | ];
          destruct (Z.eqb_spec (weekday today) 6); [lia | reflexivity] | ].
  split; [unfold date_sub_days; lia | ].
  rewrite strftime_DD_MM_YYYY; [reflexivity | ].
  destruct Hfill; [auto | right; lia].
Qed.

End upcoming_more.

Lemma narrower_window_reports_less_witness :
  exists res : list entry,
    @get_upcoming_birthdays glibc (mkdate 2025 1 1) sample_book 1 = Ok res
    /\ forall e : entry,
         e ∈ res ->
         e ∈ [mkEntry (lit "Bob") (lit "01.01.2025");
              mkEntry (lit "Ann") (lit "03.01.2025")].
Proof.
  apply (@narrower_window_reports_less glibc (mkdate 2025 1 1) sample_book
           1 7).
  - lia.
  - vm_compute. reflexivity.
Defined.

Lemma sample_book_stored : stored_as_DD_MM_YYYY sample_book.
Proof.
  intros r bd Hr Hbd. unfold sample_book, values in Hr.
  rewrite !fmap_cons, fmap_nil in Hr. cbn [snd] in Hr.
  rewrite !elem_of_cons, elem_of_nil in Hr.
  destruct Hr as [-> | [-> | []]]; cbn [birthday] in Hbd;
    injection Hbd as <-.
  - exists (mkdate 1990 1 3). split; reflexivity.
  - exists (mkdate 1985 1 1). split; reflexivity.
Qed.

Lemma window_of_367_days_reports_every_birthday_witness :
  exists res : list entry,
    @get_upcoming_birthdays glibc (mkdate 2025 1 1) sample_book 400 = Ok res
    /\ (length res
        <= length (filter (fun r => birthday r <> None)
                     (values sample_book)))%nat
    /\ (367 <= 400 ->
        length res
        = length (filter (fun r => birthday r <> None) (values sample_book))
        /\ forall r : ContactRecord,
             r ∈ values sample_book -> birthday r <> None ->
             exists e, e ∈ res /\ entry_name e = value (name r)).
Proof.
  apply (@window_of_367_days_reports_every_birthday glibc (mkdate 2025 1 1)
           sample_book 400).
  - reflexivity.
  - cbn. lia.
  - right. cbn. lia.
  - exact sample_book_stored.
Defined.

Lemma birthday_today_is_reported_today_witness :
  mkEntry (lit "Bob") (DD_MM_YYYY (mkdate 2025 1 1))
  ∈ [mkEntry (lit "Bob") (lit "01.01.2025");
     mkEntry (lit "Ann") (lit "03.01.2025")].
Proof.
  apply (@birthday_today_is_reported_today glibc (mkdate 2025 1 1)
           sample_book 7 _
           (mkRecord (mkField (lit "Bob")) []
              (Some (mkField (lit "01.01.1985"))))
           (mkField (lit "01.01.1985")) (mkdate 1985 1 1)).
  - reflexivity.
  - right. cbn. lia.
  - vm_compute. reflexivity.
  - right. left.
  - reflexivity.
  - reflexivity.
  - reflexivity.
  - reflexivity.
  - reflexivity.
  - vm_compute. discriminate.
  - lia.
Defined.

(* ===================================================================== *)
(** * Further properties: the commands *)
(* ===================================================================== *)

Section shell.

Context `{libc : LibC} `{builtins : Shell.Builtins}.

Lemma call_method_outcome {A} (book : AddressBook) (key : pystr)
    (record : ContactRecord) (m : method A) :
  Shell.call_method book key record m
  = (Shell.of_result (m record).1, dict_set book key (m record).2).
Proof. unfold Shell.call_method. destruct (m record). reflexivity. Qed.

(** X18.  With too few arguments no command changes the book.  [add] with
    fewer than two arguments answers with the error of the unpacking (a
    ValueError, so "Error: ..." and not "Not enough arguments."); [change]
    with fewer than three, [add_birthday] with fewer than two, [phone] and
    [show_birthday] with none answer "Not enough arguments.". *)
Theorem commands_with_too_few_arguments (args : list pystr)
    (book : AddressBook) :
  ((length args < 2)%nat ->
   Shell.add_contact args book
   = (Shell.Returns (Shell.SayError (Shell.UnpackError (length args))), book)
   /\ Shell.add_birthday args book
      = (Shell.Returns (Shell.Say (lit "Not enough arguments.")), book))
  /\ ((length args < 3)%nat ->
      Shell.change_contact args book
      = (Shell.Returns (Shell.Say (lit "Not enough arguments.")), book))
  /\ (args = [] ->
      Shell.show_phone args book
      = (Shell.Returns (Shell.Say (lit "Not enough arguments.")), book)
      /\ Shell.show_birthday args book
         = (Shell.Returns (Shell.Say (lit "Not enough arguments.")), book)).
Proof.
  split; [ | split].
  - intros Hl. destruct args as [ | a [ | b args]]; cbn in Hl; try lia;
      split; reflexivity.
  - intros Hl. destruct args as [ | a [ | b [ | c args]]]; cbn in Hl; try lia;
      reflexivity.
  - intros ->. split; reflexivity.
Qed.

(** X19.  For a name that is not in the book, [change], [phone],
    [add_birthday] and [show_birthday] answer "Name not found." and leave
    the book as it was, whatever the other arguments. *)
Theorem commands_on_an_unknown_name (nm : pystr) (rest : list pystr)
    (book : AddressBook) :
  find book nm = None ->
  Shell.show_phone (nm :: rest) book
  = (Shell.Returns (Shell.Say (lit "Name not found.")), book)
  /\ Shell.show_birthday (nm :: rest) book
     = (Shell.Returns (Shell.Say (lit "Name not found.")), book)
  /\ ((1 <= length rest)%nat ->
      Shell.add_birthday (nm :: rest) book
      = (Shell.Returns (Shell.Say (lit "Name not found.")), book))
  /\ ((2 <= length rest)%nat ->
      Shell.change_contact (nm :: rest) book
      = (Shell.Returns (Shell.Say (lit "Name not found.")), book)).
Proof.
  intros Hnone.
  unfold Shell.show_phone, Shell.show_birthday, Shell.add_birthday,
    Shell.change_contact, Shell.decorated, Shell.show_phone_func,
    Shell.show_birthday_func, Shell.add_birthday_func,
    Shell.change_contact_func.
  rewrite Hnone. repeat split.
  - intros Hl. destruct rest as [ | a rest]; [cbn in Hl; lia | reflexivity].
  - intros Hl. destruct rest as [ | a [ | b rest]]; cbn in Hl; try lia.
    reflexivity.
Qed.


Lemma Record_init_value (nm : pystr) :
  strip nm <> [] ->
  Record_init nm = Ok (mkRecord (mkField (strip nm)) [] None).
Proof.
  intros Hne. unfold Record_init, Name.
  rewrite bool_decide_eq_false_2 by exact Hne. reflexivity.
Qed.

Lemma dict_set_set (data : AddressBook) (k : pystr) (v v' : ContactRecord) :
  dict_set (dict_set data k v) k v' = dict_set data k v'.
Proof.
  induction data as [ | [k0 v0] data IH]; cbn [dict_set].
  - rewrite bool_decide_eq_true_2 by reflexivity. reflexivity.
  - case_bool_decide as E; cbn [dict_set].
    + rewrite bool_decide_eq_true_2 by reflexivity. reflexivity.
    + rewrite bool_decide_eq_false_2 by exact E. f_equal. exact IH.
Qed.

(** X20.  [add] for a new name makes the record and puts it in the book
    before it looks at the phone: when the phone is refused the answer is the
    error of [Phone], and the contact is in the book all the same, without
    phones. *)
Theorem add_keeps_the_new_contact_when_the_phone_is_refused
    (nm phone : pystr) (rest : list pystr) (book : AddressBook) (e : exn) :
  find book nm = None -> strip nm <> [] -> phone <> [] ->
  Phone phone = Raise e ->
  let record := mkRecord (mkField (strip nm)) [] None in
  Shell.add_contact (nm :: phone :: rest) book
  = (Shell.Returns (Shell.SayError (Shell.Core (ValueError MsgPhoneTenDigits))),
     add_record book record)
  /\ find (add_record book record) (strip nm) = Some record
  /\ Shell.show_phone [strip nm] (add_record book record)
     = (Shell.Returns (Shell.Say (lit "No phones found.")),
        add_record book record).
Proof.
  intros Hnone Hname Hphone He record.
  assert (Hget : dict_get (dict_set book (strip nm) record) (strip nm)
                 = Some record) by apply dict_get_set_eq.
  split; [ | split].
  - unfold Shell.add_contact, Shell.decorated, Shell.add_contact_func.
    rewrite Hnone, (Record_init_value nm Hname).
    unfold Shell.truthy. rewrite bool_decide_eq_false_2 by exact Hphone.
    cbn [negb]. rewrite call_method_outcome. unfold add_phone.
    destruct (Phone_cases phone) as [(_ & _ & Hok) | (_ & Hr)];
      [congruence | ].
    rewrite Hr. cbn [fst snd Shell.of_result Shell.input_error].
    unfold add_record. cbn [name value]. fold record.
    rewrite dict_set_set. reflexivity.
  - exact Hget.
  - unfold Shell.show_phone, Shell.decorated, Shell.show_phone_func, find,
      add_record. cbn [name value record]. fold record. rewrite Hget.
    reflexivity.
Qed.


(** X22.  [change] for a name of the book: when the record has no phone of
    the old value, or the new text is refused by [Phone], the answer is the
    error and the book is as it was; otherwise the answer is "Phone
    updated.", the record of that name has the trimmed new text at the place
    of the first phone of the old value (the phone at place [i], no phone
    before it having that value), and the names of the book, their order
    and the other records are as before. *)
Theorem change_edits_the_phone_of_the_contact
    (nm old new : pystr) (rest : list pystr) (book : AddressBook)
    (r : ContactRecord) :
  find book nm = Some r ->
  ((forall p : Field, p ∈ phones r -> value p <> old) ->
   Shell.change_contact (nm :: old :: new :: rest) book
   = (Shell.Returns
        (Shell.SayError (Shell.Core (ValueError (MsgOldPhoneNotFound old)))),
      book))
  /\ (forall e : exn,
        (exists p, p ∈ phones r /\ value p = old) -> Phone new = Raise e ->
        Shell.change_contact (nm :: old :: new :: rest) book
        = (Shell.Returns
             (Shell.SayError (Shell.Core (ValueError MsgPhoneTenDigits))),
           book))
  /\ (forall (i : nat) (q : Field),
        phones r !! i = Some (mkField old) ->
        (forall (j : nat) (p : Field),
           (j < i)%nat -> phones r !! j = Some p -> value p <> old) ->
        Phone new = Ok q ->
        let r' := mkRecord (name r)
                    (<[i := mkField (strip new)]> (phones r)) (birthday r) in
        Shell.change_contact (nm :: old :: new :: rest) book
        = (Shell.Returns (Shell.Say (lit "Phone updated.")),
           dict_set book nm r')
        /\ find (dict_set book nm r') nm = Some r'
        /\ (forall nm', nm' <> nm ->
              find (dict_set book nm r') nm' = find book nm')
        /\ keys (dict_set book nm r') = keys book).
Proof.
  intros Hfound.
  assert (Hsame : dict_set book nm r = book) by (apply dict_set_same, Hfound).
  assert (Hcall : Shell.change_contact (nm :: old :: new :: rest) book
                  = (Shell.input_error
                       (match Shell.of_result (edit_phone old new r).1 with
                        | Shell.Returns _ =>
                            Shell.Returns (lit "Phone updated.")
                        | Shell.Raises x => Shell.Raises x
                        end),
                     dict_set book nm (edit_phone old new r).2)).
  { unfold Shell.change_contact, Shell.decorated, Shell.change_contact_func.
    rewrite Hfound, call_method_outcome.
    destruct (Shell.of_result (edit_phone old new r).1); reflexivity. }
  rewrite Hcall. clear Hcall.
  split; [ | split].
  - intros Hnone.
    assert (Hslot : find_phone_slot (phones r) old = None).
    { apply find_phone_slot_None. intros j q Hj. apply Hnone.
      apply list_elem_of_lookup. eauto. }
    unfold edit_phone. rewrite Hslot.
    cbn [fst snd Shell.of_result Shell.input_error]. rewrite Hsame.
    reflexivity.
  - intros e Hold He.
    destruct (find_phone_slot_stored _ _ Hold) as (i & Hi & _).
    destruct (Phone_cases new) as [(_ & _ & Hok) | (_ & Hr)]; [congruence | ].
    unfold edit_phone. rewrite Hi, Hr.
    cbn [fst snd Shell.of_result Shell.input_error]. rewrite Hsame.
    reflexivity.
  - intros i q Hpi Hfirst Hq r'.
    pose proof (find_phone_slot_is_first _ _ _ Hpi Hfirst) as Hi.
    destruct (Phone_cases new) as [(_ & _ & Hok) | (_ & Hr)]; [ | congruence].
    unfold edit_phone. rewrite Hi, Hok.
    cbn [fst snd Shell.of_result Shell.input_error value].
    split; [reflexivity | ].
    split; [apply dict_get_set_eq | ].
    split; [intros nm' Hne; apply dict_get_set_ne, Hne | ].
    apply keys_dict_set_present.
    destruct (decide (nm ∈ keys book)) as [ | Hn]; [assumption | ].
    apply dict_get_None in Hn. unfold find in Hfound. congruence.
Qed.

(** X23.  [add_birthday] for a name of the book: a text that [Birthday]
    refuses gives the error and changes nothing; a text it accepts gives
    "Birthday added." and replaces the birthday of the contact, and
    [show_birthday] then answers with the stored text, the date as
    [strftime] writes it.  For a contact without birthday [show_birthday]
    answers "Birthday not set.". *)
Theorem add_birthday_then_show_birthday
    (nm raw : pystr) (rest : list pystr) (book : AddressBook)
    (r : ContactRecord) :
  find book nm = Some r ->
  (forall e : exn,
     Birthday raw = Raise e ->
     Shell.add_birthday (nm :: raw :: rest) book
     = (Shell.Returns
          (Shell.SayError (Shell.Core (ValueError MsgBirthdayFormat))),
        book))
  /\ (forall b : Field,
        Birthday raw = Ok b ->
        let r' := mkRecord (name r) (phones r) (Some b) in
        Shell.add_birthday (nm :: raw :: rest) book
        = (Shell.Returns (Shell.Say (lit "Birthday added.")),
           dict_set book nm r')
        /\ Shell.show_birthday [nm] (dict_set book nm r')
           = (Shell.Returns (Shell.Say (value b)), dict_set book nm r')
        /\ exists dt, strptime (strip raw) = Ok dt
                      /\ value b = strftime dt)
  /\ (birthday r = None ->
      Shell.show_birthday (nm :: rest) book
      = (Shell.Returns (Shell.Say (lit "Birthday not set.")), book)).
Proof.
  intros Hfound.
  assert (Hsame : dict_set book nm r = book) by (apply dict_set_same, Hfound).
  split; [ | split].
  - intros e He.
    unfold Shell.add_birthday, Shell.decorated, Shell.add_birthday_func.
    rewrite Hfound, call_method_outcome.
    destruct (Birthday_cases raw) as [(dt & _ & Hok) | (_ & Hr)];
      [congruence | ].
    unfold add_birthday. rewrite Hr.
    cbn [fst snd Shell.of_result Shell.input_error]. rewrite Hsame.
    reflexivity.
  - intros b Hb r'. split; [ | split].
    + unfold Shell.add_birthday, Shell.decorated, Shell.add_birthday_func.
      rewrite Hfound, call_method_outcome.
      unfold add_birthday. rewrite Hb. reflexivity.
    + unfold Shell.show_birthday, Shell.decorated, Shell.show_birthday_func,
        find.
      rewrite dict_get_set_eq. reflexivity.
    + destruct (Birthday_cases raw) as [(dt & Hp & Hok) | (_ & Hr)];
        [ | congruence].
      exists dt. split; [exact Hp | ]. rewrite Hok in Hb.
      injection Hb as <-. reflexivity.
  - intros Hnone.
    unfold Shell.show_birthday, Shell.decorated, Shell.show_birthday_func.
    rewrite Hfound, Hnone. reflexivity.
Qed.

(** ** What the commands keep *)

Lemma find_Some_key (book : AddressBook) (nm : pystr) (r : ContactRecord) :
  find book nm = Some r -> nm ∈ keys book /\ (nm, r) ∈ book.
Proof.
  intros Hf. split; [ | apply dict_get_Some_elem, Hf].
  destruct (decide (nm ∈ keys book)) as [ | Hn]; [assumption | ].
  apply dict_get_None in Hn. unfold find in Hf. congruence.
Qed.

Lemma dict_set_Forall (P : pystr * ContactRecord -> Prop)
    (data : AddressBook) (k : pystr) (v : ContactRecord) :
  Forall P data -> P (k, v) -> Forall P (dict_set data k v).
Proof.
  intros Hall Hkv. induction Hall as [ | [k0 v0] data H0 Hrest IH];
    cbn [dict_set].
  - repeat constructor. exact Hkv.
  - case_bool_decide; constructor; assumption.
Qed.

Lemma keys_dict_set (data : AddressBook) (k : pystr) (v : ContactRecord) :
  keys (dict_set data k v)
  = if decide (k ∈ keys data) then keys data else keys data ++ [k].
Proof.
  destruct (decide (k ∈ keys data)) as [Hin | Hn].
  - apply keys_dict_set_present, Hin.
  - rewrite dict_set_absent by exact Hn. unfold keys.
    rewrite fmap_app. reflexivity.
Qed.

Lemma dict_set_book_ok (book : AddressBook) (k : pystr)
    (v : ContactRecord) :
  book_ok book -> k = value (name v) -> record_ok v ->
  book_ok (dict_set book k v).
Proof.
  intros [Hnd Hall] Hk Hv. split.
  - rewrite keys_dict_set. destruct (decide (k ∈ keys book)) as [ | Hn];
      [exact Hnd | ].
    apply NoDup_app. split; [exact Hnd | ].
    split; [ | apply NoDup_singleton].
    intros x Hx Hx'. apply list_elem_of_singleton in Hx'. subst x.
    contradiction.
  - apply dict_set_Forall; [exact Hall | ]. cbn [fst snd]. auto.
Qed.

Lemma book_ok_record (book : AddressBook) (nm : pystr) (r : ContactRecord) :
  book_ok book -> find book nm = Some r ->
  nm = value (name r) /\ record_ok r.
Proof.
  intros [_ Hall] Hf. apply find_Some_key in Hf. destruct Hf as [_ Hin].
  rewrite Forall_forall in Hall. exact (Hall _ Hin).
Qed.

(** A step keeps the book valid and keeps its names, in their order,
    adding at most one at the end. *)
Lemma book_step_keeps (book book' : AddressBook) :
  book_step book book' ->
  (book_ok book -> book_ok book')
  /\ (keys book' = keys book
      \/ exists nm, (nm ∉ keys book) /\ keys book' = keys book ++ [nm]).
Proof.
  assert (Hset : forall (b : AddressBook) k v,
            keys (dict_set b k v) = keys b
            \/ exists nm, (nm ∉ keys b) /\ keys (dict_set b k v) = keys b ++ [nm]).
  { intros b k v. rewrite keys_dict_set.
    destruct (decide (k ∈ keys b)); [left; reflexivity | right; eauto]. }
  intros [-> | [(nm & r & c & Hf & ->) | (nm & r0 & Hinit & Hb)]].
  - split; [exact id | left; reflexivity].
  - split.
    + intros Hok. destruct (book_ok_record _ _ _ Hok Hf) as [Hk Hr].
      destruct (run_call_keeps c r Hr) as (Hr' & Hn' & _).
      apply dict_set_book_ok; [exact Hok | congruence | exact Hr'].
    + left. apply keys_dict_set_present, (find_Some_key _ _ _ Hf).
  - destruct (Record_init_ok _ _ Hinit) as (Hr0 & _).
    assert (Hadd : book_ok book -> book_ok (add_record book r0)).
    { intros Hok. apply dict_set_book_ok; [exact Hok | reflexivity | exact Hr0]. }
    destruct Hb as [-> | [c ->]].
    + split; [exact Hadd | apply Hset].
    + split.
      * intros Hok. destruct (run_call_keeps c r0 Hr0) as (Hr' & Hn' & _).
        apply dict_set_book_ok; [exact (Hadd Hok) | congruence | exact Hr'].
      * unfold add_record. rewrite dict_set_set. apply Hset.
Qed.

Lemma call_method_step (book : AddressBook) (nm : pystr)
    (r : ContactRecord) (c : record_call) :
  find book nm = Some r ->
  book_step book (Shell.call_method book nm r (run_call c)).2.
Proof.
  intros Hf. rewrite call_method_outcome. cbn [snd].
  right. left. exists nm, r, c. auto.
Qed.

Lemma add_contact_step (args : list pystr) (book : AddressBook) :
  book_step book (Shell.add_contact args book).2.
Proof.
  unfold Shell.add_contact, Shell.decorated, Shell.add_contact_func.
  destruct args as [ | nm [ | phone rest]]; try (left; reflexivity).
  destruct (find book nm) as [r | ] eqn:Hf.
  - destruct (Shell.truthy phone); [ | left; reflexivity].
    pose proof (call_method_step book nm r (CallAddPhone phone) Hf) as Hs.
    cbn [run_call] in Hs.
    destruct (Shell.call_method book nm r (add_phone phone)) as [[ | ] b'];
      exact Hs.
  - destruct (Record_init nm) as [r0 | ] eqn:Hinit; [ | left; reflexivity].
    destruct (Shell.truthy phone).
    + assert (Hs : book_step book
                     (Shell.call_method (add_record book r0)
                        (value (name r0)) r0 (add_phone phone)).2).
      { rewrite call_method_outcome. cbn [snd]. right. right.
        exists nm, r0. split; [exact Hinit | ]. right.
        exists (CallAddPhone phone). reflexivity. }
      destruct (Shell.call_method (add_record book r0) (value (name r0)) r0
                  (add_phone phone)) as [[ | ] b']; exact Hs.
    + right. right. exists nm, r0. auto.
Qed.

Lemma change_contact_step (args : list pystr) (book : AddressBook) :
  book_step book (Shell.change_contact args book).2.
Proof.
  unfold Shell.change_contact, Shell.decorated, Shell.change_contact_func.
  destruct args as [ | nm [ | old [ | new rest]]]; try (left; reflexivity).
  destruct (find book nm) as [r | ] eqn:Hf; [ | left; reflexivity].
  pose proof (call_method_step book nm r (CallEditPhone old new) Hf) as Hs.
  cbn [run_call] in Hs.
  destruct (Shell.call_method book nm r (edit_phone old new)) as [[ | ] b'];
    exact Hs.
Qed.

Lemma add_birthday_step (args : list pystr) (book : AddressBook) :
  book_step book (Shell.add_birthday args book).2.
Proof.
  unfold Shell.add_birthday, Shell.decorated, Shell.add_birthday_func.
  destruct args as [ | nm [ | raw rest]]; try (left; reflexivity).
  destruct (find book nm) as [r | ] eqn:Hf; [ | left; reflexivity].
  pose proof (call_method_step book nm r (CallAddBirthday raw) Hf) as Hs.
  cbn [run_call] in Hs.
  destruct (Shell.call_method book nm r (add_birthday raw)) as [[ | ] b'];
    exact Hs.
Qed.

Lemma read_only_commands (today : date) (args : list pystr)
    (book : AddressBook) :
  (Shell.show_phone args book).2 = book
  /\ (Shell.show_birthday args book).2 = book
  /\ (Shell.birthdays today args book).2 = book.
Proof.
  split; [ | split].
  - unfold Shell.show_phone, Shell.decorated, Shell.show_phone_func.
    destruct args as [ | nm rest]; [reflexivity | ].
    destruct (find book nm) as [r | ]; [ | reflexivity].
    destruct (phones r); reflexivity.
  - unfold Shell.show_birthday, Shell.decorated, Shell.show_birthday_func.
    destruct args as [ | nm rest]; [reflexivity | ].
    destruct (find book nm) as [r | ]; [ | reflexivity].
    destruct (birthday r); reflexivity.
  - unfold Shell.birthdays, Shell.decorated, Shell.birthdays_func.
    destruct args as [ | a rest].
    + destruct (get_upcoming_birthdays today book 7) as [[ | ] | ];
        reflexivity.
    + destruct (Shell.int_str a) as [n | ]; [ | reflexivity].
      destruct (get_upcoming_birthdays today book n) as [[ | ] | ];
        reflexivity.
Qed.

Lemma dispatch_step (today : date) (cmd : pystr) (args : list pystr)
    (book : AddressBook) :
  book_step book (Shell.dispatch today cmd args book).2
  /\ (cmd <> lit "add" -> cmd <> lit "change" -> cmd <> lit "add_birthday" ->
      (Shell.dispatch today cmd args book).2 = book).
Proof.
  destruct (read_only_commands today args book) as (Hp & Hs & Hb).
  unfold Shell.dispatch.
  repeat (case_bool_decide;
          [first [ split; [left; reflexivity | reflexivity]
                 | split; [apply add_contact_step | congruence]
                 | split; [apply change_contact_step | congruence]
                 | split; [apply add_birthday_step | congruence]
                 | split; [left; assumption | intros; assumption] ] | ]).
  split; [left; reflexivity | reflexivity].
Qed.

(** X24.  No command takes a name out of the book or moves one: after a
    command the names of the book are those it had, in the same order,
    with at most one new name at the end; and every command other than
    [add], [change] and [add_birthday] (the unknown ones included) leaves
    the whole book as it was. *)
Theorem commands_never_remove_a_contact (today : date) (cmd : pystr)
    (args : list pystr) (book : AddressBook) :
  (keys (Shell.dispatch today cmd args book).2 = keys book
   \/ exists nm, (nm ∉ keys book)
                 /\ keys (Shell.dispatch today cmd args book).2
                    = keys book ++ [nm])
  /\ (cmd <> lit "add" -> cmd <> lit "change" -> cmd <> lit "add_birthday" ->
      (Shell.dispatch today cmd args book).2 = book).
Proof.
  destruct (dispatch_step today cmd args book) as [Hstep Hro].
  split; [exact (proj2 (book_step_keeps _ _ Hstep)) | exact Hro].
Qed.

(** X25.  The commands keep the book valid over a whole session: when the
    names of the book are distinct, every record is stored under its own
    name, and every record holds a name and phones that [Name] and [Phone]
    accept as they are and a birthday, if any, that is what [strftime]
    writes for a date of the calendar, the same is true after any command
    (whether it succeeds or answers with an error) and of the book the loop
    ends with; and that book has the names it started with, in their
    order, followed by the new ones. *)
Theorem session_keeps_the_book_valid :
  (forall (today : date) (cmd : pystr) (args : list pystr)
          (book : AddressBook),
     book_ok book -> book_ok (Shell.dispatch today cmd args book).2)
  /\ (forall (inputs : list (pystr * date)) (book book' : AddressBook)
             (out out' : list Shell.reply),
        Shell.main_loop inputs book out = (Shell.Returns book', out') ->
        (book_ok book -> book_ok book')
        /\ keys book `prefix_of` keys book'
        /\ exists printed,
             out' = out ++ printed ++ [Shell.Say (lit "Good bye!")]).
Proof.
  split.
  - intros today cmd args book Hok.
    destruct (dispatch_step today cmd args book) as [Hstep _].
    exact (proj1 (book_step_keeps _ _ Hstep) Hok).
  - induction inputs as [ | [line today] rest IH]; intros book book' out out';
      cbn [Shell.main_loop]; [discriminate | ].
    destruct (Shell.parse_input line) as [[[cmd | ] args] | ];
      [ | | discriminate].
    + destruct (bool_decide (cmd = lit "close")
                || bool_decide (cmd = lit "exit")).
      * intros [= <- <-]. split; [exact id | ]. split; [reflexivity | ].
        exists []. reflexivity.
      * destruct (dispatch_step today cmd args book) as [Hstep _].
        destruct (book_step_keeps _ _ Hstep) as [Hok Hkeys].
        destruct (Shell.dispatch today cmd args book) as [[r | ] book1];
          [ | discriminate].
        cbn [snd] in Hok, Hkeys. intros Hloop.
        destruct (IH _ _ _ _ Hloop) as (Hok' & Hpre & printed & ->).
        split; [auto | ]. split.
        -- etransitivity; [ | exact Hpre].
           destruct Hkeys as [-> | (nm & _ & ->)];
             [reflexivity | apply prefix_app_r; reflexivity].
        -- exists (r :: printed). rewrite <- app_assoc. reflexivity.
    + apply IH.
Qed.

End shell.

Lemma commands_with_too_few_arguments_witness :
  Shell.add_contact [lit "Ann"] sample_book
  = (Shell.Returns (Shell.SayError (Shell.UnpackError 1)), sample_book)
  /\ Shell.change_contact [lit "Ann"; lit "0501234567"] sample_book
     = (Shell.Returns (Shell.Say (lit "Not enough arguments.")), sample_book).
Proof.
  split.
  - apply (proj1 (@commands_with_too_few_arguments glibc [lit "Ann"]
                  sample_book)).
    cbn. lia.
  - apply (proj1 (proj2 (@commands_with_too_few_arguments glibc
                           [lit "Ann"; lit "0501234567"] sample_book))).
    cbn. lia.
Defined.

Lemma commands_on_an_unknown_name_witness :
  Shell.show_phone [lit "Zoe"] sample_book
  = (Shell.Returns (Shell.Say (lit "Name not found.")), sample_book).
Proof.
  apply (@commands_on_an_unknown_name glibc (lit "Zoe") [] sample_book).
  reflexivity.
Defined.

Lemma add_keeps_the_new_contact_when_the_phone_is_refused_witness :
  Shell.add_contact [lit "Cy"; lit "12345"] sample_book
  = (Shell.Returns (Shell.SayError (Shell.Core (ValueError MsgPhoneTenDigits))),
     add_record sample_book (mkRecord (mkField (lit "Cy")) [] None)).
Proof.
  apply (add_keeps_the_new_contact_when_the_phone_is_refused
           (lit "Cy") (lit "12345") [] sample_book
           (ValueError MsgPhoneTenDigits));
    try reflexivity; discriminate.
Defined.


Lemma change_edits_the_phone_of_the_contact_witness :
  let r := mkRecord (mkField (lit "Ann"))
             [mkField (lit "3333333333"); mkField (lit "1111111111");
              mkField (lit "1111111111")] None in
  let book := [(lit "Bob", mkRecord (mkField (lit "Bob")) [] None);
               (lit "Ann", r)] in
  Shell.change_contact [lit "Ann"; lit "1111111111"; lit "0990000000"] book
  = (Shell.Returns (Shell.Say (lit "Phone updated.")),
     [(lit "Bob", mkRecord (mkField (lit "Bob")) [] None);
      (lit "Ann",
       mkRecord (mkField (lit "Ann"))
         [mkField (lit "3333333333"); mkField (lit "0990000000");
          mkField (lit "1111111111")] None)]).
Proof.
  intros r book.
  refine (proj1 (proj2 (proj2 (change_edits_the_phone_of_the_contact
                   (lit "Ann") (lit "1111111111") (lit "0990000000") []
                   book r eq_refl))
                1%nat (mkField (lit "0990000000")) eq_refl _ eq_refl)).
  intros [ | j] p Hj Hp; [ | lia].
  injection Hp as <-. discriminate.
Defined.

Lemma add_birthday_then_show_birthday_witness :
  @Shell.add_birthday glibc [lit "Bob"; lit "5.6.1985"] sample_book
  = (Shell.Returns (Shell.Say (lit "Birthday added.")),
     dict_set sample_book (lit "Bob")
       (mkRecord (mkField (lit "Bob")) []
          (Some (mkField (lit "05.06.1985")))))
  /\ Shell.show_birthday [lit "Bob"]
       (dict_set sample_book (lit "Bob")
          (mkRecord (mkField (lit "Bob")) []
             (Some (mkField (lit "05.06.1985")))))
     = (Shell.Returns (Shell.Say (lit "05.06.1985")),
        dict_set sample_book (lit "Bob")
          (mkRecord (mkField (lit "Bob")) []
             (Some (mkField (lit "05.06.1985"))))).
Proof.
  destruct (proj1 (proj2 (@add_birthday_then_show_birthday glibc
                            (lit "Bob") (lit "5.6.1985") [] sample_book
                            (mkRecord (mkField (lit "Bob")) []
                               (Some (mkField (lit "01.01.1985"))))
                            eq_refl))
              (mkField (lit "05.06.1985")) eq_refl) as (Ha & Hs & _).
  split; [exact Ha | exact Hs].
Defined.

Lemma commands_never_remove_a_contact_witness :
  (@Shell.dispatch glibc ascii_builtins (mkdate 2025 1 1) (lit "birthdays")
     [lit "30"] sample_book).2 = sample_book.
Proof.
  apply (@commands_never_remove_a_contact glibc ascii_builtins
           (mkdate 2025 1 1) (lit "birthdays") [lit "30"] sample_book);
    discriminate.
Defined.

Lemma sample_book_ok : @book_ok glibc sample_book.
Proof.
  split.
  - apply (bool_decide_unpack _). vm_compute. reflexivity.
  - repeat constructor; cbn [birthday]; try (vm_compute; reflexivity).
    + intros b [= <-]. exists (mkdate 1990 1 3). split; reflexivity.
    + intros b [= <-]. exists (mkdate 1985 1 1). split; reflexivity.
Qed.

Lemma session_keeps_the_book_valid_witness :
  @book_ok glibc
    (@Shell.dispatch glibc ascii_builtins (mkdate 2025 1 1) (lit "add")
       [lit "Cy"; lit "12345"] sample_book).2.
Proof.
  apply (proj1 (@session_keeps_the_book_valid glibc ascii_builtins)).
  exact sample_book_ok.
Defined.

(* ===================================================================== *)
(** * Extra: the command line and the session *)
(* ===================================================================== *)

Lemma lstrip_decomp (s : pystr) :
  exists sp, s = sp ++ lstrip s /\ Forall (fun c => isspace_char c = true) sp.
Proof.
  induction s as [ | c s (sp & E & Hsp)].
  - exists []. split; [reflexivity | constructor].
  - cbn [lstrip]. destruct (isspace_char c) eqn:Ec.
    + exists (c :: sp). split; [cbn; congruence | constructor; assumption].
    + exists []. split; [reflexivity | constructor].
Qed.

Lemma rstrip_decomp (s : pystr) :
  exists sp, s = rstrip s ++ sp /\ Forall (fun c => isspace_char c = true) sp.
Proof.
  destruct (lstrip_decomp (rev s)) as (sp & E & Hsp).
  exists (rev sp). split.
  - unfold rstrip. rewrite <- rev_app_distr, <- E, rev_involutive.
    reflexivity.
  - apply Forall_rev, Hsp.
Qed.

Lemma split_from_lstrip (s : pystr) :
  Shell.split_from [] (lstrip s) = Shell.split_from [] s.
Proof.
  induction s as [ | c s IH]; [reflexivity | ].
  cbn [lstrip Shell.split_from]. destruct (isspace_char c) eqn:Ec;
    [exact IH | ].
  cbn [Shell.split_from]. rewrite Ec. reflexivity.
Qed.

Lemma split_from_snoc_space (s word : pystr) (c : char) :
  isspace_char c = true ->
  Shell.split_from word (s ++ [c]) = Shell.split_from word s.
Proof.
  intros Hc. revert word.
  induction s as [ | a s IH]; intros word; cbn [app Shell.split_from].
  - rewrite Hc. destruct word; reflexivity.
  - destruct (isspace_char a); [ | apply IH].
    destruct word; rewrite IH; reflexivity.
Qed.

Lemma split_from_app_spaces (s sp word : pystr) :
  Forall (fun c => isspace_char c = true) sp ->
  Shell.split_from word (s ++ sp) = Shell.split_from word s.
Proof.
  induction sp as [ | c sp IH] using rev_ind; intros Hsp.
  - rewrite app_nil_r. reflexivity.
  - apply Forall_app in Hsp as [Hsp Hc]. apply Forall_inv in Hc.
    rewrite app_assoc, split_from_snoc_space by exact Hc. apply IH, Hsp.
Qed.

Lemma split_strip (s : pystr) : Shell.split (strip s) = Shell.split s.
Proof.
  unfold Shell.split, strip.
  destruct (rstrip_decomp (lstrip s)) as (sp & E & Hsp).
  rewrite <- (split_from_lstrip s).
  rewrite <- (split_from_app_spaces (rstrip (lstrip s)) sp []) by exact Hsp.
  rewrite <- E. reflexivity.
Qed.

Lemma split_from_nil_iff (s word : pystr) :
  Shell.split_from word s = []
  <-> word = [] /\ Forall (fun c => isspace_char c = true) s.
Proof.
  revert word. induction s as [ | c s IH]; intros word;
    cbn [Shell.split_from].
  - destruct word; split.
    + intros _. split; [reflexivity | constructor].
    + reflexivity.
    + discriminate.
    + intros [? _]. discriminate.
  - destruct (isspace_char c) eqn:Ec.
    + destruct word.
      * rewrite IH. split; intros [? Hs]; split; trivial.
        -- constructor; assumption.
        -- exact (Forall_inv_tail Hs).
      * split; [discriminate | intros [? _]; discriminate].
    + rewrite IH. split.
      * intros [E _]. destruct word; discriminate.
      * intros [_ Hs]. apply Forall_inv in Hs. congruence.
Qed.

Lemma split_from_tokens (s word : pystr) :
  Forall (fun c => isspace_char c = false) word ->
  Forall (fun w => w <> [] /\ Forall (fun c => isspace_char c = false) w)
         (Shell.split_from word s).
Proof.
  revert word. induction s as [ | c s IH]; intros word Hw;
    cbn [Shell.split_from].
  - destruct word; [constructor | ].
    constructor; [split; [discriminate | exact Hw] | constructor].
  - destruct (isspace_char c) eqn:Ec.
    + destruct word; [apply IH; constructor | ].
      constructor; [split; [discriminate | exact Hw] | ].
      apply IH; constructor.
    + apply IH. apply Forall_app. split; [exact Hw | ].
      constructor; [exact Ec | constructor].
Qed.

Lemma split_from_word (w rest word : pystr) :
  Forall (fun c => isspace_char c = false) w ->
  Shell.split_from word (w ++ rest) = Shell.split_from (word ++ w) rest.
Proof.
  revert word. induction w as [ | c w IH]; intros word Hw.
  - rewrite app_nil_r. reflexivity.
  - cbn [app Shell.split_from]. rewrite (Forall_inv Hw).
    rewrite IH by exact (Forall_inv_tail Hw).
    rewrite <- app_assoc. reflexivity.
Qed.

Lemma split_from_last_word (w : pystr) :
  w <> [] ->
  Forall (fun c => isspace_char c = false) w ->
  Shell.split_from [] w = [w].
Proof.
  intros Hne Hw. rewrite <- (app_nil_r w) at 1.
  rewrite split_from_word by exact Hw. cbn [app Shell.split_from].
  destruct w; [contradiction | reflexivity].
Qed.

Lemma split_join (words : list pystr) :
  Forall (fun w => w <> [] /\ Forall (fun c => isspace_char c = false) w)
         words ->
  Shell.split (join (lit " ") words) = words.
Proof.
  unfold Shell.split.
  induction 1 as [ | w ws [Hne Hw] Hws IH]; [reflexivity | ].
  destruct ws as [ | w' ws].
  - cbn [join]. apply split_from_last_word; assumption.
  - change (join (lit " ") (w :: w' :: ws))
      with (w ++ 32 :: join (lit " ") (w' :: ws)).
    rewrite split_from_word by exact Hw. cbn [app Shell.split_from].
    change (isspace_char 32) with true. cbv iota.
    rewrite IH. destruct w; [contradiction | reflexivity].
Qed.

Lemma parse_input_cases `{builtins : Shell.Builtins} (user_input : pystr) :
  (Forall (fun c => isspace_char c = true) user_input ->
   Shell.parse_input user_input = Shell.Returns (None, []))
  /\ (~ Forall (fun c => isspace_char c = true) user_input ->
      exists cmd args,
        Shell.split user_input = cmd :: args
        /\ Shell.parse_input user_input
           = Shell.Returns (Some (Shell.lower cmd), args))
  /\ ((exists cmd args,
         Shell.parse_input user_input = Shell.Returns (Some cmd, args))
      \/ Shell.parse_input user_input = Shell.Returns (None, [])).
Proof.
  assert (Hblank : Forall (fun c => isspace_char c = true) user_input ->
                   Shell.parse_input user_input = Shell.Returns (None, [])).
  { intros Hs. unfold Shell.parse_input.
    rewrite (proj2 (strip_nil_iff _) Hs). reflexivity. }
  assert (Hwords : ~ Forall (fun c => isspace_char c = true) user_input ->
            exists cmd args,
              Shell.split user_input = cmd :: args
              /\ Shell.parse_input user_input
                 = Shell.Returns (Some (Shell.lower cmd), args)).
  { intros Hs. unfold Shell.parse_input.
    destruct (strip user_input) as [ | c t] eqn:E.
    { exfalso. apply Hs, strip_nil_iff, E. }
    cbv iota. rewrite <- E, split_strip.
    destruct (Shell.split user_input) as [ | cmd args] eqn:Es.
    + exfalso. apply Hs. exact (proj2 (proj1 (split_from_nil_iff _ _) Es)).
    + exists cmd, args. split; reflexivity. }
  split; [exact Hblank | ]. split; [exact Hwords | ].
  destruct (decide (Forall (fun c => isspace_char c = true) user_input))
    as [Hs | Hs].
  - right. exact (Hblank Hs).
  - left. destruct (Hwords Hs) as (cmd & args & _ & Hp). eauto.
Qed.

Section session.

Context `{libc : LibC} `{builtins : Shell.Builtins} `{pk : Pickle}
  `{os : OS}.

(** X26.  [parse_input] answers every line and never raises.  A line of
    whitespace only (the empty line too) gives no command and no arguments;
    any other line gives its first word in lower case as the command and
    the other words as the arguments, the words being those of the line
    split at runs of whitespace: none is empty, none holds whitespace, and
    whitespace before the first and after the last word does not count. *)
Theorem parse_input_gives_the_words_of_the_line (user_input : pystr) :
  (Forall (fun c => isspace_char c = true) user_input ->
   Shell.parse_input user_input = Shell.Returns (None, []))
  /\ (~ Forall (fun c => isspace_char c = true) user_input ->
      exists cmd args,
        Shell.split user_input = cmd :: args
        /\ Shell.parse_input user_input
           = Shell.Returns (Some (Shell.lower cmd), args))
  /\ Forall (fun w => w <> [] /\ Forall (fun c => isspace_char c = false) w)
            (Shell.split user_input)
  /\ Shell.parse_input (strip user_input) = Shell.parse_input user_input.
Proof.
  destruct (parse_input_cases user_input) as (Hblank & Hwords & _).
  split; [exact Hblank | ]. split; [exact Hwords | ]. split.
  - apply split_from_tokens. constructor.
  - unfold Shell.parse_input. rewrite strip_strip. reflexivity.
Qed.

(** X27.  Words that are not empty and hold no whitespace, joined by single
    spaces, are the words [parse_input] finds again: the first, in lower
    case, is the command and the others are the arguments, unchanged. *)
Theorem parse_input_of_joined_words (cmd : pystr) (args : list pystr) :
  Forall (fun w => w <> [] /\ Forall (fun c => isspace_char c = false) w)
         (cmd :: args) ->
  Shell.split (join (lit " ") (cmd :: args)) = cmd :: args
  /\ Shell.parse_input (join (lit " ") (cmd :: args))
     = Shell.Returns (Some (Shell.lower cmd), args).
Proof.
  intros Hw. pose proof (split_join _ Hw) as Es. split; [exact Es | ].
  unfold Shell.parse_input.
  destruct (strip (join (lit " ") (cmd :: args))) as [ | c t] eqn:E.
  - pose proof (split_strip (join (lit " ") (cmd :: args))) as E'.
    rewrite E, Es in E'. discriminate.
  - cbv iota. rewrite <- E, split_strip, Es. reflexivity.
Qed.




End session.

Lemma parse_input_gives_the_words_of_the_line_witness :
  @Shell.parse_input ascii_builtins [32; 9; 32] = Shell.Returns (None, []).
Proof.
  apply (proj1 (@parse_input_gives_the_words_of_the_line ascii_builtins
                  [32; 9; 32])).
  repeat constructor.
Defined.

Lemma parse_input_of_joined_words_witness :
  @Shell.parse_input ascii_builtins (lit "ADD Ann 0501234567")
  = Shell.Returns (Some (lit "add"), [lit "Ann"; lit "0501234567"]).
Proof.
  refine (proj2 (@parse_input_of_joined_words ascii_builtins (lit "ADD")
                   [lit "Ann"; lit "0501234567"] _)).
  repeat constructor; discriminate.
Defined.


(* ===================================================================== *)
(** * Extra: every command answers *)
(* ===================================================================== *)

Lemma mapM_raises {A B} (f : A -> result B) (l : list A) (e : exn) :
  mapM f l = Raise e -> exists x, x ∈ l /\ f x = Raise e.
Proof.
  induction l as [ | x l IH]; cbn [mapM]; [discriminate | ].
  destruct (f x) as [y | e'] eqn:Ex; cbn [bind].
  - destruct (mapM f l) as [ys | e'']; cbn [bind]; [discriminate | ].
    intros [= <-]. destruct (IH eq_refl) as (x' & Hin & Hx').
    exists x'. split; [right; exact Hin | exact Hx'].
  - intros [= <-]. exists x. split; [left | exact Ex].
Qed.

Lemma safe_birthday_raises (bday : date) (y : Z) (e : exn) :
  valid_date bday = true ->
  _safe_birthday_for_year bday y = Raise e -> is_ValueError e = true.
Proof.
  intros Hb. destruct (Z_le_dec 1 y) as [H1 | H1];
    [destruct (Z_le_dec y 9999) as [H2 | H2] | ].
  - destruct (safe_birthday_in_range bday y Hb (conj H1 H2)) as [-> _].
    discriminate.
  - rewrite safe_birthday_out_of_range by lia. intros [= <-]. reflexivity.
  - rewrite safe_birthday_out_of_range by lia. intros [= <-]. reflexivity.
Qed.

Lemma birthday_this_year_raises (today bday : date) (e : exn) :
  valid_date bday = true ->
  birthday_this_year today bday = Raise e -> is_ValueError e = true.
Proof.
  intros Hb. unfold birthday_this_year.
  destruct (_safe_birthday_for_year bday (year today)) as [b | e'] eqn:E;
    cbn [bind].
  - destruct (date_ltb b today); [ | discriminate].
    apply safe_birthday_raises, Hb.
  - intros [= <-]. exact (safe_birthday_raises _ _ _ Hb E).
Qed.

Section answers.

Context `{libc : LibC} `{builtins : Shell.Builtins}.

Lemma upcoming_entry_raises (today : date) (days : Z) (r : ContactRecord)
    (e : exn) :
  valid_date today = true ->
  upcoming_entry today days r = Raise e -> is_ValueError e = true.
Proof.
  intros Ht. unfold upcoming_entry.
  destruct (birthday r) as [bd | ]; [ | discriminate].
  unfold date_value.
  destruct (strptime (value bd)) as [dt | e'] eqn:Ep; cbn [bind];
    [ | intros [= <-]; exact (strptime_raises _ _ Ep)].
  pose proof (strptime_valid _ _ Ep) as Hv.
  destruct (birthday_this_year today dt) as [b | e'] eqn:Eb; cbn [bind];
    [ | intros [= <-]; exact (birthday_this_year_raises _ _ _ Hv Eb)].
  destruct (birthday_this_year_inv _ _ _ Ht Hv Eb) as [Hvb _].
  destruct (congrat_date_ok b Hvb) as (c & -> & _). cbn [bind].
  destruct (_ && _); discriminate.
Qed.

Lemma upcoming_loop_raises (today : date) (days : Z)
    (rs : list ContactRecord) (upcoming : list entry) (e : exn) :
  valid_date today = true ->
  upcoming_loop today days rs upcoming = Raise e -> is_ValueError e = true.
Proof.
  intros Ht. revert upcoming.
  induction rs as [ | r rs IH]; intros upcoming; cbn [upcoming_loop];
    [discriminate | ].
  destruct (upcoming_entry today days r) as [o | e'] eqn:Eo; cbn [bind].
  - apply IH.
  - intros [= <-]. exact (upcoming_entry_raises _ _ _ _ Ht Eo).
Qed.

Lemma get_upcoming_birthdays_raises (today : date) (book : AddressBook)
    (days : Z) (e : exn) :
  valid_date today = true ->
  get_upcoming_birthdays today book days = Raise e ->
  is_ValueError e = true.
Proof.
  intros Ht. unfold get_upcoming_birthdays.
  destruct (upcoming_loop today days (values book) []) as [up | e'] eqn:El;
    cbn [bind];
    [ | intros [= <-]; exact (upcoming_loop_raises _ _ _ _ _ Ht El)].
  unfold sort_by_key, decorate.
  destruct (mapM _ up) as [keyed | e'] eqn:Em; cbn [bind]; [discriminate | ].
  intros [= <-]. apply mapM_raises in Em. destruct Em as (x & _ & Hx).
  unfold sort_key in Hx.
  destruct (strptime (congratulation_date x)) as [k | e''] eqn:Ep;
    cbn [bind] in Hx; [discriminate | ].
  injection Hx as <-. exact (strptime_raises _ _ Ep).
Qed.


Lemma input_error_ValueError (e : exn) :
  is_ValueError e = true ->
  Shell.input_error (Shell.Raises (Shell.Core e))
  = Shell.Returns (Shell.SayError (Shell.Core e)).
Proof. destruct e; try discriminate. reflexivity. Qed.


Lemma decorated_fst (func : Shell.command) (args : list pystr)
    (book : AddressBook) :
  (Shell.decorated func args book).1 = Shell.input_error (func args book).1.
Proof. unfold Shell.decorated. destruct (func args book). reflexivity. Qed.






(** X29.  [birthdays] leaves the book as it was and, on any day of the
    calendar, answers: with the error of [int] when its first argument is
    not a number; with the error [get_upcoming_birthdays] raises, which is
    a ValueError; with "No upcoming birthdays." when the list returned for
    the window (7 days without argument) is empty; and else with one line
    "name: date" for each entry of the list, in its order. *)
Theorem birthdays_answers_one_line_per_entry (today : date)
    (args : list pystr) (book : AddressBook) :
  valid_date today = true ->
  (Shell.birthdays today args book).2 = book
  /\ (window_of args = None ->
      exists a, args = a :: tail args
                /\ (Shell.birthdays today args book).1
                   = Shell.Returns (Shell.SayError (Shell.IntError a)))
  /\ (forall days, window_of args = Some days ->
        (forall e, get_upcoming_birthdays today book days = Raise e ->
           is_ValueError e = true
           /\ (Shell.birthdays today args book).1
              = Shell.Returns (Shell.SayError (Shell.Core e)))
        /\ (get_upcoming_birthdays today book days = Ok [] ->
            (Shell.birthdays today args book).1
            = Shell.Returns (Shell.Say (lit "No upcoming birthdays.")))
        /\ (forall res, res <> [] ->
              get_upcoming_birthdays today book days = Ok res ->
              (Shell.birthdays today args book).1
              = Shell.Returns
                  (Shell.Say (join [10]
                     ((fun x => entry_name x ++ lit ": "
                                ++ congratulation_date x) <$> res))))).
Proof.
  intros Ht.
  assert (Hfst : forall days, window_of args = Some days ->
            (Shell.birthdays today args book).1
            = Shell.input_error
                (match get_upcoming_birthdays today book days with
                 | Raise e => Shell.Raises (Shell.Core e)
                 | Ok [] => Shell.Returns (lit "No upcoming birthdays.")
                 | Ok upcoming =>
                     Shell.Returns
                       (join [10] (Shell.birthday_line <$> upcoming))
                 end)).
  { intros days Hw. unfold Shell.birthdays. rewrite decorated_fst.
    unfold Shell.birthdays_func. unfold window_of in Hw.
    destruct args as [ | a rest];
      [injection Hw as <- | rewrite Hw];
      destruct (get_upcoming_birthdays today book _) as [[ | x l] | e];
      reflexivity. }
  split; [ | split].
  - unfold Shell.birthdays, Shell.decorated, Shell.birthdays_func.
    destruct args as [ | a rest].
    + destruct (get_upcoming_birthdays today book 7) as [[ | x l] | e];
        reflexivity.
    + destruct (Shell.int_str a) as [n | ]; [ | reflexivity].
      destruct (get_upcoming_birthdays today book n) as [[ | x l] | e];
        reflexivity.
  - unfold window_of. destruct args as [ | a rest]; [discriminate | ].
    intros Hw. exists a. split; [reflexivity | ].
    unfold Shell.birthdays. rewrite decorated_fst.
    unfold Shell.birthdays_func. rewrite Hw. reflexivity.
  - intros days Hw. rewrite (Hfst days Hw). split; [ | split].
    + intros e He. pose proof (get_upcoming_birthdays_raises _ _ _ _ Ht He)
        as Hv.
      split; [exact Hv | ]. rewrite He. apply input_error_ValueError, Hv.
    + intros ->. reflexivity.
    + intros res Hne ->. destruct res as [ | x l]; [contradiction | ].
      reflexivity.
Qed.




End answers.

Lemma birthdays_answers_one_line_per_entry_witness :
  (@Shell.birthdays glibc ascii_builtins (mkdate 2025 1 1) [lit "30"]
     sample_book).1
  = Shell.Returns
      (Shell.Say (join [10] [lit "Bob: 01.01.2025"; lit "Ann: 03.01.2025"])).
Proof.
  apply (proj2 (proj2 (proj2 (proj2
           (@birthdays_answers_one_line_per_entry glibc ascii_builtins
              (mkdate 2025 1 1) [lit "30"] sample_book eq_refl))
           30 eq_refl))
           [mkEntry (lit "Bob") (lit "01.01.2025");
            mkEntry (lit "Ann") (lit "03.01.2025")]).
  - discriminate.
  - vm_compute. reflexivity.
Defined.

